(** * Advanced Emulator Launcher: ROM catalogue audit core

    A shallow embedding of the audit functions of [resources/rom_audit.py]
    and of the text, multi-disc and checksum helpers of
    [resources/utils.py], followed by the properties established for them.

    Python values are modelled as follows: [unicode]/[str] values are
    [string]s whose characters stand for the code points 0..255, a [dict]
    keyed by strings is a [gmap string _], a [list] is a [list], and a
    function that can raise returns a [result]. *)

From Stdlib Require Import ZArith String Ascii List.
From stdpp Require Import gmap strings list fin_maps.

Local Open Scope string_scope.
Local Open Scope list_scope.

(** ** Python primitives *)

Module Py.

(** The exceptions the embedded code can raise. *)
Inductive exn : Type :=
  | NameError
  | KeyError
  | AttributeError
  | IOError
  | OSError
  | ParseError.

(** Outcome of running a piece of Python: a value, or a raised exception. *)
Inductive result (A : Type) : Type :=
  | Ok (a : A)
  | Raise (e : exn).
Arguments Ok {A} a.
Arguments Raise {A} e.

Definition bind {A B} (r : result A) (k : A -> result B) : result B :=
  match r with
  | Ok a => k a
  | Raise e => Raise e
  end.

#[global] Instance result_ret : MRet result := fun A a => Ok a.
#[global] Instance result_bind : MBind result := fun A B k r => bind r k.

(** Characters used by the embedded code. *)
Definition LF : ascii := ascii_of_nat 10.
Definition CR : ascii := ascii_of_nat 13.
Definition TAB : ascii := ascii_of_nat 9.

(** [unicode.isspace()] on the code points below 256. *)
Definition is_space_unicode (c : ascii) : bool :=
  let n := nat_of_ascii c in
  (((9 <=? n) && (n <=? 13)) || ((28 <=? n) && (n <=? 32))
   || (n =? 133) || (n =? 160))%nat.

(** [str.isspace()] on a byte string (C locale). *)
Definition is_space_bytes (c : ascii) : bool :=
  let n := nat_of_ascii c in
  (((9 <=? n) && (n <=? 13)) || (n =? 32))%nat.

Fixpoint lstrip (sp : ascii -> bool) (s : string) : string :=
  match s with
  | EmptyString => EmptyString
  | String c s' => if sp c then lstrip sp s' else s
  end.

Fixpoint rstrip (sp : ascii -> bool) (s : string) : string :=
  match s with
  | EmptyString => EmptyString
  | String c s' =>
      match rstrip sp s' with
      | EmptyString => if sp c then EmptyString else String c EmptyString
      | r => String c r
      end
  end.

(** [s.strip()]. *)
Definition strip (sp : ascii -> bool) (s : string) : string :=
  rstrip sp (lstrip sp s).

(** [s.replace(old, new)] for a non-empty [old]: the occurrences of [old]
    are found from left to right without overlap. [skip] counts the
    characters of the occurrence just replaced that are still to be passed
    over. *)
Fixpoint replace_from (old new : string) (skip : nat) (s : string) : string :=
  match s with
  | EmptyString => EmptyString
  | String c s' =>
      match skip with
      | S k => replace_from old new k s'
      | O =>
          if String.prefix old s
          then new +:+ replace_from old new (String.length old - 1) s'
          else String c (replace_from old new 0 s')
      end
  end.

Definition replace (old new s : string) : string := replace_from old new 0 s.

(** [s.split(sep)] for a one-character separator. *)
Fixpoint split (sep : ascii) (s : string) : list string :=
  match s with
  | EmptyString => [EmptyString]
  | String c s' =>
      if Ascii.eqb c sep then EmptyString :: split sep s'
      else match split sep s' with
           | part :: parts => String c part :: parts
           | [] => [String c EmptyString]
           end
  end.

(** [sep.join(parts)]. *)
Fixpoint join (sep : string) (parts : list string) : string :=
  match parts with
  | [] => EmptyString
  | [part] => part
  | part :: rest => part +:+ sep +:+ join sep rest
  end.

(** [s[n:]]. *)
Fixpoint drop_chars (n : nat) (s : string) : string :=
  match n, s with
  | O, _ => s
  | S k, EmptyString => EmptyString
  | S k, String _ s' => drop_chars k s'
  end.

(** If [s] starts with [p], what follows [p] in [s]. *)
Fixpoint after_prefix (p s : string) : option string :=
  match p, s with
  | EmptyString, _ => Some s
  | String a p', String b s' => if Ascii.eqb a b then after_prefix p' s' else None
  | String _ _, EmptyString => None
  end.

Definition is_digit (c : ascii) : bool :=
  let n := nat_of_ascii c in ((48 <=? n) && (n <=? 57))%nat.

(** The greedy match of [[0-9]*] at the start of [s], and what follows. *)
Fixpoint span_digits (s : string) : string * string :=
  match s with
  | EmptyString => (EmptyString, EmptyString)
  | String c s' =>
      if is_digit c then let '(d, r) := span_digits s' in (String c d, r)
      else (EmptyString, s)
  end.

(** [int(s)] for a string of decimal digits. *)
Fixpoint int_of_digits (acc : Z) (s : string) : Z :=
  match s with
  | EmptyString => acc
  | String c s' => int_of_digits (10 * acc + (Z.of_nat (nat_of_ascii c) - 48)) s'
  end.

Definition int (s : string) : Z := int_of_digits 0 s.

End Py.

(** ** The digests of [zlib] and [hashlib]

    [zlib.crc32], [hashlib.md5] and [hashlib.sha1] are library functions;
    they are modelled by the algorithms they implement (the CRC-32 of
    ISO 3309, RFC 1321 and RFC 3174) over 32-bit words held in [Z]. *)

Module Hash.
Local Open Scope Z_scope.

Definition wrap32 (x : Z) : Z := x mod 2 ^ 32.
Definition add32 (a b : Z) : Z := wrap32 (a + b).
Definition not32 (a : Z) : Z := Z.lxor a 0xFFFFFFFF.
Definition rotl32 (x n : Z) : Z :=
  Z.lor (wrap32 (Z.shiftl x n)) (Z.shiftr x (32 - n)).

(** The bytes of a byte string. *)
Definition bytes_of (s : string) : list Z :=
  map (fun c => Z.of_nat (nat_of_ascii c)) (list_ascii_of_string s).

(** The [n] low bytes of [w], least significant first, and most
    significant first. *)
Definition bytes_le (n : nat) (w : Z) : list Z :=
  map (fun i => Z.shiftr w (8 * Z.of_nat i) mod 256) (seq 0 n).
Definition bytes_be (n : nat) (w : Z) : list Z := rev (bytes_le n w).

Definition word_le (bs : list Z) : Z := fold_right (fun b acc => b + 256 * acc) 0 bs.
Definition word_be (bs : list Z) : Z := fold_left (fun acc b => 256 * acc + b) bs 0.

(** The first [n] consecutive blocks of [size] elements of [l]. *)
Fixpoint blocks {A} (n size : nat) (l : list A) : list (list A) :=
  match n with
  | O => []
  | S n' => firstn size l :: blocks n' size (skipn size l)
  end.

(** Number of zero bytes of the padding: the padded message, with one
    [0x80] byte before them and eight length bytes after, is a whole
    number of 64-byte blocks. *)
Definition pad_zeros (len : nat) : nat := ((119 - len mod 64) mod 64)%nat.

(** *** CRC-32 *)

Definition crc32_bit (c : Z) : Z :=
  if Z.testbit c 0 then Z.lxor (Z.shiftr c 1) 0xEDB88320 else Z.shiftr c 1.

Definition crc32_byte (c b : Z) : Z :=
  let c := Z.lxor c b in
  crc32_bit (crc32_bit (crc32_bit (crc32_bit
    (crc32_bit (crc32_bit (crc32_bit (crc32_bit c))))))).

(** [zlib.crc32(data, value)] of Python 2: the running checksum [value]
    is taken modulo [2^32] and the result is a signed 32-bit integer. *)
Definition crc32 (data : string) (value : Z) : Z :=
  let c := Z.lxor (wrap32 value) 0xFFFFFFFF in
  let c := fold_left crc32_byte (bytes_of data) c in
  let r := Z.lxor c 0xFFFFFFFF in
  if r <? 2 ^ 31 then r else r - 2 ^ 32.

(** *** MD5 *)

Definition md5_K : list Z :=
  [0xd76aa478; 0xe8c7b756; 0x242070db; 0xc1bdceee;
   0xf57c0faf; 0x4787c62a; 0xa8304613; 0xfd469501;
   0x698098d8; 0x8b44f7af; 0xffff5bb1; 0x895cd7be;
   0x6b901122; 0xfd987193; 0xa679438e; 0x49b40821;
   0xf61e2562; 0xc040b340; 0x265e5a51; 0xe9b6c7aa;
   0xd62f105d; 0x02441453; 0xd8a1e681; 0xe7d3fbc8;
   0x21e1cde6; 0xc33707d6; 0xf4d50d87; 0x455a14ed;
   0xa9e3e905; 0xfcefa3f8; 0x676f02d9; 0x8d2a4c8a;
   0xfffa3942; 0x8771f681; 0x6d9d6122; 0xfde5380c;
   0xa4beea44; 0x4bdecfa9; 0xf6bb4b60; 0xbebfbc70;
   0x289b7ec6; 0xeaa127fa; 0xd4ef3085; 0x04881d05;
   0xd9d4d039; 0xe6db99e5; 0x1fa27cf8; 0xc4ac5665;
   0xf4292244; 0x432aff97; 0xab9423a7; 0xfc93a039;
   0x655b59c3; 0x8f0ccc92; 0xffeff47d; 0x85845dd1;
   0x6fa87e4f; 0xfe2ce6e0; 0xa3014314; 0x4e0811a1;
   0xf7537e82; 0xbd3af235; 0x2ad7d2bb; 0xeb86d391].

Definition md5_S : list Z :=
  [7; 12; 17; 22; 7; 12; 17; 22; 7; 12; 17; 22; 7; 12; 17; 22;
   5; 9; 14; 20; 5; 9; 14; 20; 5; 9; 14; 20; 5; 9; 14; 20;
   4; 11; 16; 23; 4; 11; 16; 23; 4; 11; 16; 23; 4; 11; 16; 23;
   6; 10; 15; 21; 6; 10; 15; 21; 6; 10; 15; 21; 6; 10; 15; 21].

Definition md5_state : Type := (Z * Z * Z * Z)%type.

Definition md5_init : md5_state :=
  (0x67452301, 0xefcdab89, 0x98badcfe, 0x10325476).

Definition md5_round (M : list Z) (st : md5_state) (i : nat) : md5_state :=
  let '(A, B, C, D) := st in
  let '(F, g) :=
    if (i <? 16)%nat then
      (Z.lor (Z.land B C) (Z.land (not32 B) D), i)
    else if (i <? 32)%nat then
      (Z.lor (Z.land D B) (Z.land (not32 D) C), ((5 * i + 1) mod 16)%nat)
    else if (i <? 48)%nat then
      (Z.lxor (Z.lxor B C) D, ((3 * i + 5) mod 16)%nat)
    else
      (Z.lxor C (Z.lor B (not32 D)), ((7 * i) mod 16)%nat) in
  let F := add32 (add32 (add32 F A) (nth i md5_K 0)) (nth g M 0) in
  (D, add32 B (rotl32 F (nth i md5_S 0)), B, C).

Definition md5_block (st : md5_state) (block : list Z) : md5_state :=
  let M := map word_le (blocks 16 4 block) in
  let '(a0, b0, c0, d0) := st in
  let '(A, B, C, D) := fold_left (md5_round M) (seq 0 64) st in
  (add32 a0 A, add32 b0 B, add32 c0 C, add32 d0 D).

Definition md5_pad (msg : list Z) : list Z :=
  msg ++ [0x80] ++ repeat 0 (pad_zeros (length msg))
      ++ bytes_le 8 (8 * Z.of_nat (length msg)).

(** The 16 bytes of the MD5 digest of [msg]. *)
Definition md5_digest (msg : list Z) : list Z :=
  let padded := md5_pad msg in
  let '(a, b, c, d) :=
    fold_left md5_block (blocks (length padded / 64) 64 padded) md5_init in
  bytes_le 4 a ++ bytes_le 4 b ++ bytes_le 4 c ++ bytes_le 4 d.

(** *** SHA-1 *)

Definition sha1_state : Type := (Z * Z * Z * Z * Z)%type.

Definition sha1_init : sha1_state :=
  (0x67452301, 0xefcdab89, 0x98badcfe, 0x10325476, 0xc3d2e1f0).

(** The message schedule: 16 words of the block, extended to 80. *)
Definition sha1_extend (W : list Z) (t : nat) : list Z :=
  W ++ [rotl32 (Z.lxor (Z.lxor (nth (t - 3) W 0) (nth (t - 8) W 0))
                       (Z.lxor (nth (t - 14) W 0) (nth (t - 16) W 0))) 1].

Definition sha1_round (W : list Z) (st : sha1_state) (t : nat) : sha1_state :=
  let '(a, b, c, d, e) := st in
  let '(f, k) :=
    if (t <? 20)%nat then
      (Z.lor (Z.land b c) (Z.land (not32 b) d), 0x5a827999)
    else if (t <? 40)%nat then
      (Z.lxor (Z.lxor b c) d, 0x6ed9eba1)
    else if (t <? 60)%nat then
      (Z.lor (Z.lor (Z.land b c) (Z.land b d)) (Z.land c d), 0x8f1bbcdc)
    else
      (Z.lxor (Z.lxor b c) d, 0xca62c1d6) in
  let temp := add32 (add32 (add32 (add32 (rotl32 a 5) f) e) k) (nth t W 0) in
  (temp, a, rotl32 b 30, c, d).

Definition sha1_block (st : sha1_state) (block : list Z) : sha1_state :=
  let W := fold_left sha1_extend (seq 16 64) (map word_be (blocks 16 4 block)) in
  let '(h0, h1, h2, h3, h4) := st in
  let '(a, b, c, d, e) := fold_left (sha1_round W) (seq 0 80) st in
  (add32 h0 a, add32 h1 b, add32 h2 c, add32 h3 d, add32 h4 e).

Definition sha1_pad (msg : list Z) : list Z :=
  msg ++ [0x80] ++ repeat 0 (pad_zeros (length msg))
      ++ bytes_be 8 (8 * Z.of_nat (length msg)).

(** The 20 bytes of the SHA-1 digest of [msg]. *)
Definition sha1_digest (msg : list Z) : list Z :=
  let padded := sha1_pad msg in
  let '(h0, h1, h2, h3, h4) :=
    fold_left sha1_block (blocks (length padded / 64) 64 padded) sha1_init in
  bytes_be 4 h0 ++ bytes_be 4 h1 ++ bytes_be 4 h2 ++ bytes_be 4 h3 ++ bytes_be 4 h4.

(** *** Hexadecimal text *)

Definition hex_digit (upper : bool) (d : Z) : ascii :=
  if d <? 10 then ascii_of_nat (Z.to_nat (48 + d))
  else ascii_of_nat (Z.to_nat ((if upper then 55 else 87) + d)).

(** [hexdigest()]: two lower-case digits per byte. *)
Definition hexdigest (digest : list Z) : string :=
  string_of_list_ascii
    (flat_map (fun b => [hex_digit false (b / 16); hex_digit false (b mod 16)]) digest).

(** The upper-case hexadecimal digits of [n >= 0], most significant
    first; [fuel] bounds their number. *)
Fixpoint hex_digits_upper (fuel : nat) (n : Z) : list ascii :=
  match fuel with
  | O => []
  | S fuel' =>
      if n <? 16 then [hex_digit true n]
      else hex_digits_upper fuel' (n / 16) ++ [hex_digit true (n mod 16)]
  end.

(** ['{:08X}'.format(n)] for [n >= 0]: the upper-case hexadecimal digits
    of [n], with zeros on the left up to eight characters. *)
Definition format_08X (n : Z) : string :=
  let digits := hex_digits_upper (S (Z.to_nat (Z.log2 n))) n in
  string_of_list_ascii (repeat "0"%char (8 - length digits) ++ digits).

(** [s.upper()] on ASCII text. *)
Definition upper_char (c : ascii) : ascii :=
  let n := nat_of_ascii c in
  if ((97 <=? n) && (n <=? 122))%nat then ascii_of_nat (n - 32) else c.

Fixpoint upper (s : string) : string :=
  match s with
  | EmptyString => EmptyString
  | String c s' => String (upper_char c) (upper s')
  end.

End Hash.

(** ** [resources/utils.py]: XML text escaping *)

Module Utils.
Import Py.

Definition str_LF : string := String LF EmptyString.
Definition str_CR : string := String CR EmptyString.
Definition str_TAB : string := String TAB EmptyString.
Definition str_quot : string := String (ascii_of_nat 34) EmptyString.

(** [text_escape_XML(data_str)] for a string argument. *)
Definition text_escape_XML (data_str : string) : string :=
  let data_str := replace "&" "&amp;" data_str in
  let data_str := replace ">" "&gt;" data_str in
  let data_str := replace "<" "&lt;" data_str in
  let data_str := replace "'" "&apos;" data_str in
  let data_str := replace str_quot "&quot;" data_str in
  let data_str := replace str_LF "&#10;" data_str in
  let data_str := replace str_CR "&#13;" data_str in
  let data_str := replace str_TAB "&#9;" data_str in
  data_str.

(** [text_unescape_XML(data_str)]. *)
Definition text_unescape_XML (data_str : string) : string :=
  let data_str := replace "&quot;" str_quot data_str in
  let data_str := replace "&apos;" "'" data_str in
  let data_str := replace "&lt;" "<" data_str in
  let data_str := replace "&gt;" ">" data_str in
  let data_str := replace "&amp;" "&" data_str in
  let data_str := replace "&#10;" str_LF data_str in
  let data_str := replace "&#13;" str_CR data_str in
  let data_str := replace "&#9;" str_TAB data_str in
  data_str.

(** ** [resources/utils.py]: multi-disc ROM support *)

(** The regular expression of [text_get_ROM_basename_tokens],
    [\[.+?\]|\(.+?\)|\{.+?\}|[^\[\(\{]+], alternative by alternative. *)

(** [.*?c]: the shortest run of characters other than a line feed that is
    followed by [c], together with that [c]. *)
Fixpoint lazy_until (close : ascii) (s : string) : option string :=
  match s with
  | EmptyString => None
  | String c s' =>
      if Ascii.eqb c close then Some (String c EmptyString)
      else if Ascii.eqb c LF then None
      else String c <$> lazy_until close s'
  end.

(** [o.+?c] at the start of [s]: the text matched, if any. *)
Definition match_group (open close : ascii) (s : string) : option string :=
  match s with
  | String o (String c1 rest) =>
      if Ascii.eqb o open && negb (Ascii.eqb c1 LF)
      then (fun body => String o (String c1 body)) <$> lazy_until close rest
      else None
  | _ => None
  end.

Definition is_opening (c : ascii) : bool :=
  Ascii.eqb c "[" || Ascii.eqb c "(" || Ascii.eqb c "{".

(** The longest prefix of [s] without an opening bracket. *)
Fixpoint run_outside (s : string) : string :=
  match s with
  | EmptyString => EmptyString
  | String c s' => if is_opening c then EmptyString else String c (run_outside s')
  end.

(** [[^\[\(\{]+] at the start of [s]. *)
Definition match_run (s : string) : option string :=
  match run_outside s with
  | EmptyString => None
  | r => Some r
  end.

(** The whole alternation at the start of [s], first alternative first. *)
Definition match_token (s : string) : option string :=
  match match_group "[" "]" s with
  | Some tok => Some tok
  | None =>
    match match_group "(" ")" s with
    | Some tok => Some tok
    | None =>
      match match_group "{" "}" s with
      | Some tok => Some tok
      | None => match_run s
      end
    end
  end.

(** [re.findall(reg_exp, s)]: the matches found scanning from left to
    right; the scan resumes after a match, and one character further where
    nothing matches. [skip] counts the characters of the last match that
    are still to be passed over. *)
Fixpoint findall_from (skip : nat) (s : string) : list string :=
  match s with
  | EmptyString => []
  | String c s' =>
      match skip with
      | S k => findall_from k s'
      | O =>
          match match_token s with
          | Some tok => tok :: findall_from (String.length tok - 1) s'
          | None => findall_from 0 s'
          end
      end
  end.

(** [tokens_raw] of [text_get_ROM_basename_tokens]. *)
Definition tokens_raw (basename_str : string) : list string :=
  findall_from 0 basename_str.

(** [text_get_ROM_basename_tokens(basename_str)]. *)
Definition text_get_ROM_basename_tokens (basename_str : string) : list string :=
  let tokens_strip := map (strip is_space_unicode) (tokens_raw basename_str) in
  let tokens_clean := filter (fun token => token <> EmptyString) tokens_strip in
  filter (fun token => token <> "-") tokens_clean.

(** [posixpath.basename(p)]: what follows the last slash. *)
Fixpoint basename (p : string) : string :=
  match p with
  | EmptyString => EmptyString
  | String c p' =>
      if existsb (Ascii.eqb "/") (list_ascii_of_string p') then basename p'
      else if Ascii.eqb c "/" then p' else p
  end.

(** The extension of a file name without directory part: from its last dot
    on, unless only dots come before that dot. [seen] tells whether a
    character other than a dot has been passed. *)
Fixpoint ext_of_name (seen : bool) (name : string) : string :=
  match name with
  | EmptyString => EmptyString
  | String c name' =>
      if Ascii.eqb c "."
      then match ext_of_name seen name' with
           | EmptyString =>
               if seen && negb (existsb (Ascii.eqb ".") (list_ascii_of_string name'))
               then name else EmptyString
           | e => e
           end
      else ext_of_name true name'
  end.

(** [posixpath.splitext(p)]. *)
Definition splitext (p : string) : string * string :=
  let ext := ext_of_name false (basename p) in
  (substring 0 (String.length p - String.length ext) p, ext).

(** A [FileName] object ([FileName = NewFileName]) for a local path that
    is not a directory: the constructor turns backslashes into slashes. *)
Record FileName : Type := mk_FileName { path_str : string }.

Definition NewFileName (path : string) : FileName :=
  {| path_str := replace "\" "/" path |}.

Definition getPath (self : FileName) : string := path_str self.
Definition getBase (self : FileName) : string := basename (path_str self).
Definition getBaseNoExt (self : FileName) : string :=
  (splitext (basename (path_str self))).1.
Definition getExt (self : FileName) : string := (splitext (path_str self)).2.
Definition getPathNoExt (self : FileName) : string := (splitext (path_str self)).1.

(** The methods of the class that take no argument and return a string,
    by name. There is no method named [getBase_noext], in this class or in
    [FileNameBase]. *)
Definition FileName_method (name : string) : option (FileName -> string) :=
  if bool_decide (name = "getPath") then Some getPath
  else if bool_decide (name = "getPathNoExt") then Some getPathNoExt
  else if bool_decide (name = "getBase") then Some getBase
  else if bool_decide (name = "getBaseNoExt") then Some getBaseNoExt
  else if bool_decide (name = "getExt") then Some getExt
  else None.

(** [self.name()]: looking up an attribute the object does not have raises
    [AttributeError]. *)
Definition call_method (self : FileName) (name : string) : result string :=
  match FileName_method name with
  | Some method => Ok (method self)
  | None => Raise AttributeError
  end.

Record MultiDiscInfo : Type := mk_MultiDiscInfo {
  ROM_FN : FileName;
  isMultiDisc : bool;
  setName : string;
  discName : string;
  extension : string;
  order : Z
}.

(** [MultiDiscInfo.__init__(ROM_FN)]. *)
Definition MultiDiscInfo_init (ROM_FN : FileName) : result MultiDiscInfo :=
  base ← call_method ROM_FN "getBase";
  ext ← call_method ROM_FN "getExt";
  mret {| ROM_FN := ROM_FN; isMultiDisc := false; setName := EmptyString;
          discName := base; extension := ext; order := 0 |}.

(** [re.match(r'\(Dis[ck] ([0-9]+)\)', token)]: group 1 of the match. *)
Definition match_redump (token : string) : option string :=
  match after_prefix "(Dis" token with
  | Some (String ck (String sp rest)) =>
      if (Ascii.eqb ck "c" || Ascii.eqb ck "k") && Ascii.eqb sp " " then
        match span_digits rest with
        | (String d ds, String close _) =>
            if Ascii.eqb close ")" then Some (String d ds) else None
        | _ => None
        end
      else None
  | _ => None
  end.

(** [re.match(r'\(Dis[ck] ([0-9]+) of ([0-9]+)\)', token)]: group 1 of the
    match. *)
Definition match_tosec (token : string) : option string :=
  match after_prefix "(Dis" token with
  | Some (String ck (String sp rest)) =>
      if (Ascii.eqb ck "c" || Ascii.eqb ck "k") && Ascii.eqb sp " " then
        match span_digits rest with
        | (String d ds, rest1) =>
            match after_prefix " of " rest1 with
            | Some rest2 =>
                match span_digits rest2 with
                | (String _ _, String close _) =>
                    if Ascii.eqb close ")" then Some (String d ds) else None
                | _ => None
                end
            | None => None
            end
        | _ => None
        end
      else None
  | _ => None
  end.

(** [l.remove(x)]: the list without the first occurrence of [x]. *)
Fixpoint list_remove_first (x : nat) (l : list nat) : list nat :=
  match l with
  | [] => []
  | y :: l' => if Nat.eqb x y then l' else y :: list_remove_first x l'
  end.

(** The tokens other than the one at [index], as both branches of the loop
    compute them. *)
Definition tokens_without (tokens : list string) (index : nat) : list string :=
  let tokens_idx := seq 0 (length tokens) in
  let tokens_nodisc_idx := list_remove_first index tokens_idx in
  omap (fun x => tokens !! x) tokens_nodisc_idx.

(** The loop over [enumerate(tokens)]: at the first token matching one of
    the two patterns, [tokens_mdisc] and group 1 of [matchObj]. *)
Fixpoint find_disc_token (tokens rest : list string) (index : nat)
    : option (list string * string) :=
  match rest with
  | [] => None
  | token :: rest' =>
      match match_redump token with
      | Some group1 => Some (tokens_without tokens index, group1)
      | None =>
          match match_tosec token with
          | Some group1 => Some (tokens_without tokens index, group1)
          | None => find_disc_token tokens rest' (S index)
          end
      end
  end.

(** [text_get_multidisc_info(ROM_FN)]. Of the debug lines only the first
    of the multi-disc branch can fail: its argument calls
    [ROM_FN.getBase_noext()]. *)
Definition text_get_multidisc_info (ROM_FN : FileName) : result MultiDiscInfo :=
  MDSet ← MultiDiscInfo_init ROM_FN;
  base_noext ← call_method ROM_FN "getBaseNoExt";
  let tokens := text_get_ROM_basename_tokens base_noext in
  match find_disc_token tokens tokens 0 with
  | Some (tokens_mdisc, group1) =>
      let MDSet :=
        {| ROM_FN := ROM_FN; isMultiDisc := true;
           setName := join " " tokens_mdisc +:+ extension MDSet;
           discName := discName MDSet; extension := extension MDSet;
           order := int group1 |} in
      _ ← call_method ROM_FN "getBase_noext";
      mret MDSet
  | None => mret MDSet
  end.

(** ** [resources/utils.py]: checksums *)

(** [s[:n]]. *)
Fixpoint take_chars (n : nat) (s : string) : string :=
  match n, s with
  | O, _ => EmptyString
  | S k, EmptyString => EmptyString
  | S k, String c s' => String c (take_chars k s')
  end.

(** An open binary file: the bytes not read yet, and, when the device is
    going to fail, the number of reads that still succeed. *)
Record file_object : Type := mk_file_object {
  fo_data : string;
  fo_reads_left : option nat
}.

(** [file_object.read(chunk_size)]: the data read and the file after the
    read, or [IOError]. *)
Definition file_read (f : file_object) (chunk_size : nat)
    : result (string * file_object) :=
  match fo_reads_left f with
  | Some O => Raise IOError
  | reads_left =>
      Ok (take_chars chunk_size (fo_data f),
          {| fo_data := drop_chars chunk_size (fo_data f);
             fo_reads_left := Nat.pred <$> reads_left |})
  end.

(** What the operating system answers for one path: the outcome of
    [open(path, 'rb')] and of [os.path.getsize(path)]. *)
Record fs_entry : Type := mk_fs_entry {
  fs_open : result file_object;
  fs_getsize : result Z
}.

Definition file_system : Type := string -> fs_entry.

(** The default [chunk_size] of [misc_read_in_chunks]. *)
Definition chunk_size : nat := Z.to_nat 8192.

(** [misc_read_in_chunks(file_object)], with the default chunk size: the
    pieces the generator yields until a read returns no data, or the
    exception a read raises. Every piece but the last empty one takes at
    least one byte from the file, so [fuel] reads are enough when [fuel]
    exceeds the number of bytes left. *)
Fixpoint read_in_chunks (fuel : nat) (file_object : file_object)
    : result (list string) :=
  match fuel with
  | O => Ok []
  | S fuel' =>
      '(data, file_object') ← file_read file_object chunk_size;
      match data with
      | EmptyString => Ok []
      | _ => pieces ← read_in_chunks fuel' file_object'; mret (data :: pieces)
      end
  end.

Definition misc_read_in_chunks (file_object : file_object) : result (list string) :=
  read_in_chunks (S (String.length (fo_data file_object))) file_object.

(** [hashlib] objects: [update] appends to the message, [hexdigest]
    digests the message so far. *)
Definition hash_update (message : list Z) (piece : string) : list Z :=
  message ++ Hash.bytes_of piece.

Record checksums : Type := mk_checksums {
  crc : string;
  md5 : string;
  sha1 : string;
  size : Z
}.

(** The body of the [try] block of [misc_calculate_checksums]. *)
Definition checksums_try (fs : file_system) (full_file_path : string)
    : result (string * string * string * Z) :=
  f ← fs_open (fs full_file_path);
  pieces ← misc_read_in_chunks f;
  let crc_prev := fold_left (fun crc_prev piece => Hash.crc32 piece crc_prev) pieces 0%Z in
  let md5 := fold_left hash_update pieces [] in
  let sha1 := fold_left hash_update pieces [] in
  let crc_digest := Hash.format_08X (Z.land crc_prev 0xFFFFFFFF) in
  let md5_digest := Hash.hexdigest (Hash.md5_digest md5) in
  let sha1_digest := Hash.hexdigest (Hash.sha1_digest sha1) in
  size ← fs_getsize (fs full_file_path);
  mret (crc_digest, md5_digest, sha1_digest, size).

(** [misc_calculate_checksums(full_file_path)]: the bare [except] turns
    every exception of the [try] block into the result [None]. *)
Definition misc_calculate_checksums (fs : file_system) (full_file_path : string)
    : result (option checksums) :=
  match checksums_try fs full_file_path with
  | Raise _ => Ok None
  | Ok (crc_digest, md5_digest, sha1_digest, size) =>
      Ok (Some {| crc := Hash.upper crc_digest;
                  md5 := Hash.upper md5_digest;
                  sha1 := Hash.upper sha1_digest;
                  size := size |})
  end.

(** A file system in which [path] is a readable file holding [content],
    and nothing else exists. *)
Definition fs_with_file (path content : string) : file_system :=
  fun p =>
    if bool_decide (p = path)
    then {| fs_open := Ok {| fo_data := content; fo_reads_left := None |};
            fs_getsize := Ok (Z.of_nat (String.length content)) |}
    else {| fs_open := Raise IOError; fs_getsize := Raise OSError |}.

(** Text made of upper-case hexadecimal digits. *)
Definition is_upper_hex (c : ascii) : bool :=
  let n := nat_of_ascii c in
  (((48 <=? n) && (n <=? 57)) || ((65 <=? n) && (n <=? 70)))%nat.

Fixpoint all_chars (P : ascii -> bool) (s : string) : bool :=
  match s with
  | EmptyString => true
  | String c s' => P c && all_chars P s'
  end.

Definition upper_hex_of_length (n : nat) (s : string) : Prop :=
  String.length s = n /\ all_chars is_upper_hex s = true.

(** An input or output failure during the checksum computation: [open]
    raises, or a read raises, or [getsize] raises. *)
Definition io_failure (fs : file_system) (full_file_path : string) : Prop :=
  (exists e, fs_open (fs full_file_path) = Raise e) \/
  (exists f e, fs_open (fs full_file_path) = Ok f /\ misc_read_in_chunks f = Raise e) \/
  (exists e, fs_getsize (fs full_file_path) = Raise e).

Definition hello_world_checksums : checksums :=
  {| crc := "0D4A1185";
     md5 := "5EB63BBBE01EEED093CB22BB8F5ACDC3";
     sha1 := "2AAE6C35C94FCFB415DBE95F408B9CE91EE846ED";
     size := 11 |}.

(** The closing bracket of an opening bracket. *)
Definition closing_of (c : ascii) : option ascii :=
  if Ascii.eqb c "[" then Some "]"%char
  else if Ascii.eqb c "(" then Some ")"%char
  else if Ascii.eqb c "{" then Some "}"%char
  else None.

(** Text without line feed and without the character [close]. *)
Definition group_body (close : ascii) (body : string) : Prop :=
  all_chars (fun c => negb (Ascii.eqb c close) && negb (Ascii.eqb c LF)) body = true.

(** The strings in which every opening bracket met by the scan starts a
    group: they are made of characters other than opening brackets and of
    groups, a group being an opening bracket, one character other than a
    line feed, then characters other than line feeds up to the first
    matching closing bracket. *)
Inductive well_grouped : string -> Prop :=
  | wg_nil : well_grouped EmptyString
  | wg_char (c : ascii) (s : string) :
      is_opening c = false -> well_grouped s -> well_grouped (String c s)
  | wg_group (o close c1 : ascii) (body s : string) :
      closing_of o = Some close -> c1 <> LF -> group_body close body ->
      well_grouped s ->
      well_grouped (String o (String c1 (body +:+ String close s))).

(** ** Escaping, character by character *)

(** The concatenation of the images of the characters of [s]. *)
Fixpoint concat_map (f : ascii -> string) (s : string) : string :=
  match s with
  | EmptyString => EmptyString
  | String c s' => f c +:+ concat_map f s'
  end.

(** What [text_escape_XML] makes of one character. *)
Definition escape_char (c : ascii) : string := text_escape_XML (String c EmptyString).

(** The replacements of [text_unescape_XML], in the order of the code. *)
Definition unescape_steps : list (string * string) :=
  [("&quot;", str_quot); ("&apos;", "'"); ("&lt;", "<"); ("&gt;", ">");
   ("&amp;", "&"); ("&#10;", str_LF); ("&#13;", str_CR); ("&#9;", str_TAB)].

Definition apply_steps (steps : list (string * string)) (s : string) : string :=
  fold_left (fun s step => replace step.1 step.2 s) steps s.

(** The escaped form of one character after the first [k] replacements of
    [text_unescape_XML]. *)
Definition partial_unescape (k : nat) (c : ascii) : string :=
  apply_steps (firstn k unescape_steps) (escape_char c).

(** Text in which none of the three numeric entities occurs as it
    stands. *)
Fixpoint no_numeric_entity (s : string) : bool :=
  match s with
  | EmptyString => true
  | String _ s' =>
      negb (String.prefix "&#10;" s || String.prefix "&#13;" s || String.prefix "&#9;" s)
      && no_numeric_entity s'
  end.

(** The characters of the numeric entities after the ampersand. *)
Definition is_entity_char (c : ascii) : bool :=
  existsb (Ascii.eqb c) (list_ascii_of_string "#0139;").

(** ** Sample inputs *)

Definition super_mario_FN : FileName :=
  NewFileName "Super Mario Bros (USA) (Disc 1 of 2).zip".

Definition sonic_FN : FileName := NewFileName "Sonic The Hedgehog (USA).zip".

(** The concatenation of a token sequence. *)
Definition concat_tokens (tokens : list string) : string :=
  fold_right String.append EmptyString tokens.

End Utils.

(** ** [resources/rom_audit.py]: parent/clone dictionaries *)

Module RomAudit.
Import Py Utils.

(** [audit_new_rom_logiqx()]: the record template of a Logiqx/No-Intro
    entry, all four fields empty. *)
Record rom_logiqx : Type := mk_rom_logiqx {
  rom_name : string;
  rom_cloneof : string;
  rom_year : string;
  rom_manufacturer : string
}.

Definition audit_new_rom_logiqx : rom_logiqx :=
  {| rom_name := ""; rom_cloneof := ""; rom_year := ""; rom_manufacturer := "" |}.

(** One iteration of the loop of [audit_make_NoIntro_PClone_dic]. A string
    is true in Python exactly when it is not empty. *)
Definition pclone_step (main_pclone_dic : gmap string (list string))
    (entry : string * rom_logiqx) : gmap string (list string) :=
  let machine_name := entry.1 in
  let machine := entry.2 in
  if bool_decide (rom_cloneof machine <> "") then
    let parent_name := rom_cloneof machine in
    let dic1 :=
      match main_pclone_dic !! parent_name with
      | None => <[parent_name := []]> main_pclone_dic
      | Some _ => main_pclone_dic
      end in
    alter (fun clones => clones ++ [machine_name]) parent_name dic1
  else
    match main_pclone_dic !! machine_name with
    | None => <[machine_name := []]> main_pclone_dic
    | Some _ => main_pclone_dic
    end.

(** The loop run over the items of the dictionary in the order [items]. *)
Definition pclone_loop (items : list (string * rom_logiqx))
    : gmap string (list string) :=
  foldl pclone_step ∅ items.

(** [audit_make_NoIntro_PClone_dic(nointro_dic)]. The iteration order of a
    dictionary is some enumeration of its items without repetition;
    [map_to_list] is one. *)
Definition audit_make_NoIntro_PClone_dic (nointro_dic : gmap string rom_logiqx)
    : gmap string (list string) :=
  pclone_loop (map_to_list nointro_dic).

(** One iteration of the loop of [audit_make_NoIntro_Parents_dic]. *)
Definition parents_step (main_clone_to_parent_dic : gmap string string)
    (entry : string * rom_logiqx) : gmap string string :=
  if bool_decide (rom_cloneof entry.2 <> "") then
    <[entry.1 := rom_cloneof entry.2]> main_clone_to_parent_dic
  else main_clone_to_parent_dic.

Definition audit_make_NoIntro_Parents_dic (nointro_dic : gmap string rom_logiqx)
    : gmap string string :=
  foldl parents_step ∅ (map_to_list nointro_dic).

(** A catalogue as the loaders build it: keyed by the non-empty record name. *)
Definition valid_catalog (cat : gmap string rom_logiqx) : Prop :=
  forall n m, cat !! n = Some m -> n <> "" /\ rom_name m = n.


(** What the dictionary holds after the loop has consumed [done]. *)
Record pclone_inv (done : list (string * rom_logiqx))
    (dic : gmap string (list string)) : Prop := {
  inv_keys : forall k, is_Some (dic !! k) <->
    (exists m, (k, m) ∈ done /\ rom_cloneof m = "") \/
    (exists n m, (n, m) ∈ done /\ rom_cloneof m = k /\ k <> "");
  inv_clones : forall k l n, dic !! k = Some l ->
    (n ∈ l <-> exists m, (n, m) ∈ done /\ rom_cloneof m = k /\ k <> "");
  inv_nodup : forall k l, dic !! k = Some l -> NoDup l
}.

(** A two-record catalogue: a parent and one clone of it. *)
Definition rom_A : rom_logiqx :=
  {| rom_name := "A"; rom_cloneof := ""; rom_year := ""; rom_manufacturer := "" |}.
Definition rom_B : rom_logiqx :=
  {| rom_name := "B"; rom_cloneof := "A"; rom_year := ""; rom_manufacturer := "" |}.
Definition catalog_AB : gmap string rom_logiqx :=
  <["A" := rom_A]> (<["B" := rom_B]> ∅).

(** ** [resources/rom_audit.py]: catalogue loaders *)

(** An [xml.etree.ElementTree] element. *)
#[local] Unset Elimination Schemes.
Inductive Element : Type :=
  | mk_Element (tag : string) (attrib : gmap string string)
               (text : option string) (children : list Element).
#[local] Set Elimination Schemes.

Definition tag (e : Element) : string := let 'mk_Element t _ _ _ := e in t.
Definition attrib (e : Element) : gmap string string :=
  let 'mk_Element _ a _ _ := e in a.
Definition text (e : Element) : option string := let 'mk_Element _ _ x _ := e in x.
Definition children (e : Element) : list Element :=
  let 'mk_Element _ _ _ c := e in c.

(** The file argument of an XML loader, an object of a class derived from
    [FileNameBase], as far as the loader looks at it: what [exists()] and
    [readXml()] answer. *)
Record xml_file : Type := mk_xml_file {
  xf_exists : bool;
  xf_readXml : result Element
}.

(** The objects a module-level name may be bound to. *)
Inductive pyobj : Type :=
  | PyElementTree (root : Element)
  | PyObject.

(** The module-level names visible in [rom_audit.py], other than its own
    functions and those of [utils.py]. *)
Definition module_globals : Type := gmap string pyobj.

(** Neither [rom_audit.py] nor [utils.py] binds [xml_tree], [xml_file] or
    [filename] at module level. *)
Definition rom_audit_globals : module_globals := ∅.

(** Evaluating a global name. *)
Definition global_name (globals : module_globals) (name : string) : result pyobj :=
  match globals !! name with
  | Some obj => Ok obj
  | None => Raise NameError
  end.

(** [obj.getroot()]. *)
Definition getroot (obj : pyobj) : result Element :=
  match obj with
  | PyElementTree root => Ok root
  | PyObject => Raise AttributeError
  end.

Definition set_rom_name (name : string) (rom : rom_logiqx) : rom_logiqx :=
  {| rom_name := name; rom_cloneof := rom_cloneof rom;
     rom_year := rom_year rom; rom_manufacturer := rom_manufacturer rom |}.

Definition set_rom_cloneof (cloneof : string) (rom : rom_logiqx) : rom_logiqx :=
  {| rom_name := rom_name rom; rom_cloneof := cloneof;
     rom_year := rom_year rom; rom_manufacturer := rom_manufacturer rom |}.

(** The loop of [audit_load_NoIntro_XML_file] over the children of the
    root. [root_element.attrib['name']] raises [KeyError] when the
    attribute is missing. *)
Fixpoint NoIntro_loop (elements : list Element)
    (nointro_roms : gmap string rom_logiqx) : result (gmap string rom_logiqx) :=
  match elements with
  | [] => Ok nointro_roms
  | root_element :: rest =>
      if bool_decide (tag root_element = "game") then
        match attrib root_element !! "name" with
        | None => Raise KeyError
        | Some rom_name =>
            let nointro_rom := set_rom_name rom_name audit_new_rom_logiqx in
            let nointro_rom :=
              match attrib root_element !! "cloneof" with
              | Some cloneof => set_rom_cloneof cloneof nointro_rom
              | None => nointro_rom
              end in
            NoIntro_loop rest (<[rom_name := nointro_rom]> nointro_roms)
        end
      else NoIntro_loop rest nointro_roms
  end.

(** [audit_load_NoIntro_XML_file(xml_FN)]. After [readXml()] has returned
    the root, the function rebinds [xml_root] to [xml_tree.getroot()],
    where [xml_tree] is not a local name. *)
Definition audit_load_NoIntro_XML_file (globals : module_globals)
    (xml_FN : xml_file) : result (gmap string rom_logiqx) :=
  let nointro_roms : gmap string rom_logiqx := ∅ in
  if negb (xf_exists xml_FN) then Ok nointro_roms
  else
    match xf_readXml xml_FN with
    | Raise ParseError => Ok nointro_roms
    | Raise IOError => Ok nointro_roms
    | Raise e => Raise e
    | Ok xml_root =>
        xml_tree ← global_name globals "xml_tree";
        xml_root ← getroot xml_tree;
        NoIntro_loop (children xml_root) nointro_roms
    end.

(** The record templates of the LaunchBox loader. *)
Definition new_dict (keys : list string) : gmap string string :=
  list_to_map (map (fun k => (k, EmptyString)) keys).

Definition audit_new_LB_game : gmap string string :=
  new_dict ["Name"; "ReleaseYear"; "Overview"; "MaxPlayers"; "Cooperative";
            "VideoURL"; "DatabaseID"; "CommunityRating"; "Platform"; "Genres";
            "Publisher"; "Developer"; "ReleaseDate"; "ESRB"; "WikipediaURL";
            "DOS"; "StartupFile"; "StartupMD5"; "SetupFile"; "SetupMD5";
            "StartupParameters"].

Definition audit_new_LB_platform : gmap string string :=
  new_dict ["Name"; "Emulated"; "ReleaseDate"; "Developer"; "Manufacturer";
            "Cpu"; "Memory"; "Graphics"; "Sound"; "Display"; "Media";
            "MaxControllers"; "Notes"; "Category"; "UseMameFiles"].

Definition audit_new_LB_gameImage : gmap string string :=
  new_dict ["DatabaseID"; "FileName"; "Type"; "CRC32"; "Region"].

(** The three dictionaries [audit_load_LB_metadata_XML] fills in. *)
Record LB_dics : Type := mk_LB_dics {
  games_dic : gmap string (gmap string string);
  platforms_dic : gmap string (gmap string string);
  gameimages_dic : gmap string (gmap string string)
}.

(** The inner loop over the children of a record element: the record
    filled in, or [None] when a child tag is not a key of the record and
    the function returns. *)
Fixpoint LB_read_children (xml_children : list Element)
    (record : gmap string string) : option (gmap string string) :=
  match xml_children with
  | [] => Some record
  | xml_child :: rest =>
      let xml_tag := tag xml_child in
      let xml_text := default EmptyString (text xml_child) in
      match record !! xml_tag with
      | None => None
      | Some _ => LB_read_children rest (<[xml_tag := text_unescape_XML xml_text]> record)
      end
  end.

(** [d[key]]. *)
Definition getitem (d : gmap string string) (key : string) : result string :=
  match d !! key with
  | Some v => Ok v
  | None => Raise KeyError
  end.

(** How one iteration of the outer loop ends: the loop goes on, or the
    function returns. *)
Inductive loop_exit : Type :=
  | Continue (dics : LB_dics)
  | Return (dics : LB_dics).

(** One iteration of the outer loop of [audit_load_LB_metadata_XML]. *)
Definition LB_element (xml_element : Element) (dics : LB_dics) : result loop_exit :=
  if bool_decide (tag xml_element = "Game") then
    match LB_read_children (children xml_element) audit_new_LB_game with
    | None => Ok (Return dics)
    | Some game =>
        name ← getitem game "Name";
        mret (Continue {| games_dic := <[name := game]> (games_dic dics);
                          platforms_dic := platforms_dic dics;
                          gameimages_dic := gameimages_dic dics |})
    end
  else if bool_decide (tag xml_element = "Platform") then
    match LB_read_children (children xml_element) audit_new_LB_platform with
    | None => Ok (Return dics)
    | Some platform =>
        name ← getitem platform "Name";
        mret (Continue {| games_dic := games_dic dics;
                          platforms_dic := <[name := platform]> (platforms_dic dics);
                          gameimages_dic := gameimages_dic dics |})
    end
  else if bool_decide (tag xml_element = "PlatformAlternateName") then Ok (Continue dics)
  else if bool_decide (tag xml_element = "Emulator") then Ok (Continue dics)
  else if bool_decide (tag xml_element = "EmulatorPlatform") then Ok (Continue dics)
  else if bool_decide (tag xml_element = "GameAlternateName") then Ok (Continue dics)
  else if bool_decide (tag xml_element = "GameImage") then
    match LB_read_children (children xml_element) audit_new_LB_gameImage with
    | None => Ok (Return dics)
    | Some game_image =>
        name ← getitem game_image "FileName";
        mret (Continue {| games_dic := games_dic dics;
                          platforms_dic := platforms_dic dics;
                          gameimages_dic := <[name := game_image]> (gameimages_dic dics) |})
    end
  else Ok (Return dics).

(** The outer loop: the dictionaries when the function returns. *)
Fixpoint LB_loop (elements : list Element) (dics : LB_dics) : result LB_dics :=
  match elements with
  | [] => Ok dics
  | xml_element :: rest =>
      exit ← LB_element xml_element dics;
      match exit with
      | Continue dics' => LB_loop rest dics'
      | Return dics' => Ok dics'
      end
  end.

(** [audit_load_LB_metadata_XML(filename_FN, games_dic, platforms_dic,
    gameimages_dic)]: the three dictionaries after the call. When the file
    does not exist the error message evaluates the name [xml_file], which
    is not a local name. *)
Definition audit_load_LB_metadata_XML (globals : module_globals)
    (filename_FN : xml_file) (dics : LB_dics) : result LB_dics :=
  if negb (xf_exists filename_FN) then
    _ ← global_name globals "xml_file"; mret dics
  else
    match xf_readXml filename_FN with
    | Raise ParseError => Ok dics
    | Raise e => Raise e
    | Ok xml_root => LB_loop (children xml_root) dics
    end.

(** [audit_new_rom_GameDB()]. *)
Definition audit_new_rom_GameDB : gmap string string :=
  new_dict ["name"; "description"; "year"; "rating"; "manufacturer"; "genre";
            "player"; "story"].

(** [[^\]]*] at the start of [s], greedy, and what follows. *)
Fixpoint span_not_close (s : string) : string * string :=
  match s with
  | EmptyString => (EmptyString, EmptyString)
  | String c s' =>
      if Ascii.eqb c "]" then (EmptyString, s)
      else let '(run, after) := span_not_close s' in (String c run, after)
  end.

(** [\[([^\]]+)\]] at the start of [s]: group 1 of the match. *)
Definition match_section (s : string) : option string :=
  match s with
  | String c rest =>
      if Ascii.eqb c "[" then
        match span_not_close rest with
        | (String n name, String _ _) => Some (String n name)
        | _ => None
        end
      else None
  | EmptyString => None
  end.

(** [re.search(r'\[([^\]]+)\]', s)]: group 1 of the leftmost match. *)
Fixpoint search_section (s : string) : option string :=
  match s with
  | EmptyString => None
  | String _ s' =>
      match match_section s with
      | Some name => Some name
      | None => search_section s'
      end
  end.

(** [s.decode(errors = 'replace')] with the default ASCII codec: a byte
    above 127 becomes U+FFFD, which the character 255 stands for. *)
Fixpoint decode_replace (s : string) : string :=
  match s with
  | EmptyString => EmptyString
  | String c s' =>
      String (if (nat_of_ascii c <? 128)%nat then c else ascii_of_nat 255)
             (decode_replace s')
  end.

(** The state of the loop of [audit_load_Tempest_INI]: [read_status] 0
    with the games closed so far, or [read_status] 1 with, in addition,
    the key and the record of the open section. *)
Inductive Tempest_state : Type :=
  | Seeking (games : gmap string (gmap string string))
  | Reading (games : gmap string (gmap string string))
            (game_key : string) (game : gmap string string).

Definition games_of (st : Tempest_state) : gmap string (gmap string string) :=
  match st with
  | Seeking games => games
  | Reading games _ _ => games
  end.

(** The [if]/[elif] chain on [field_name]. *)
Definition Tempest_field (field_name field_value : string)
    (game : gmap string string) : result (gmap string string) :=
  if bool_decide (field_name = "Publisher") then Ok (<["manufacturer" := field_value]> game)
  else if bool_decide (field_name = "Developer") then Ok (<["dev" := field_value]> game)
  else if bool_decide (field_name = "Released") then Ok (<["year" := field_value]> game)
  else if bool_decide (field_name = "Systems") then Ok game
  else if bool_decide (field_name = "Genre") then Ok (<["genre" := field_value]> game)
  else if bool_decide (field_name = "Perspective") then Ok game
  else if bool_decide (field_name = "Score") then Ok (<["score" := field_value]> game)
  else if bool_decide (field_name = "Controls") then Ok game
  else if bool_decide (field_name = "Players") then Ok (<["player" := field_value]> game)
  else if bool_decide (field_name = "Esrb") then Ok (<["rating" := field_value]> game)
  else if bool_decide (field_name = "Url") then Ok game
  else if bool_decide (field_name = "Description") then Ok (<["story" := field_value]> game)
  else if bool_decide (field_name = "Goodname") then Ok game
  else if bool_decide (field_name = "NoIntro") then Ok game
  else if bool_decide (field_name = "Tosec") then Ok game
  else Raise NameError.

(** One iteration of the loop, on the line as read from the file. *)
Definition Tempest_line (st : Tempest_state) (file_line : string)
    : result Tempest_state :=
  let stripped_line := decode_replace (strip is_space_bytes file_line) in
  match st with
  | Seeking games =>
      match search_section stripped_line with
      | Some name => Ok (Reading games name (<["name" := name]> audit_new_rom_GameDB))
      | None => Ok (Seeking games)
      end
  | Reading games game_key game =>
      let line_list := split "=" stripped_line in
      if bool_decide (length line_list = 1%nat) then
        Ok (Seeking (<[game_key := game]> games))
      else
        let field_name := nth 0 line_list EmptyString in
        let field_value := nth 1 line_list EmptyString in
        game' ← Tempest_field field_name field_value game;
        mret (Reading games game_key game')
  end.

(** The loop over the lines of the file. *)
Fixpoint Tempest_loop (file_lines : list string) (st : Tempest_state)
    : result Tempest_state :=
  match file_lines with
  | [] => Ok st
  | file_line :: rest => st' ← Tempest_line st file_line; Tempest_loop rest st'
  end.

(** A [FileName] argument of the INI loader: what [exists()] answers, and
    the lines [open(path, 'rt')] gives, or the exception it raises. *)
Record ini_file : Type := mk_ini_file {
  ini_exists : bool;
  ini_open : result (list string)
}.

(** [audit_load_Tempest_INI(file_FN)]. The handler of [IOError] evaluates
    the name [filename], which is not a local name. *)
Definition audit_load_Tempest_INI (globals : module_globals)
    (file_FN : ini_file) : result (gmap string (gmap string string)) :=
  let games : gmap string (gmap string string) := ∅ in
  if negb (ini_exists file_FN) then Ok games
  else
    match ini_open file_FN with
    | Raise IOError => _ ← global_name globals "filename"; mret ∅
    | Raise e => Raise e
    | Ok file_lines => st ← Tempest_loop file_lines (Seeking games); mret (games_of st)
    end.

(** ** [resources/rom_audit.py]: the BIOS table *)

Record BIOS_entry : Type := mk_BIOS {
  bios_filename : string;
  bios_size : Z;
  bios_md5 : string;
  bios_mandatory : bool;
  bios_cores : list string
}.

Definition Libretro_BIOS_list : list BIOS_entry :=
  mk_BIOS "5200.rom" 2048 "281f20ea4320404ec820fb7ec0693b38" true ["atari800"] ::
  mk_BIOS "7800 BIOS (E).rom" 16384 "397bb566584be7b9764e7a68974c4263" true ["prosystem"] ::
  mk_BIOS "7800 BIOS (U).rom" 4096 "0763f1ffb006ddbe32e52d497ee848ae" true ["prosystem"] ::
  mk_BIOS "lynxboot.img" 512 "fcd403db69f54290b51035d82f835e7b" true ["mednafen_lynx"; "handy"] ::
  mk_BIOS "o2rom.bin" 1024 "562d5ebf9e030a40d6fabfc2f33139fd" true ["o2em"] ::
  mk_BIOS "MSX.ROM" 32768 "aa95aea2563cd5ec0a0919b44cc17d47" true ["fmsx"] ::
  mk_BIOS "MSX2.ROM" 32768 "ec3a01c91f24fbddcbcab0ad301bc9ef" true ["fmsx"] ::
  mk_BIOS "MSX2EXT.ROM" 16384 "2183c2aff17cf4297bdb496de78c2e8a" true ["fmsx"] ::
  mk_BIOS "MSX2P.ROM" 32768 "6d8c0ca64e726c82a4b726e9b01cdf1e" true ["fmsx"] ::
  mk_BIOS "MSX2PEXT.ROM" 16384 "7c8243c71d8f143b2531f01afa6a05dc" true ["fmsx"] ::
  mk_BIOS "syscard3.pce" 262144 "38179df8f4ac870017db21ebcbf53114" true ["mednafen_pce_fast"; "mednafen_supergrafx"] ::
  mk_BIOS "gecard.pce" 32768 "6d2cb14fc3e1f65ceb135633d1694122" true [] ::
  mk_BIOS "pcfx.rom" 1048576 "08e36edbea28a017f79f8d4f7ff9b6d7" true ["mednafen_pcfx"] ::
  mk_BIOS "fx-scsi.rom" 524288 "430e9745f9235c515bc8e652d6ca3004" true [] ::
  mk_BIOS "pcfxbios.bin" 1048576 "08e36edbea28a017f79f8d4f7ff9b6d7" true [] ::
  mk_BIOS "pcfxv101.bin" 1048576 "e2fb7c7220e3a7838c2dd7e401a7f3d8" true [] ::
  mk_BIOS "pcfxga.rom" 1048576 "5885bc9a64bf80d4530b9b9b978ff587" true [] ::
  mk_BIOS "disksys.rom" 8192 "ca30b50f880eb660a320674ed365ef7a" true ["fceumm"; "nestopia"] ::
  mk_BIOS "gc-ntsc-10.bin" 2097152 "fc924a7c879b661abc37cec4f018fdf3" true [] ::
  mk_BIOS "gc-pal-10.bin" 2097152 "0cdda509e2da83c85bfe423dd87346cc" true [] ::
  mk_BIOS "gc-pal-12.bin" 2097152 "db92574caab77a7ec99d4605fd6f2450" true [] ::
  mk_BIOS "gc-dvd-20010608.bin" 131072 "561532ad496f644897952d2cef5bb431" true [] ::
  mk_BIOS "gc-dvd-20010831.bin" 131072 "b953eb1a8fc9922b3f7051c1cdc451f1" true [] ::
  mk_BIOS "gc-dvd-20020402.bin" 131072 "413154dd0e2c824c9b18b807fd03ec4e" true [] ::
  mk_BIOS "gc-dvd-20020823.bin" 131072 "c03f6bbaf644eb9b3ee261dbe199eb42" true [] ::
  mk_BIOS "64DD_IPL.bin" 4194304 "8d3d9f294b6e174bc7b1d2fd1c727530" true ["parallel"] ::
  mk_BIOS "bios7.bin" 16384 "df692a80a5b1bc90728bc3dfc76cd948" true [] ::
  mk_BIOS "bios9.bin" 4096 "a392174eb3e572fed6447e956bde4b25" true [] ::
  mk_BIOS "firmware.bin" 262144 "e45033d9b0fa6b0de071292bba7c9d13" true [] ::
  mk_BIOS "bios.min" 4096 "1e4fb124a3a886865acb574f388c803d" true ["pokemini"] ::
  mk_BIOS "c52.bin" 1024 "f1071cdb0b6b10dde94d3bc8a6146387" true [] ::
  mk_BIOS "g7400.bin" 1024 "c500ff71236068e0dc0d0603d265ae76" true [] ::
  mk_BIOS "jopac.bin" 1024 "279008e4a0db2dc5f1c048853b033828" true [] ::
  mk_BIOS "dc/dc_boot.bin" 2097152 "e10c53c2f8b90bab96ead2d368858623" true ["reicast"; "redream"] ::
  mk_BIOS "dc/dc_flash.bin" 131072 "0a93f7940c455905bea6e392dfde92a4" true ["reicast"; "redream"] ::
  mk_BIOS "areplay.bin" 32768 "a0028b3043f9d59ceeb03da5b073b30d" false ["genesis_plus_gx"] ::
  mk_BIOS "bios.gg" 1024 "672e104c3be3a238301aceffc3b23fd6" false ["genesis_plus_gx"] ::
  mk_BIOS "bios_CD_E.bin" 131072 "e66fa1dc5820d254611fdcdba0662372" true ["genesis_plus_gx"; "picodrive"] ::
  mk_BIOS "bios_CD_U.bin" 131072 "2efd74e3232ff260e371b99f84024f7f" true ["genesis_plus_gx"; "picodrive"] ::
  mk_BIOS "bios_CD_J.bin" 131072 "278a9397d192149e84e820ac621a8edd" true ["genesis_plus_gx"; "picodrive"] ::
  mk_BIOS "bios_E.sms" 8192 "840481177270d5642a14ca71ee72844c" false ["genesis_plus_gx"] ::
  mk_BIOS "bios_J.sms" 8192 "24a519c53f67b00640d0048ef7089105" false ["genesis_plus_gx"] ::
  mk_BIOS "bios_U.sms" 8192 "840481177270d5642a14ca71ee72844c" false ["genesis_plus_gx"] ::
  mk_BIOS "ggenie.bin" 32768 "b5d5ff1147036b06944b4d2cac2dd1e1" false ["genesis_plus_gx"] ::
  mk_BIOS "sk.bin" 2097152 "4ea493ea4e9f6c9ebfccbdb15110367e" false ["genesis_plus_gx"] ::
  mk_BIOS "sk2chip.bin" 262144 "b4e76e416b887f4e7413ba76fa735f16" false [] ::
  mk_BIOS "mpr-17933.bin" 524288 "3240872c70984b6cbfda1586cab68dbe" true ["mednafen_saturn"] ::
  mk_BIOS "mpr-18811-mx.ic1" 2097152 "255113ba943c92a54facd25a10fd780c" true ["mednafen_saturn"] ::
  mk_BIOS "mpr-19367-mx.ic1" 2097152 "1cd19988d1d72a3e7caa0b73234c96b4" true ["mednafen_saturn"] ::
  mk_BIOS "sega_101.bin" 524288 "85ec9ca47d8f6807718151cbcca8b964" true ["mednafen_saturn"] ::
  mk_BIOS "saturn_bios.bin" 524288 "af5828fdff51384f99b3c4926be27762" false [] ::
  mk_BIOS "cgrom.dat" 786432 "cb0a5cfcf7247a7eab74bb2716260269" true [] ::
  mk_BIOS "iplrom.dat" 131072 "7fd4caabac1d9169e289f0f7bbf71d8e" true [] ::
  mk_BIOS "scph5500.bin" 524288 "8dd7d5296a650fac7319bce665a6a53c" true ["mednafen_psx"; "mednafen_psx_hw"; "pcsx_rearmed"] ::
  mk_BIOS "scph5501.bin" 524288 "490f666e1afb15b7362b406ed1cea246" true ["mednafen_psx"; "mednafen_psx_hw"; "pcsx_rearmed"] ::
  mk_BIOS "scph5502.bin" 524288 "32736f17079d0b2b7024407c39bd3050" true ["mednafen_psx"; "mednafen_psx_hw"; "pcsx_rearmed"] ::
  mk_BIOS "ppge_atlas.zim" 784968 "a93fc411c1ce7d001a2a812643c70085" true ["ppsspp"; "psp1"] ::
  mk_BIOS "goldstar.bin" 1048576 "8639fd5e549bd6238cfee79e3e749114" true [] ::
  mk_BIOS "panafz1.bin" 1048576 "f47264dd47fe30f73ab3c010015c155b" true [] ::
  mk_BIOS "panafz10.bin" 1048576 "51f2f43ae2f3508a14d9f56597e2d3ce" true [] ::
  mk_BIOS "sanyotry.bin" 1048576 "35fa1a1ebaaeea286dc5cd15487c13ea" true [] ::
  [].

(** A file of a directory listing, with the size and the MD5 digest
    measured for it. *)
Record listed_file : Type := mk_listed_file {
  lf_filename : string;
  lf_size : Z;
  lf_md5 : string
}.

(** Modelled from the spec: the BIOS audit that reads [Libretro_BIOS_list]
    is not among the sources; the specification gives it as "select all
    static BiosEntry rows whose core set contains core_id; for each, check
    the listing for a matching filename/size/MD5". *)
Definition bios_matches (entry : BIOS_entry) (f : listed_file) : bool :=
  bool_decide (lf_filename f = bios_filename entry)
  && bool_decide (lf_size f = bios_size entry)
  && bool_decide (lf_md5 f = bios_md5 entry).

(** Modelled from the spec: the second half of the audit, the flag of one
    selected entry. *)
Definition bios_satisfied (listing : list listed_file) (entry : BIOS_entry) : bool :=
  existsb (bios_matches entry) listing.

(** Modelled from the spec: [audit(directory_listing, core_id)], a list of
    (BiosEntry, satisfied) pairs. *)
Definition audit (listing : list listed_file) (core_id : string)
    : list (BIOS_entry * bool) :=
  map (fun entry => (entry, bios_satisfied listing entry))
      (filter (fun entry => core_id ∈ bios_cores entry) Libretro_BIOS_list).

(** ** Sample inputs *)

(** [<datafile><game name="A"/></datafile>], in an existing file. *)
Definition game_A_element : Element := mk_Element "game" {["name" := "A"]} None [].

Definition file_one_game : xml_file :=
  {| xf_exists := true;
     xf_readXml := Ok (mk_Element "datafile" ∅ None [game_A_element]) |}.

(** The record the No-Intro loop stores for a [<game>] element. *)
Definition NoIntro_record (e : Element) : rom_logiqx :=
  {| rom_name := default EmptyString (attrib e !! "name");
     rom_cloneof := default EmptyString (attrib e !! "cloneof");
     rom_year := EmptyString; rom_manufacturer := EmptyString |}.

(** The row of the BIOS table for [scph5500.bin]. *)
Definition scph5500 : BIOS_entry :=
  mk_BIOS "scph5500.bin" 524288 "8dd7d5296a650fac7319bce665a6a53c" true
          ["mednafen_psx"; "mednafen_psx_hw"; "pcsx_rearmed"].

(** A record element one of whose children carries a tag that is not a key
    of the record template. *)
Definition unknown_child (template : gmap string string) (e : Element) : Prop :=
  exists c, c ∈ children e /\ template !! tag c = None.

Definition offending (e : Element) : Prop :=
  (tag e = "Game" /\ unknown_child audit_new_LB_game e) \/
  (tag e = "Platform" /\ unknown_child audit_new_LB_platform e) \/
  (tag e = "GameImage" /\ unknown_child audit_new_LB_gameImage e).

Definition LB_empty : LB_dics :=
  {| games_dic := ∅; platforms_dic := ∅; gameimages_dic := ∅ |}.

Definition leaf (t x : string) : Element := mk_Element t ∅ (Some x) [].

(** A LaunchBox file with a good game, a game with an unknown child, and a
    platform after it. *)
Definition LB_good_game : Element := mk_Element "Game" ∅ None [leaf "Name" "Doom"].
Definition LB_bad_game : Element :=
  mk_Element "Game" ∅ None [leaf "Name" "Quake"; leaf "Colour" "brown"].
Definition LB_platform : Element := mk_Element "Platform" ∅ None [leaf "Name" "DOS"].

Definition LB_sample_file : xml_file :=
  {| xf_exists := true;
     xf_readXml := Ok (mk_Element "LaunchBox" ∅ None
                         [LB_good_game; LB_bad_game; LB_platform]) |}.

(** The field names the [if]/[elif] chain of the INI loader knows. *)
Definition Tempest_fields : list string :=
  ["Publisher"; "Developer"; "Released"; "Systems"; "Genre"; "Perspective";
   "Score"; "Controls"; "Players"; "Esrb"; "Url"; "Description"; "Goodname";
   "NoIntro"; "Tosec"].

(** A line as the loop looks at it. *)
Definition stripped (file_line : string) : string :=
  decode_replace (strip is_space_bytes file_line).

(** A line that holds an equals sign, and so is read as a field when a
    section is open; its field name is the text before the first equals
    sign. *)
Definition is_assignment (file_line : string) : Prop :=
  length (split "=" (stripped file_line)) <> 1%nat.

Definition field_name_of (file_line : string) : string :=
  nth 0 (split "=" (stripped file_line)) EmptyString.

(** Sample INI files, by their lines. *)
Definition line (s : string) : string := s +:+ String LF EmptyString.

Definition ini_of_lines (file_lines : list string) : ini_file :=
  {| ini_exists := true; ini_open := Ok file_lines |}.

Definition ini_unknown_field : list string :=
  [line "[Alpha]"; line "Publisher=Acme"; line "Colour=brown"; line ""; line "[Beta]"].

Definition ini_open_section : list string :=
  [line "[Alpha]"; line "Publisher=Acme"].

(** The other two rows of the table that name the core [mednafen_psx]. *)
Definition scph5501 : BIOS_entry :=
  mk_BIOS "scph5501.bin" 524288 "490f666e1afb15b7362b406ed1cea246" true
          ["mednafen_psx"; "mednafen_psx_hw"; "pcsx_rearmed"].
Definition scph5502 : BIOS_entry :=
  mk_BIOS "scph5502.bin" 524288 "32736f17079d0b2b7024407c39bd3050" true
          ["mednafen_psx"; "mednafen_psx_hw"; "pcsx_rearmed"].

(** Two directory listings: one with a good copy of [scph5500.bin], one
    with a file of that name and size whose digest differs. *)
Definition listing_with_scph5500 : list listed_file :=
  [mk_listed_file "readme.txt" 120 "d41d8cd98f00b204e9800998ecf8427e";
   mk_listed_file "scph5500.bin" 524288 "8dd7d5296a650fac7319bce665a6a53c"].

Definition listing_without_scph5500 : list listed_file :=
  [mk_listed_file "readme.txt" 120 "d41d8cd98f00b204e9800998ecf8427e";
   mk_listed_file "scph5500.bin" 524288 "490f666e1afb15b7362b406ed1cea246"].

End RomAudit.

(** ** Further definitions for the text helpers *)

Module TextProps.
Import Py Utils.

(** The characters [text_escape_XML] replaces, the ampersand apart. *)
Definition is_raw_xml_char (c : ascii) : bool :=
  Ascii.eqb c ">" || Ascii.eqb c "<" || Ascii.eqb c "'"
  || Ascii.eqb c (ascii_of_nat 34) || Ascii.eqb c LF || Ascii.eqb c CR
  || Ascii.eqb c TAB.

(** A text that is empty or starts with a character outside [sp]. *)
Definition head_kept (sp : ascii -> bool) (s : string) : Prop :=
  match s with
  | EmptyString => True
  | String c _ => sp c = false
  end.

(** A token that one of the two disc patterns matches. *)
Definition is_disc_token (token : string) : Prop :=
  is_Some (match_redump token) \/ is_Some (match_tosec token).

(** The record [text_get_multidisc_info] returns when no token is a disc
    token: the fields as the constructor sets them. *)
Definition single_disc_info (ROM_FN : FileName) : MultiDiscInfo :=
  {| ROM_FN := ROM_FN; isMultiDisc := false; setName := EmptyString;
     discName := getBase ROM_FN; extension := getExt ROM_FN; order := 0 |}.

End TextProps.

(** ** [resources/rom_audit.py]: the other loaders *)

Module RomAuditMore.
Import Py Utils RomAudit.

(** [audit_new_rom_logiqx()] as the dictionary it is; the offline scraper
    loader adds keys to it. *)
Definition audit_new_rom_logiqx_dict : gmap string string :=
  new_dict ["name"; "cloneof"; "year"; "manufacturer"].

(** [audit_new_rom_HyperList()]. *)
Definition audit_new_rom_HyperList : gmap string string :=
  new_dict ["name"; "description"; "cloneof"; "crc"; "manufacturer"; "year";
            "genre"; "rating"; "enabled"].

(** The loop over the children of a [<game>] element, the same in
    [audit_load_OfflineScraper_XML], [audit_load_GameDB_XML] and
    [audit_load_HyperList_XML]: every child sets the key of its tag. *)
Fixpoint game_children (xml_children : list Element)
    (game : gmap string string) : gmap string string :=
  match xml_children with
  | [] => game
  | game_child :: rest =>
      let xml_text := default EmptyString (text game_child) in
      let xml_text := text_unescape_XML xml_text in
      let xml_tag := tag game_child in
      game_children rest (<[xml_tag := xml_text]> game)
  end.

(** The loop over the children of the root, the same in the three loaders
    but for the record template. *)
Fixpoint games_loop (template : gmap string string) (elements : list Element)
    (games : gmap string (gmap string string))
    : result (gmap string (gmap string string)) :=
  match elements with
  | [] => Ok games
  | game_element :: rest =>
      if bool_decide (tag game_element = "game") then
        name ← getitem (attrib game_element) "name";
        let game := <["name" := name]> template in
        let game := game_children (children game_element) game in
        key ← getitem game "name";
        games_loop template rest (<[key := game]> games)
      else games_loop template rest games
  end.

(** [audit_load_OfflineScraper_XML(xml_file)]. *)
Definition audit_load_OfflineScraper_XML (xml_file : xml_file)
    : result (gmap string (gmap string string)) :=
  if negb (xf_exists xml_file) then Ok ∅
  else
    match xf_readXml xml_file with
    | Raise ParseError => Ok ∅
    | Raise e => Raise e
    | Ok xml_root => games_loop audit_new_rom_logiqx_dict (children xml_root) ∅
    end.

(** [audit_load_GameDB_XML(xml_FN)]; like the No-Intro loader it rebinds
    [xml_root] to [xml_tree.getroot()]. *)
Definition audit_load_GameDB_XML (globals : module_globals) (xml_FN : xml_file)
    : result (gmap string (gmap string string)) :=
  if negb (xf_exists xml_FN) then Ok ∅
  else
    match xf_readXml xml_FN with
    | Raise ParseError => Ok ∅
    | Raise e => Raise e
    | Ok xml_root =>
        xml_tree ← global_name globals "xml_tree";
        xml_root ← getroot xml_tree;
        games_loop audit_new_rom_GameDB (children xml_root) ∅
    end.

(** [audit_load_HyperList_XML(xml_FN)]. *)
Definition audit_load_HyperList_XML (xml_FN : xml_file)
    : result (gmap string (gmap string string)) :=
  if negb (xf_exists xml_FN) then Ok ∅
  else
    match xf_readXml xml_FN with
    | Raise ParseError => Ok ∅
    | Raise IOError => Ok ∅
    | Raise e => Raise e
    | Ok xml_root => games_loop audit_new_rom_HyperList (children xml_root) ∅
    end.

(** ** Predicates of the statements *)

(** Every record of a catalogue is stored under the value of its own
    [field]. *)
Definition keyed_by (field : string) (games : gmap string (gmap string string)) : Prop :=
  forall k game, games !! k = Some game -> game !! field = Some k.

(** Every record of a catalogue has exactly the keys of [template]. *)
Definition shaped_like (template : gmap string string)
    (games : gmap string (gmap string string)) : Prop :=
  forall k game, games !! k = Some game -> dom game = dom template.

(** Every record of a catalogue has at least the keys of [template]. *)
Definition extends_template (template : gmap string string)
    (games : gmap string (gmap string string)) : Prop :=
  forall k game, games !! k = Some game -> dom template ⊆ dom game.

(** The dictionaries of the LaunchBox loader, each keyed as the loader keys
    it and holding records of its template. *)
Definition LB_well_formed (dics : LB_dics) : Prop :=
  keyed_by "Name" (games_dic dics) /\ shaped_like audit_new_LB_game (games_dic dics) /\
  keyed_by "Name" (platforms_dic dics) /\
  shaped_like audit_new_LB_platform (platforms_dic dics) /\
  keyed_by "FileName" (gameimages_dic dics) /\
  shaped_like audit_new_LB_gameImage (gameimages_dic dics).

(** The root tags the LaunchBox loader knows, and those among them it
    passes over. *)
Definition LB_ignored_tags : list string :=
  ["PlatformAlternateName"; "Emulator"; "EmulatorPlatform"; "GameAlternateName"].

Definition LB_known_tags : list string :=
  ["Game"; "Platform"; "GameImage"] ++ LB_ignored_tags.

(** A [<game>] element that carries a name. *)
Definition named_game (e : Element) : Prop :=
  tag e = "game" -> is_Some (attrib e !! "name").

(** Two enumerations of the items of one catalogue. *)
Definition items_AB : list (string * rom_logiqx) := [("A", rom_A); ("B", rom_B)].
Definition items_BA : list (string * rom_logiqx) := [("B", rom_B); ("A", rom_A)].

(** The clone lists two dictionaries hold under one key, up to order. *)
Definition same_clones (d1 d2 : gmap string (list string)) (k : string) : Prop :=
  match d1 !! k, d2 !! k with
  | Some l1, Some l2 => l1 ≡ₚ l2
  | None, None => True
  | _, _ => False
  end.

(** Sample files for the statements. *)
Definition HyperList_sample : xml_file :=
  {| xf_exists := true;
     xf_readXml := Ok (mk_Element "menu" ∅ None
       [mk_Element "header" ∅ None [];
        mk_Element "game" {["name" := "Doom"]} None [leaf "year" "1993"];
        mk_Element "game" ∅ None [leaf "year" "1996"];
        mk_Element "game" {["name" := "Quake"]} None []]) |}.

Definition LB_unknown_root_file : xml_file :=
  {| xf_exists := true;
     xf_readXml := Ok (mk_Element "LaunchBox" ∅ None
                         [LB_good_game; mk_Element "Mod" ∅ None []; LB_platform]) |}.

End RomAuditMore.

Module RomAuditSamples.
Import Py Utils RomAudit RomAuditMore.

(** An existing file that parses to [xml_root]. *)
Definition xml_file_of (xml_root : Element) : xml_file :=
  {| xf_exists := true; xf_readXml := Ok xml_root |}.

(** A file that does not exist. *)
Definition missing_xml_file : xml_file :=
  {| xf_exists := false; xf_readXml := Raise IOError |}.

End RomAuditSamples.

Module TempestInv.
Import Py Utils RomAudit RomAuditMore.

(** The state of the loop: the games stored so far and the open record. *)
Definition Tempest_inv (st : Tempest_state) : Prop :=
  keyed_by "name" (games_of st) /\
  extends_template audit_new_rom_GameDB (games_of st) /\
  (forall k, is_Some (games_of st !! k) -> k <> EmptyString) /\
  match st with
  | Seeking _ => True
  | Reading _ game_key game =>
      game !! "name" = Some game_key /\ game_key <> EmptyString /\
      dom audit_new_rom_GameDB ⊆ dom game
  end.

(** [k] is the name between brackets that [re.search] finds in one of the
    lines [file_lines], stripped and decoded as the loop does. *)
Definition section_of (file_lines : list string) (k : string) : Prop :=
  exists file_line, file_line ∈ file_lines /\ search_section (stripped file_line) = Some k.

(** Every key of the games stored so far, and the key of the open record,
    is the section name of one of the lines read so far. *)
Definition Tempest_keys_inv (seen : list string) (st : Tempest_state) : Prop :=
  (forall k, is_Some (games_of st !! k) -> section_of seen k) /\
  match st with
  | Seeking _ => True
  | Reading _ game_key _ => section_of seen game_key
  end.

End TempestInv.

(** ** More of [utils.py]: texts of bounded width, names and versions *)

Module UtilsText.
Import Py Utils.

(** [len(s)]. *)
Definition len (s : string) : Z := Z.of_nat (String.length s).

(** [c * n] for a one-character string [c]: empty when [n] is not
    positive. *)
Definition times (c : ascii) (n : Z) : string :=
  string_of_list_ascii (repeat c (Z.to_nat n)).

(** [s[0:stop]]: a negative [stop] counts from the end. *)
Definition slice_to (stop : Z) (s : string) : string :=
  let stop := if (stop <? 0)%Z then Z.max 0 (len s + stop) else stop in
  take_chars (Z.to_nat stop) s.

(** [text_limit_string(string, max_length)]. *)
Definition text_limit_string (string : String.string) (max_length : Z)
    : String.string :=
  if (5 <? max_length)%Z && (max_length <? len string)%Z
  then slice_to (max_length - 3) string +:+ "..."
  else string.

(** [s.ljust(width)]. *)
Definition ljust (s : string) (width : Z) : string := s +:+ times " " (width - len s).

(** The widths of the columns of [print_candidate_list], and a cell of one
    of its rows: [text_limit_string(value, L).ljust(L)]. *)
Definition NAME_L : Z := 65.
Definition SCORE_L : Z := 5.
Definition ID_L : Z := 55.
Definition PLATFORM_L : Z := 15.
Definition SPLATFORM_L : Z := 15.

Definition candidate_cell (value : string) (L : Z) : string :=
  ljust (text_limit_string value L) L.

(** [string.printable]. *)
Definition string_printable : string :=
  "0123456789abcdefghijklmnopqrstuvwxyzABCDEFGHIJKLMNOPQRSTUVWXYZ!" +:+ str_quot
  +:+ "#$%&'()*+,-./:;<=>?@[\]^_`{|}~ "
  +:+ string_of_list_ascii
        [TAB; LF; CR; ascii_of_nat 11; ascii_of_nat 12].

(** [i in s] for a one-character string [i]. *)
Definition char_in (i : ascii) (s : string) : bool :=
  existsb (Ascii.eqb i) (list_ascii_of_string s).

(** [text_title_to_filename_str(title_str)]. *)
Definition text_title_to_filename_str (title_str : string) : string :=
  let cleaned_str_1 :=
    concat_map (fun i => if char_in i string_printable then String i EmptyString else "_")
               title_str in
  let cleaned_str_2 := replace " " "_" cleaned_str_1 in
  cleaned_str_2.

(** [text_str_list_size(str_list)] for a list of strings. *)
Definition text_str_list_size (str_list : list string) : Z :=
  fold_left (fun max_str_size str_item =>
               let str_size := len str_item in
               if (max_str_size <? str_size)%Z then str_size else max_str_size)
            str_list 0%Z.

(** [text_print_padded_left(str, str_max_size)] and
    [text_print_padded_right(str, str_max_size)] for a string [str], which
    ['{0}'.format] leaves as it is. *)
Definition text_print_padded_left (str : string) (str_max_size : Z) : string :=
  let formatted_str := str in
  formatted_str +:+ times " " (str_max_size - len formatted_str).

Definition text_print_padded_right (str : string) (str_max_size : Z) : string :=
  let formatted_str := str in
  times " " (str_max_size - len formatted_str) +:+ formatted_str.

(** [text_escape_JSON(s)]. *)
Definition text_escape_JSON (s : string) : string :=
  let s := replace "\" "\\" s in
  let s := replace str_quot ("\" +:+ str_quot) s in
  s.

(** What [text_escape_JSON] makes of one character. *)
Definition escape_JSON_char (c : ascii) : string :=
  text_escape_JSON (String c EmptyString).

(** Class [VersionNumber]: the object holds the list [versionNumber]. *)
Record VersionNumber : Type := mk_VersionNumber { versionNumber : list string }.

Definition VersionNumber_init (versionString : string) : VersionNumber :=
  {| versionNumber := split "." versionString |}.

Definition getFullString (self : VersionNumber) : string :=
  join "." (versionNumber self).

End UtilsText.

(** ** More of [utils.py]: extensions of paths and of URLs *)

Module UtilsPaths.
Import Py Utils.

(** [s.replace(old, new)] for any [old]: an empty [old] matches before
    every character and at the end. *)
Definition str_replace (old new s : string) : string :=
  match old with
  | EmptyString => new +:+ concat_map (fun c => String c new) s
  | _ => replace old new s
  end.

(** The character [d] does not occur in [s]. *)
Definition no_char (d : ascii) (s : string) : bool :=
  all_chars (fun c => negb (Ascii.eqb c d)) s.

(** [NewFileName.changeExtension(targetExt)]. *)
Definition changeExtension (self : FileName) (targetExt : string) : FileName :=
  let ext := getExt self in
  let copiedPath := path_str self in
  let targetExt := if String.prefix "." targetExt then targetExt else "." +:+ targetExt in
  let new_path := NewFileName (str_replace ext targetExt copiedPath) in
  new_path.

(** Outcome of a piece of code whose only exception is [IndexError]. *)
Inductive index_result (A : Type) : Type :=
  | Value (a : A)
  | IndexError.
Arguments Value {A} a.
Arguments IndexError {A}.

(** [s[0]]. *)
Definition first_char (s : string) : index_result ascii :=
  match s with
  | EmptyString => IndexError
  | String c _ => Value c
  end.

Section URLs.

(** [urlparse(url).path], a function of the standard library left
    open. *)
Variable urlparse_path : string -> string.

(** [text_get_URL_extension(url)]. *)
Definition text_get_URL_extension (url : string) : index_result string :=
  let path := urlparse_path url in
  let ext := (splitext path).2 in
  match first_char ext with
  | IndexError => IndexError
  | Value c =>
      let ext := if Ascii.eqb c "." then drop_chars 1 ext else ext in
      Value ext
  end.

(** [text_get_image_URL_extension(url)]. *)
Definition text_get_image_URL_extension (url : string) : index_result string :=
  let path := urlparse_path url in
  let ext := (splitext path).2 in
  match first_char ext with
  | IndexError => IndexError
  | Value c =>
      let ext := if Ascii.eqb c "." then drop_chars 1 ext else ext in
      let ret := if bool_decide (ext = EmptyString) then "jpg" else ext in
      Value ret
  end.

End URLs.

End UtilsPaths.

(** ** More of [utils.py]: cleaning of ROM names and of HTML *)

Module UtilsTitles.
Import Py Utils UtilsPaths.

(** [text_decode_HTML(s)]. *)
Definition text_decode_HTML (s : string) : string :=
  let s := replace "%25" "%" s in
  let s := replace "%20" " " s in
  let s := replace "%23" "#" s in
  let s := replace "%26" "&" s in
  let s := replace "%28" "(" s in
  let s := replace "%29" ")" s in
  let s := replace "%2C" "," s in
  let s := replace "%2F" "/" s in
  let s := replace "%3B" ";" s in
  let s := replace "%3A" ":" s in
  let s := replace "%3D" "=" s in
  let s := replace "%3F" "?" s in
  s.

(** [o.*?c] at the start of [s]: the text matched, if any. *)
Definition match_group0 (open close : ascii) (s : string) : option string :=
  match s with
  | String o rest =>
      if Ascii.eqb o open then String o <$> lazy_until close rest else None
  | EmptyString => None
  end.

(** [re.sub(o.*?c, '', s)]: the matches, found from left to right, are
    taken out. [skip] counts the characters of the last match that are
    still to be passed over. *)
Fixpoint sub_group_from (open close : ascii) (skip : nat) (s : string) : string :=
  match s with
  | EmptyString => EmptyString
  | String c s' =>
      match skip with
      | S k => sub_group_from open close k s'
      | O =>
          match match_group0 open close s with
          | Some tok => sub_group_from open close (String.length tok - 1) s'
          | None => String c (sub_group_from open close 0 s')
          end
      end
  end.

Definition sub_group (open close : ascii) (s : string) : string :=
  sub_group_from open close 0 s.

(** [text_remove_HTML_tags(s)]: [re.sub] of the expression [<.*?>]. *)
Definition text_remove_HTML_tags (s : string) : string :=
  let s := sub_group "<" ">" s in
  s.

(** [text_format_ROM_name_for_scraping(title)]. *)
Definition text_format_ROM_name_for_scraping (title : string) : string :=
  let title := sub_group "[" "]" title in
  let title := sub_group "(" ")" title in
  let title := sub_group "{" "}" title in
  let title := replace "_" "" title in
  let title := replace "-" "" title in
  let title := replace ":" "" title in
  let title := replace "." "" title in
  let title := strip is_space_unicode title in
  title.

(** [o.+?c\s?] at the start of [s]: the group and, when a white space
    character follows it, that character. *)
Definition match_group_space (open close : ascii) (s : string) : option string :=
  match match_group open close s with
  | Some tok =>
      match drop_chars (String.length tok) s with
      | String c _ => if is_space_bytes c then Some (tok +:+ String c EmptyString)
                      else Some tok
      | EmptyString => Some tok
      end
  | None => None
  end.

(** The regular expression of [text_format_ROM_title],
    [\[.+?\]\s?|\(.+?\)\s?|\{.+?\}|[^\[\(\{]+], at the start of [s]. *)
Definition match_title_token (s : string) : option string :=
  match match_group_space "[" "]" s with
  | Some tok => Some tok
  | None =>
    match match_group_space "(" ")" s with
    | Some tok => Some tok
    | None =>
      match match_group "{" "}" s with
      | Some tok => Some tok
      | None => match_run s
      end
    end
  end.

(** [re.findall] for a pattern given by its matches at the start of a
    string, none of them empty. *)
Fixpoint findall_with (pattern : string -> option string) (skip : nat) (s : string)
    : list string :=
  match s with
  | EmptyString => []
  | String c s' =>
      match skip with
      | S k => findall_with pattern k s'
      | O =>
          match pattern s with
          | Some tok => tok :: findall_with pattern (String.length tok - 1) s'
          | None => findall_with pattern 0 s'
          end
      end
  end.

(** The loop of [text_format_ROM_title] over the tokens. *)
Fixpoint title_loop (tokens : list string) (str_list : list string)
    : index_result (list string) :=
  match tokens with
  | [] => Value str_list
  | token :: rest =>
      let stripped_token := strip is_space_unicode token in
      match first_char stripped_token with
      | IndexError => IndexError
      | Value c =>
          if (Ascii.eqb c "[" || Ascii.eqb c "(" || Ascii.eqb c "{")
             && negb (bool_decide (stripped_token = "[BIOS]"))
          then title_loop rest str_list
          else title_loop rest (str_list ++ [stripped_token])
      end
  end.

(** [text_format_ROM_title(title, clean_tags)]. *)
Definition text_format_ROM_title (title : string) (clean_tags : bool)
    : index_result string :=
  if clean_tags then
    let tokens := findall_with match_title_token 0 title in
    match title_loop tokens [] with
    | IndexError => IndexError
    | Value str_list => Value (join " " str_list)
    end
  else Value title.

(** A tag [o ... c] that fits in one line begins somewhere in [s]. *)
Fixpoint has_group (open close : ascii) (s : string) : bool :=
  match s with
  | EmptyString => false
  | String c s' =>
      (Ascii.eqb c open && bool_decide (is_Some (lazy_until close s')))
      || has_group open close s'
  end.

(** [s'] is [s] with some characters other than the line feed taken
    out. *)
Inductive thinned : string -> string -> Prop :=
  | thinned_nil : thinned EmptyString EmptyString
  | thinned_keep (c : ascii) (s' s : string) :
      thinned s' s -> thinned (String c s') (String c s)
  | thinned_drop (c : ascii) (s' s : string) :
      c <> LF -> thinned s' s -> thinned s' (String c s).

(** The characters [text_format_ROM_name_for_scraping] takes out one by
    one. *)
Definition is_scraping_separator (c : ascii) : bool :=
  Ascii.eqb c "_" || Ascii.eqb c "-" || Ascii.eqb c ":" || Ascii.eqb c ".".

(** What the cleaned title is made of: a text without opening bracket, or
    the tag [[BIOS]]; never the empty text. *)
Definition title_part (t : string) : Prop :=
  t <> EmptyString /\
  (t = "[BIOS]" \/ all_chars (fun c => negb (is_opening c)) t = true).

(** A token of the expression begins with an opening bracket, or holds
    none. *)
Definition token_kind (tok : string) : Prop :=
  (exists o rest, is_opening o = true /\ tok = String o rest) \/
  all_chars (fun c => negb (is_opening c)) tok = true.

End UtilsTitles.

(** * Properties *)

Module PCloneFacts.
Import RomAudit.

Lemma pclone_inv_nil : pclone_inv [] ∅.
Proof.
  split.
  - intros k. rewrite lookup_empty. split.
    + intros [? ?]; discriminate.
    + intros [(m & H & _) | (n & m & H & _)]; inversion H.
  - intros k l n H. rewrite lookup_empty in H. discriminate.
  - intros k l H. rewrite lookup_empty in H. discriminate.
Qed.

Lemma pclone_step_lookup dic name m k :
  pclone_step dic (name, m) !! k =
  if decide (rom_cloneof m = "") then
    if decide (name = k) then Some (default [] (dic !! name)) else dic !! k
  else
    if decide (rom_cloneof m = k) then Some (default [] (dic !! k) ++ [name])
    else dic !! k.
Proof.
  unfold pclone_step; simpl.
  case_bool_decide as Hclone; destruct (decide (rom_cloneof m = "")) as [He|He];
    try contradiction.
  - rewrite lookup_alter. destruct (decide (rom_cloneof m = k)) as [->|Hpk].
    + destruct (dic !! k) as [l|] eqn:E.
      * by rewrite E.
      * by rewrite lookup_insert_eq.
    + destruct (dic !! rom_cloneof m) as [l|] eqn:E; [done|].
      by rewrite lookup_insert_ne.
  - destruct (decide (name = k)) as [->|Hnk].
    + destruct (dic !! k) as [l|] eqn:E; [done|]. by rewrite lookup_insert_eq.
    + destruct (dic !! name) as [l|] eqn:E; [done|]. by rewrite lookup_insert_ne.
Qed.

Lemma elem_of_snoc {A} (l : list A) (x y : A) : x ∈ l ++ [y] <-> x ∈ l \/ x = y.
Proof. by rewrite elem_of_app, list_elem_of_singleton. Qed.

Lemma pclone_inv_step done dic name m :
  name ∉ done.*1 ->
  pclone_inv done dic ->
  pclone_inv (done ++ [(name, m)]) (pclone_step dic (name, m)).
Proof.
  intros Hfresh [Hk Hc Hn].
  assert (Hnot : forall m', (name, m') ∉ done).
  { intros m' Hin. apply Hfresh. apply list_elem_of_fmap. by exists (name, m'). }
  assert (Hnone : forall k n m', dic !! k = None ->
            (n, m') ∈ done -> rom_cloneof m' = k -> k = "").
  { intros k n m' E Hin Ek. destruct (decide (k = "")) as [|Hne]; [done|].
    assert (Hs : is_Some (dic !! k)) by (apply Hk; right; by exists n, m').
    rewrite E in Hs. by destruct Hs. }
  split.
  - intros k. rewrite pclone_step_lookup. setoid_rewrite elem_of_snoc.
    specialize (Hk k).
    destruct (decide (rom_cloneof m = "")) as [He|He];
      [destruct (decide (name = k)) as [->|Hnk]
      |destruct (decide (rom_cloneof m = k)) as [Hpk|Hpk]].
    + split; [intros _ | by eauto]. left. exists m. auto.
    + rewrite Hk. split.
      * intros [(m' & Hin & E) | (n' & m' & Hin & E & Hne)]; [left | right]; eauto 8.
      * intros [(m' & [Hin | Heq] & E) | (n' & m' & [Hin | Heq] & E & Hne)];
          [left; eauto | congruence | right; eauto 8 | congruence].
    + split; [intros _ | by eauto]. right. exists name, m. subst k. auto.
    + rewrite Hk. split.
      * intros [(m' & Hin & E) | (n' & m' & Hin & E & Hne)]; [left | right]; eauto 8.
      * intros [(m' & [Hin | Heq] & E) | (n' & m' & [Hin | Heq] & E & Hne)];
          [left; eauto | congruence | right; eauto 8 | congruence].
  - intros k l n. rewrite pclone_step_lookup. setoid_rewrite elem_of_snoc.
    destruct (decide (rom_cloneof m = "")) as [He|He];
      [destruct (decide (name = k)) as [->|Hnk]
      |destruct (decide (rom_cloneof m = k)) as [Hpk|Hpk]].
    + intros [= <-]. destruct (dic !! k) as [l0|] eqn:E; simpl.
      * rewrite (Hc k l0 n E). split.
        -- intros (m' & Hin & E' & Hne). eauto 8.
        -- intros (m' & [Hin | Heq] & E' & Hne); [eauto | congruence].
      * split; [intros Hin; inversion Hin|].
        intros (m' & [Hin | Heq] & E' & Hne); [|congruence].
        destruct Hne. eapply Hnone; eauto.
    + intros Hl. rewrite (Hc k l n Hl). split.
      * intros (m' & Hin & E' & Hne). eauto 8.
      * intros (m' & [Hin | Heq] & E' & Hne); [eauto | congruence].
    + intros [= <-]. rewrite elem_of_snoc.
      destruct (dic !! k) as [l0|] eqn:E; simpl.
      * rewrite (Hc k l0 n E). split.
        -- intros [(m' & Hin & E' & Hne) | ->]; [eauto 8|].
           exists m. subst k. auto.
        -- intros (m' & [Hin | Heq] & E' & Hne); [left; eauto | right; congruence].
      * split.
        -- intros [Hin | ->]; [inversion Hin|]. exists m. subst k. auto.
        -- intros (m' & [Hin | Heq] & E' & Hne); [|right; congruence].
           destruct Hne. eapply Hnone; eauto.
    + intros Hl. rewrite (Hc k l n Hl). split.
      * intros (m' & Hin & E' & Hne). eauto 8.
      * intros (m' & [Hin | Heq] & E' & Hne); [eauto | congruence].
  - intros k l. rewrite pclone_step_lookup.
    destruct (decide (rom_cloneof m = "")) as [He|He];
      [destruct (decide (name = k)) as [->|Hnk]
      |destruct (decide (rom_cloneof m = k)) as [Hpk|Hpk]].
    + intros [= <-]. destruct (dic !! k) as [l0|] eqn:E; simpl; [eauto | constructor].
    + apply Hn.
    + intros [= <-]. apply NoDup_app. split; [|split].
      * destruct (dic !! k) as [l0|] eqn:E; simpl; [eauto | constructor].
      * intros x Hx Hx'. apply list_elem_of_singleton in Hx' as ->.
        destruct (dic !! k) as [l0|] eqn:E; simpl in Hx; [|inversion Hx].
        apply (Hc k l0 name E) in Hx as (m' & Hin & _). by apply (Hnot m').
      * apply NoDup_singleton.
    + apply Hn.
Qed.

Lemma pclone_loop_inv items :
  NoDup items.*1 -> pclone_inv items (pclone_loop items).
Proof.
  unfold pclone_loop.
  induction items as [|[name m] items IH] using rev_ind; intros Hnd.
  - apply pclone_inv_nil.
  - rewrite foldl_app. simpl.
    rewrite fmap_app in Hnd. apply NoDup_app in Hnd as (Hnd & Hfresh & _).
    apply pclone_inv_step; [|by apply IH].
    intros Hin. apply (Hfresh name Hin). simpl. apply list_elem_of_singleton. done.
Qed.

Lemma audit_make_NoIntro_PClone_dic_inv (cat : gmap string rom_logiqx) :
  pclone_inv (map_to_list cat) (audit_make_NoIntro_PClone_dic cat).
Proof. apply pclone_loop_inv, NoDup_fst_map_to_list. Qed.

Lemma valid_catalog_AB : valid_catalog catalog_AB.
Proof.
  intros n m. unfold catalog_AB.
  rewrite lookup_insert. case_decide as E1.
  - intros [= <-]. by subst n.
  - rewrite lookup_insert. case_decide as E2; [|by rewrite lookup_empty].
    intros [= <-]. by subst n.
Qed.

Example pclone_catalog_AB :
  audit_make_NoIntro_PClone_dic catalog_AB = <["A" := ["B"]]> ∅.
Proof. vm_compute. reflexivity. Qed.

(** C1, as stated, fails: the statement "every record name of a valid
    catalogue is a key of the parent/clone dictionary and belongs to at most
    one clone list" is false. In the catalogue [{A; B cloneof A}] the clone
    [B] is a record name, yet the dictionary is [{A: [B]}] and [B] is not a
    key. *)
Lemma pclone_every_name_is_key_fails :
  ~ (forall cat : gmap string rom_logiqx, valid_catalog cat ->
     forall n, is_Some (cat !! n) ->
       is_Some (audit_make_NoIntro_PClone_dic cat !! n) /\
       (forall k1 k2 l1 l2,
          audit_make_NoIntro_PClone_dic cat !! k1 = Some l1 ->
          audit_make_NoIntro_PClone_dic cat !! k2 = Some l2 ->
          n ∈ l1 -> n ∈ l2 -> k1 = k2)).
Proof.
  intros H.
  destruct (H catalog_AB valid_catalog_AB "B") as [[l Hl] _].
  - exists rom_B. reflexivity.
  - rewrite pclone_catalog_AB in Hl. vm_compute in Hl. discriminate.
Qed.

(** C1, amended: for every catalogue and every record [n] of it, in the
    dictionary built by [audit_make_NoIntro_PClone_dic]
    - [n] is a key exactly when its [cloneof] is empty or some record of the
      catalogue names [n] as its parent;
    - when its [cloneof] is not empty, [n] is in the clone list stored under
      its parent's name;
    - [n] is in no clone list other than its parent's, and no clone list
      holds a name twice. *)
Theorem pclone_names_placed (cat : gmap string rom_logiqx) (n : string)
    (m : rom_logiqx) :
  cat !! n = Some m ->
  (is_Some (audit_make_NoIntro_PClone_dic cat !! n) <->
     rom_cloneof m = "" \/
     (n <> "" /\ exists n' m', cat !! n' = Some m' /\ rom_cloneof m' = n)) /\
  (rom_cloneof m <> "" ->
     exists l, audit_make_NoIntro_PClone_dic cat !! rom_cloneof m = Some l /\ n ∈ l) /\
  (forall k l, audit_make_NoIntro_PClone_dic cat !! k = Some l ->
     NoDup l /\ (n ∈ l -> k = rom_cloneof m)).
Proof.
  intros Hn.
  destruct (audit_make_NoIntro_PClone_dic_inv cat) as [Hk Hc Hd].
  split; [|split].
  - rewrite Hk. split.
    + intros [(m' & Hin & E) | (n' & m' & Hin & E & Hne)].
      * apply elem_of_map_to_list in Hin. left. congruence.
      * apply elem_of_map_to_list in Hin. right. eauto.
    + intros [E | (Hne & n' & m' & Hin & E)].
      * left. exists m. split; [|done]. by apply elem_of_map_to_list.
      * right. exists n', m'. split; [|done]. by apply elem_of_map_to_list.
  - intros Hne.
    assert (Hs : is_Some (audit_make_NoIntro_PClone_dic cat !! rom_cloneof m)).
    { apply Hk. right. exists n, m. split; [|done]. by apply elem_of_map_to_list. }
    destruct Hs as [l Hl]. exists l. split; [done|].
    apply (Hc _ _ n Hl). exists m. split; [|done]. by apply elem_of_map_to_list.
  - intros k l Hl. split; [by eapply Hd|].
    intros Hin. apply (Hc _ _ n Hl) in Hin as (m' & Hin & E & _).
    apply elem_of_map_to_list in Hin. congruence.
Qed.

Lemma pclone_names_placed_witness :
  (is_Some (audit_make_NoIntro_PClone_dic catalog_AB !! "B") <->
     rom_cloneof rom_B = "" \/
     ("B" <> "" /\ exists n' m', catalog_AB !! n' = Some m' /\ rom_cloneof m' = "B")) /\
  (rom_cloneof rom_B <> "" ->
     exists l, audit_make_NoIntro_PClone_dic catalog_AB !! rom_cloneof rom_B = Some l
               /\ "B" ∈ l) /\
  (forall k l, audit_make_NoIntro_PClone_dic catalog_AB !! k = Some l ->
     NoDup l /\ ("B" ∈ l -> k = rom_cloneof rom_B)).
Proof. apply (pclone_names_placed catalog_AB "B" rom_B). reflexivity. Defined.

End PCloneFacts.

Module StringFacts.
Import Py Utils.
#[local] Arguments String.append : simpl nomatch.

Lemma length_append (a b : string) :
  String.length (a +:+ b) = (String.length a + String.length b)%nat.
Proof. induction a as [|c a IH]; simpl; [done | by rewrite IH]. Qed.

Lemma append_assoc (a b c : string) : (a +:+ b) +:+ c = a +:+ (b +:+ c).
Proof. induction a as [|x a IH]; simpl; [done | by rewrite IH]. Qed.

Lemma append_inv_head (a b c : string) : a +:+ b = a +:+ c -> b = c.
Proof. induction a as [|x a IH]; simpl; [done|]. intros [= H]. by apply IH. Qed.

Lemma drop_chars_append (a b : string) : drop_chars (String.length a) (a +:+ b) = b.
Proof. induction a as [|x a IH]; simpl; [by destruct b | done]. Qed.

Lemma drop_chars_0 (s : string) : drop_chars 0 s = s.
Proof. by destruct s. Qed.

Lemma prefix_empty (X : string) : String.prefix EmptyString X = true.
Proof. by destruct X. Qed.

Lemma prefix_cons (q : ascii) (Q : string) (x : ascii) (s : string) :
  String.prefix (String q Q) (String x s)
  = if ascii_dec q x then String.prefix Q s else false.
Proof. reflexivity. Qed.

Ltac by_char c := destruct c as [[] [] [] [] [] [] [] []].

End StringFacts.

Module TextFacts.
Import Py Utils StringFacts.
#[local] Arguments String.append : simpl nomatch.

Example escape_numeric_entity : text_escape_XML "&#10;" = "&amp;#10;".
Proof. reflexivity. Qed.

Example unescape_keeps_named_entity_text :
  text_unescape_XML (text_escape_XML "&lt;") = "&lt;".
Proof. reflexivity. Qed.

(** Replacing a one-character text acts on each part of a text. *)
Lemma replace_char_app (o : ascii) (new a b : string) :
  replace (String o "") new (a +:+ b)
  = replace (String o "") new a +:+ replace (String o "") new b.
Proof.
  unfold replace. induction a as [|c a IH]; [done|].
  cbn [String.append replace_from String.length Nat.sub].
  change (String.prefix (String o "") (String c (a +:+ b)))
    with (if ascii_dec o c then String.prefix "" (a +:+ b) else false).
  change (String.prefix (String o "") (String c a))
    with (if ascii_dec o c then String.prefix "" a else false).
  rewrite !prefix_empty, IH. destruct (ascii_dec o c); [|done].
  by rewrite append_assoc.
Qed.

Lemma text_escape_XML_app (a b : string) :
  text_escape_XML (a +:+ b) = text_escape_XML a +:+ text_escape_XML b.
Proof.
  unfold text_escape_XML, str_quot, str_LF, str_CR, str_TAB.
  by rewrite !replace_char_app.
Qed.

(** [text_escape_XML] works character by character. *)
Lemma text_escape_XML_chars (s : string) :
  text_escape_XML s = concat_map escape_char s.
Proof.
  induction s as [|c s IH]; [done|].
  change (String c s) with (String c "" +:+ s).
  rewrite text_escape_XML_app, IH. done.
Qed.

Ltac char_cases c X :=
  by_char c; first [reflexivity | destruct X; reflexivity].

Lemma unescape_local (k : nat) (old new : string) (c : ascii) (X : string) :
  (k < 5)%nat -> unescape_steps !! k = Some (old, new) ->
  replace old new (partial_unescape k c +:+ X)
  = partial_unescape (S k) c +:+ replace old new X.
Proof.
  intros Hk H.
  do 5 (destruct k as [|k]; [injection H as <- <-; char_cases c X|]). lia.
Qed.

(** Each of the first five replacements of [text_unescape_XML] acts
    character by character on an escaped text. *)
Lemma unescape_step (k : nat) (old new : string) (s : string) :
  (k < 5)%nat -> unescape_steps !! k = Some (old, new) ->
  replace old new (concat_map (partial_unescape k) s)
  = concat_map (partial_unescape (S k)) s.
Proof.
  intros Hk H. induction s as [|c s IH]; [done|].
  cbn [concat_map]. by rewrite (unescape_local k old new c _ Hk H), IH.
Qed.

Lemma prefix_entity_char_local (k : nat) (q : ascii) (Q : string) (x : ascii)
    (rest : string) :
  (5 <= k <= 7)%nat -> is_entity_char q = true ->
  String.prefix (String q Q) (partial_unescape k x +:+ rest)
  = if ascii_dec q x then String.prefix Q rest else false.
Proof.
  intros Hk Hq.
  assert (Hk' : k = 5%nat \/ k = 6%nat \/ k = 7%nat) by lia.
  by_char q; try discriminate Hq;
    destruct Hk' as [-> | [-> | ->]]; by_char x; reflexivity.
Qed.

Lemma prefix_concat_map (k : nat) (Q : string) :
  (5 <= k <= 7)%nat -> all_chars is_entity_char Q = true ->
  forall s, String.prefix Q (concat_map (partial_unescape k) s) = String.prefix Q s.
Proof.
  intros Hk. induction Q as [|q Q IH]; intros HQ s.
  - by rewrite !prefix_empty.
  - simpl in HQ. apply andb_true_iff in HQ as [Hq HQ].
    destruct s as [|x s]; [done|]. cbn [concat_map].
    rewrite (prefix_entity_char_local k q Q x _ Hk Hq), prefix_cons, (IH HQ). done.
Qed.

Lemma unescape_numeric_local (k : nat) (qs new : string) (c : ascii) (X : string) :
  (5 <= k <= 7)%nat -> unescape_steps !! k = Some (String "&" qs, new) ->
  (c = "&"%char -> String.prefix qs X = false) ->
  replace (String "&" qs) new (partial_unescape k c +:+ X)
  = partial_unescape (S k) c +:+ replace (String "&" qs) new X.
Proof.
  intros Hk H HX.
  assert (Hk' : k = 5%nat \/ k = 6%nat \/ k = 7%nat) by lia.
  destruct Hk' as [-> | [-> | ->]]; injection H as <- <-;
    (by_char c;
     first [ reflexivity
           | destruct X; reflexivity
           | unfold replace;
             change (partial_unescape _ "&" +:+ X) with (String "&" X);
             change (partial_unescape _ "&") with (String "&" "");
             cbn [replace_from String.append];
             rewrite prefix_cons; cbn [ascii_dec bool_dec]; simpl;
             rewrite (HX eq_refl); reflexivity ]).
Qed.

Lemma no_numeric_entity_cons (c : ascii) (s : string) :
  no_numeric_entity (String c s) = true ->
  no_numeric_entity s = true /\
  (c = "&"%char ->
     String.prefix "#10;" s = false /\ String.prefix "#13;" s = false /\
     String.prefix "#9;" s = false).
Proof.
  cbn [no_numeric_entity]. intros H. apply andb_true_iff in H as [H Hs].
  split; [done|]. intros ->. rewrite !prefix_cons in H. cbn in H.
  apply negb_true_iff in H. apply orb_false_iff in H as [H H3].
  apply orb_false_iff in H as [H1 H2]. done.
Qed.

(** So do the last three, on a text without numeric entities of its own. *)
Lemma unescape_numeric_step (k : nat) (qs new : string) (s : string) :
  (5 <= k <= 7)%nat -> unescape_steps !! k = Some (String "&" qs, new) ->
  no_numeric_entity s = true ->
  replace (String "&" qs) new (concat_map (partial_unescape k) s)
  = concat_map (partial_unescape (S k)) s.
Proof.
  intros Hk H. induction s as [|c s IH]; [done|].
  intros Hs. apply no_numeric_entity_cons in Hs as [Hs Hc].
  cbn [concat_map]. rewrite (unescape_numeric_local k qs new c _ Hk H), (IH Hs); [done|].
  intros ->. destruct (Hc eq_refl) as (H1 & H2 & H3).
  assert (Hk' : k = 5%nat \/ k = 6%nat \/ k = 7%nat) by lia.
  destruct Hk' as [-> | [-> | ->]]; injection H as <- <-;
    by rewrite prefix_concat_map.
Qed.

Lemma partial_unescape_all (c : ascii) : partial_unescape 8 c = String c "".
Proof. by_char c; reflexivity. Qed.

Lemma concat_map_chars (f : ascii -> string) (s : string) :
  (forall c, f c = String c "") -> concat_map f s = s.
Proof. intros H. induction s as [|c s IH]; [done|]. cbn [concat_map]. by rewrite H, IH. Qed.

(** A text in which none of [&#10;], [&#13;] and [&#9;] occurs as it
    stands comes back unchanged from escaping and unescaping. *)
Lemma unescape_escape_roundtrip (s : string) :
  no_numeric_entity s = true ->
  text_unescape_XML (text_escape_XML s) = s.
Proof.
  intros Hs. rewrite text_escape_XML_chars.
  change escape_char with (partial_unescape 0).
  unfold text_unescape_XML.
  rewrite (unescape_step 0 "&quot;" str_quot) by (done || lia).
  rewrite (unescape_step 1 "&apos;" "'") by (done || lia).
  rewrite (unescape_step 2 "&lt;" "<") by (done || lia).
  rewrite (unescape_step 3 "&gt;" ">") by (done || lia).
  rewrite (unescape_step 4 "&amp;" "&") by (done || lia).
  rewrite (unescape_numeric_step 5 "#10;" str_LF) by (done || lia).
  rewrite (unescape_numeric_step 6 "#13;" str_CR) by (done || lia).
  rewrite (unescape_numeric_step 7 "#9;" str_TAB) by (done || lia).
  apply concat_map_chars, partial_unescape_all.
Qed.

(** C3 at the failing input: the five characters [&#10;] do not survive
    escaping followed by unescaping. They are escaped to [&amp;#10;];
    [text_unescape_XML] replaces [&amp;] before the three numeric
    entities, so the text becomes [&#10;] again and is then turned into a
    line feed. *)
Theorem unescape_escape_numeric_entity :
  text_unescape_XML (text_escape_XML "&#10;") = str_LF /\
  text_unescape_XML (text_escape_XML "&#10;") <> "&#10;".
Proof. split; [reflexivity | discriminate]. Qed.

End TextFacts.

Module MultiDiscFacts.
Import Py Utils StringFacts.
#[local] Arguments String.append : simpl nomatch.

Example super_mario_tokens :
  text_get_ROM_basename_tokens (getBaseNoExt super_mario_FN)
  = ["Super Mario Bros"; "(USA)"; "(Disc 1 of 2)"].
Proof. reflexivity. Qed.

(** What the loop finds for the sample name, and the fields the function
    assigns from it before the debug lines. *)
Example super_mario_disc_token :
  let tokens := text_get_ROM_basename_tokens (getBaseNoExt super_mario_FN) in
  find_disc_token tokens tokens 0 = Some (["Super Mario Bros"; "(USA)"], "1") /\
  join " " ["Super Mario Bros"; "(USA)"] +:+ getExt super_mario_FN
    = "Super Mario Bros (USA).zip" /\
  int "1" = 1%Z.
Proof. repeat split. Qed.

Example sonic_not_multidisc :
  text_get_multidisc_info sonic_FN =
  Ok {| ROM_FN := sonic_FN; isMultiDisc := false; setName := EmptyString;
        discName := "Sonic The Hedgehog (USA).zip"; extension := ".zip";
        order := 0 |}.
Proof. reflexivity. Qed.

(** Whenever a disc token is found the function raises: the first debug
    line of that branch calls a method the object does not have. *)
Lemma multidisc_found_raises (ROM_FN : FileName) tokens_mdisc group1 :
  let tokens := text_get_ROM_basename_tokens (getBaseNoExt ROM_FN) in
  find_disc_token tokens tokens 0 = Some (tokens_mdisc, group1) ->
  text_get_multidisc_info ROM_FN = Raise AttributeError.
Proof.
  intros tokens H. unfold text_get_multidisc_info, MultiDiscInfo_init.
  change (call_method ROM_FN "getBase") with (Ok (getBase ROM_FN)).
  change (call_method ROM_FN "getExt") with (Ok (getExt ROM_FN)).
  change (call_method ROM_FN "getBaseNoExt") with (Ok (getBaseNoExt ROM_FN)).
  change (call_method ROM_FN "getBase_noext") with (@Raise string AttributeError).
  unfold mbind, result_bind, mret, result_ret, bind.
  fold tokens. rewrite H. reflexivity.
Qed.

(** C7 at the failing input: for [Super Mario Bros (USA) (Disc 1 of 2).zip]
    the function returns no [MultiDiscInfo]; it raises [AttributeError]. *)
Theorem multidisc_super_mario_raises :
  text_get_multidisc_info super_mario_FN = Raise AttributeError.
Proof. reflexivity. Qed.


(** *** The tokenizer *)

(** Passing over [k] characters is resuming the scan [k] characters
    further. *)
Lemma findall_from_skip (s : string) :
  forall k, findall_from k s = findall_from 0 (drop_chars k s).
Proof.
  induction s as [|c s IH]; intros [|k]; try done.
  cbn [findall_from drop_chars]. apply IH.
Qed.

Lemma lazy_until_some (close : ascii) (s b : string) :
  lazy_until close s = Some b ->
  exists body rest, group_body close body /\
    b = body +:+ String close EmptyString /\ s = body +:+ String close rest.
Proof.
  revert b. induction s as [|c s IH]; intros b; simpl; [done|].
  destruct (Ascii.eqb c close) eqn:Ec.
  - intros [= <-]. apply Ascii.eqb_eq in Ec as ->. by exists EmptyString, s.
  - destruct (Ascii.eqb c LF) eqn:El; [done|].
    destruct (lazy_until close s) as [b'|]; [|done]. intros [= <-].
    destruct (IH b' eq_refl) as (body & rest & Hb & -> & ->).
    exists (String c body), rest. split; [|done].
    unfold group_body in *. simpl. by rewrite Ec, El, Hb.
Qed.

Lemma lazy_until_intro (close : ascii) (body rest : string) :
  group_body close body ->
  lazy_until close (body +:+ String close rest) = Some (body +:+ String close EmptyString).
Proof.
  unfold group_body. induction body as [|c body IH]; simpl.
  - intros _. by rewrite Ascii.eqb_refl.
  - intros H. apply andb_true_iff in H as [Hc Hb].
    apply andb_true_iff in Hc as [Hc Hl].
    apply negb_true_iff in Hc, Hl. rewrite Hc, Hl, (IH Hb). done.
Qed.

Lemma match_group_some (o close : ascii) (s tok : string) :
  match_group o close s = Some tok ->
  exists c1 body rest, c1 <> LF /\ group_body close body /\
    tok = String o (String c1 (body +:+ String close EmptyString)) /\
    s = String o (String c1 (body +:+ String close rest)).
Proof.
  unfold match_group. destruct s as [|o' [|c1 s]]; try done.
  destruct (Ascii.eqb o' o) eqn:Eo; [|done].
  destruct (Ascii.eqb c1 LF) eqn:El; [done|]. simpl.
  destruct (lazy_until close s) as [b|] eqn:Eb; [|done]. intros [= <-].
  apply Ascii.eqb_eq in Eo as ->. apply Ascii.eqb_neq in El.
  destruct (lazy_until_some _ _ _ Eb) as (body & rest & Hb & -> & ->).
  by exists c1, body, rest.
Qed.

Lemma match_group_intro (o close c1 : ascii) (body rest : string) :
  c1 <> LF -> group_body close body ->
  match_group o close (String o (String c1 (body +:+ String close rest)))
  = Some (String o (String c1 (body +:+ String close EmptyString))).
Proof.
  intros Hc Hb. unfold match_group.
  apply Ascii.eqb_neq in Hc. rewrite Ascii.eqb_refl, Hc. simpl.
  by rewrite (lazy_until_intro _ _ _ Hb).
Qed.

Lemma match_group_other (o close c : ascii) (s : string) :
  c <> o -> match_group o close (String c s) = None.
Proof.
  intros Hc. unfold match_group. destruct s as [|c1 s]; [done|].
  apply Ascii.eqb_neq in Hc. by rewrite Hc.
Qed.

Lemma run_outside_spec (s : string) :
  exists rest, s = run_outside s +:+ rest /\
    all_chars (fun c => negb (is_opening c)) (run_outside s) = true.
Proof.
  induction s as [|c s (rest & IH & Hall)]; simpl.
  - by exists EmptyString.
  - destruct (is_opening c) eqn:E.
    + by exists (String c s).
    + exists rest. simpl. rewrite E, Hall. split; [by rewrite <- IH | done].
Qed.

Lemma is_opening_false (c : ascii) :
  is_opening c = false -> c <> "["%char /\ c <> "("%char /\ c <> "{"%char.
Proof.
  unfold is_opening. intros H.
  apply orb_false_iff in H as [H H3]. apply orb_false_iff in H as [H1 H2].
  by rewrite <- !Ascii.eqb_neq.
Qed.

Lemma closing_of_opening (o close : ascii) :
  closing_of o = Some close ->
  (o = "["%char /\ close = "]"%char) \/ (o = "("%char /\ close = ")"%char)
  \/ (o = "{"%char /\ close = "}"%char).
Proof.
  unfold closing_of.
  destruct (Ascii.eqb o "[") eqn:E1; [apply Ascii.eqb_eq in E1; intros [= <-]; auto|].
  destruct (Ascii.eqb o "(") eqn:E2; [apply Ascii.eqb_eq in E2; intros [= <-]; auto|].
  destruct (Ascii.eqb o "{") eqn:E3; [apply Ascii.eqb_eq in E3; intros [= <-]; auto|].
  done.
Qed.

(** At a character other than an opening bracket the token is the run of
    such characters. *)
Lemma match_token_run (c : ascii) (s : string) :
  is_opening c = false ->
  match_token (String c s) = Some (String c (run_outside s)).
Proof.
  intros Hc. destruct (is_opening_false c Hc) as (H1 & H2 & H3).
  unfold match_token. rewrite !match_group_other by done.
  unfold match_run. simpl. by rewrite Hc.
Qed.

(** At a group the token is the group. *)
Lemma match_token_group (o close c1 : ascii) (body rest : string) :
  closing_of o = Some close -> c1 <> LF -> group_body close body ->
  match_token (String o (String c1 (body +:+ String close rest)))
  = Some (String o (String c1 (body +:+ String close EmptyString))).
Proof.
  intros Ho Hc Hb. unfold match_token.
  destruct (closing_of_opening _ _ Ho) as [[-> ->] | [[-> ->] | [-> ->]]].
  - by rewrite match_group_intro.
  - rewrite match_group_other by done. by rewrite match_group_intro.
  - rewrite !match_group_other by done. by rewrite match_group_intro.
Qed.

(** A token is a group or a run, and a prefix of the text scanned. *)
Lemma match_token_some (s tok : string) :
  match_token s = Some tok ->
  (exists o close c1 body rest, closing_of o = Some close /\ c1 <> LF /\
     group_body close body /\
     tok = String o (String c1 (body +:+ String close EmptyString)) /\
     s = String o (String c1 (body +:+ String close rest))) \/
  (exists c s', s = String c s' /\ is_opening c = false /\
     tok = String c (run_outside s')).
Proof.
  unfold match_token.
  destruct (match_group "[" "]" s) as [t|] eqn:E1.
  { intros [= <-]. left. destruct (match_group_some _ _ _ _ E1) as (c1 & b & r & H).
    by exists "["%char, "]"%char, c1, b, r. }
  destruct (match_group "(" ")" s) as [t|] eqn:E2.
  { intros [= <-]. left. destruct (match_group_some _ _ _ _ E2) as (c1 & b & r & H).
    by exists "("%char, ")"%char, c1, b, r. }
  destruct (match_group "{" "}" s) as [t|] eqn:E3.
  { intros [= <-]. left. destruct (match_group_some _ _ _ _ E3) as (c1 & b & r & H).
    by exists "{"%char, "}"%char, c1, b, r. }
  unfold match_run. destruct s as [|c s']; [done|]. simpl.
  destruct (is_opening c) eqn:Ec; [done|]. intros [= <-]. right. by exists c, s'.
Qed.

Lemma match_token_nonempty (s tok : string) :
  match_token s = Some tok -> tok <> EmptyString.
Proof.
  intros H. destruct (match_token_some _ _ H)
    as [(o & cl & c1 & b & r & _ & _ & _ & -> & _) | (c & s' & _ & _ & ->)]; done.
Qed.

Lemma findall_unfold (c : ascii) (s : string) :
  findall_from 0 (String c s) =
  match match_token (String c s) with
  | Some tok => tok :: findall_from 0 (drop_chars (String.length tok) (String c s))
  | None => findall_from 0 s
  end.
Proof.
  cbn [findall_from]. destruct (match_token (String c s)) as [tok|] eqn:E; [|done].
  rewrite findall_from_skip. apply match_token_nonempty in E.
  destruct tok as [|x tok]; [done|]. simpl. by rewrite Nat.sub_0_r.
Qed.

Lemma concat_tokens_cons (tok : string) (toks : list string) :
  concat_tokens (tok :: toks) = tok +:+ concat_tokens toks.
Proof. reflexivity. Qed.

(** The tokens never hold more characters than the text. *)
Lemma concat_tokens_raw_length (n : nat) :
  forall s, (String.length s <= n)%nat ->
    (String.length (concat_tokens (findall_from 0 s)) <= String.length s)%nat.
Proof.
  induction n as [|n IH]; intros [|c s] Hn; simpl in Hn; try (simpl; lia).
  rewrite findall_unfold.
  destruct (match_token (String c s)) as [tok|] eqn:E.
  - rewrite concat_tokens_cons, length_append.
    assert (Hpre : exists rest, String c s = tok +:+ rest /\ tok <> EmptyString).
    { destruct (match_token_some _ _ E)
        as [(o & cl & c1 & b & r & _ & _ & _ & -> & ->)
           | (c' & s' & [= -> ->] & _ & ->)].
      - exists r. simpl. by rewrite append_assoc.
      - destruct (run_outside_spec s') as (rest & Hr & _). exists rest.
        simpl. by rewrite <- Hr. }
    destruct Hpre as (rest & Hs & Hne). rewrite Hs, drop_chars_append.
    assert (Hl : String.length (String c s) = (String.length tok + String.length rest)%nat)
      by (by rewrite Hs, length_append).
    simpl in Hl. rewrite length_append.
    assert (String.length tok <> 0)%nat by (by destruct tok).
    specialize (IH rest ltac:(lia)). lia.
  - specialize (IH s ltac:(lia)). simpl. lia.
Qed.

Lemma well_grouped_run (r s : string) :
  all_chars (fun c => negb (is_opening c)) r = true ->
  well_grouped s -> well_grouped (r +:+ s).
Proof.
  induction r as [|c r IH]; simpl; [done|].
  intros H Hs. apply andb_true_iff in H as [Hc Hr]. apply negb_true_iff in Hc.
  apply wg_char; [done | by apply IH].
Qed.

Lemma concat_well_grouped (s : string) :
  well_grouped s -> concat_tokens (tokens_raw s) = s.
Proof.
  unfold tokens_raw. induction 1 as [|c s Hc Hs IH|o cl c1 body s Ho Hc1 Hb Hs IH].
  - done.
  - rewrite findall_unfold, (match_token_run c s Hc), concat_tokens_cons.
    destruct (run_outside_spec s) as (rest & Hr & Hall).
    cbn [String.length drop_chars]. simpl. f_equal.
    (* the scan of [s] starts with the same run *)
    destruct s as [|c' s']; [done|].
    destruct (is_opening c') eqn:Ec'.
    + simpl. rewrite Ec'. simpl. exact IH.
    + rewrite findall_unfold, (match_token_run c' s' Ec'), concat_tokens_cons in IH.
      simpl in IH |- *. rewrite Ec'. simpl. exact IH.
  - rewrite findall_unfold, (match_token_group o cl c1 body s Ho Hc1 Hb),
      concat_tokens_cons.
    replace (String o (String c1 (body +:+ String cl s)))
      with (String o (String c1 (body +:+ String cl EmptyString)) +:+ s)
      by (simpl; by rewrite append_assoc).
    by rewrite drop_chars_append, IH.
Qed.

Lemma well_grouped_concat (n : nat) :
  forall s, (String.length s <= n)%nat ->
    concat_tokens (findall_from 0 s) = s -> well_grouped s.
Proof.
  induction n as [|n IH]; intros [|c s] Hn; simpl in Hn; try lia;
    try (intros _; apply wg_nil).
  rewrite findall_unfold.
  destruct (match_token (String c s)) as [tok|] eqn:E.
  - rewrite concat_tokens_cons.
    destruct (match_token_some _ _ E)
      as [(o & cl & c1 & b & r & Ho & Hc1 & Hb & -> & Hs)
         | (c' & s' & [= -> ->] & Hc & ->)].
    + rewrite Hs.
      replace (String o (String c1 (b +:+ String cl r)))
        with (String o (String c1 (b +:+ String cl EmptyString)) +:+ r)
        by (simpl; by rewrite append_assoc).
      rewrite drop_chars_append. intros H. apply append_inv_head in H.
      simpl. rewrite append_assoc. simpl. apply wg_group; try done.
      apply IH; [|done].
      assert (Hl : String.length (String c s)
                   = String.length (String o (String c1 (b +:+ String cl r))))
        by (by rewrite Hs).
      simpl in Hl. rewrite length_append in Hl. simpl in Hl. lia.
    + destruct (run_outside_spec s') as (rest & Hr & Hall).
      replace (String c' s') with (String c' (run_outside s') +:+ rest)
        by (simpl; by rewrite <- Hr).
      rewrite drop_chars_append. intros H. apply append_inv_head in H.
      apply (well_grouped_run (String c' (run_outside s'))).
      * simpl. by rewrite Hc, Hall.
      * apply IH; [|done].
        assert (Hl : String.length s' = String.length (run_outside s' +:+ rest))
          by (by rewrite <- Hr).
        rewrite length_append in Hl. lia.
  - intros H. exfalso.
    pose proof (concat_tokens_raw_length (String.length s) s ltac:(lia)) as Hlen.
    rewrite H in Hlen. simpl in Hlen. lia.
Qed.

(** C6, as stated, fails: the tokens of the one-character name [[] are
    none, so their concatenation is empty. *)
Lemma tokens_raw_reconstruct_fails :
  ~ (forall s, concat_tokens (tokens_raw s) = s).
Proof. intros H. specialize (H "["). discriminate. Qed.

(** C6, amended: the raw tokens, concatenated in order, give back the
    input exactly when every opening bracket met by the scan starts a group;
    an opening bracket that starts none is left out of the tokens. *)
Theorem tokens_raw_reconstruct (s : string) :
  concat_tokens (tokens_raw s) = s <-> well_grouped s.
Proof.
  split.
  - apply (well_grouped_concat (String.length s)). lia.
  - apply concat_well_grouped.
Qed.

Example tokens_raw_sample :
  tokens_raw "Final Fantasy VII (USA) [!] {a} - (Disc 1)"
  = ["Final Fantasy VII "; "(USA)"; " "; "[!]"; " "; "{a}"; " - "; "(Disc 1)"].
Proof. reflexivity. Qed.

Example tokens_raw_unclosed : tokens_raw "Doom [beta" = ["Doom "; "beta"].
Proof. reflexivity. Qed.

End MultiDiscFacts.

Module LoaderFacts.
Import Py Utils RomAudit.

(** With [xml_tree] unbound, every file that exists and parses makes the
    No-Intro loader raise [NameError]. *)
Lemma NoIntro_loader_unbound_name (globals : module_globals) (xml_FN : xml_file)
    (xml_root : Element) :
  globals !! "xml_tree" = None ->
  xf_exists xml_FN = true ->
  xf_readXml xml_FN = Ok xml_root ->
  audit_load_NoIntro_XML_file globals xml_FN = Raise NameError.
Proof.
  intros HG He Hr. unfold audit_load_NoIntro_XML_file, global_name.
  rewrite He, Hr, HG. reflexivity.
Qed.

(** Whatever [xml_tree] is bound to, the result does not depend on the
    content of the file given. *)
Lemma NoIntro_loader_ignores_file (globals : module_globals)
    (xml_FN1 xml_FN2 : xml_file) (root1 root2 : Element) :
  xf_exists xml_FN1 = true -> xf_readXml xml_FN1 = Ok root1 ->
  xf_exists xml_FN2 = true -> xf_readXml xml_FN2 = Ok root2 ->
  audit_load_NoIntro_XML_file globals xml_FN1
  = audit_load_NoIntro_XML_file globals xml_FN2.
Proof.
  intros He1 Hr1 He2 Hr2. unfold audit_load_NoIntro_XML_file.
  rewrite He1, Hr1, He2, Hr2. reflexivity.
Qed.

Lemma NoIntro_record_eq (e : Element) (n : string) :
  attrib e !! "name" = Some n ->
  match attrib e !! "cloneof" with
  | Some cloneof => set_rom_cloneof cloneof (set_rom_name n audit_new_rom_logiqx)
  | None => set_rom_name n audit_new_rom_logiqx
  end = NoIntro_record e.
Proof.
  intros Hn. unfold NoIntro_record. rewrite Hn.
  destruct (attrib e !! "cloneof"); reflexivity.
Qed.

(** The loop of the loader does what the loader is meant to do: run on the
    children of a root whose [<game>] elements all carry a name, it gives a
    mapping with one key per name of a [<game>] element, the record under a
    key holding that name and the [cloneof] attribute of such an element,
    or the empty string when the element has none. *)
Lemma NoIntro_loop_spec (elements : list Element) (roms : gmap string rom_logiqx) :
  Forall (fun e => tag e = "game" -> is_Some (attrib e !! "name")) elements ->
  exists m, NoIntro_loop elements roms = Ok m /\
    (forall n, is_Some (m !! n) <->
       is_Some (roms !! n) \/
       exists e, e ∈ elements /\ tag e = "game" /\ attrib e !! "name" = Some n) /\
    (forall n r, m !! n = Some r ->
       roms !! n = Some r \/
       exists e, e ∈ elements /\ tag e = "game" /\ attrib e !! "name" = Some n /\
                 r = NoIntro_record e).
Proof.
  revert roms. induction elements as [|e rest IH]; intros roms Hall.
  - exists roms. split; [done|]. split.
    + intros n. split; [by left|]. intros [H | (e & He & _)]; [done | inversion He].
    + intros n r H. by left.
  - apply Forall_cons in Hall as [He Hrest]. simpl.
    case_bool_decide as Htag.
    + destruct (He Htag) as [name Hname]. rewrite Hname.
      rewrite (NoIntro_record_eq e name Hname).
      destruct (IH (<[name := NoIntro_record e]> roms) Hrest) as (m & Hm & Hkeys & Hrec).
      exists m. split; [done|]. split.
      * intros n. rewrite Hkeys. rewrite lookup_insert. split.
        -- intros [H | (e' & Hin & Ht & Hn)].
           ++ case_decide as E; [|by left]. subst n. right. exists e.
              split; [apply list_elem_of_here | done].
           ++ right. exists e'. split; [by apply list_elem_of_further | done].
        -- intros [H | (e' & Hin & Ht & Hn)].
           ++ left. case_decide; [by eauto | done].
           ++ apply elem_of_cons in Hin as [-> | Hin].
              ** left. rewrite Hname in Hn. injection Hn as ->.
                 rewrite decide_True by done. by eauto.
              ** right. by exists e'.
      * intros n r Hl. destruct (Hrec n r Hl) as [H | (e' & Hin & Ht & Hn & ->)].
        -- rewrite lookup_insert in H. case_decide as E.
           ++ subst n. injection H as <-. right. exists e.
              split; [apply list_elem_of_here | done].
           ++ by left.
        -- right. exists e'. split; [by apply list_elem_of_further | done].
    + destruct (IH roms Hrest) as (m & Hm & Hkeys & Hrec).
      exists m. split; [done|]. split.
      * intros n. rewrite Hkeys. split.
        -- intros [H | (e' & Hin & Ht & Hn)]; [by left|].
           right. exists e'. split; [by apply list_elem_of_further | done].
        -- intros [H | (e' & Hin & Ht & Hn)]; [by left|].
           apply elem_of_cons in Hin as [-> | Hin]; [done|].
           right. by exists e'.
      * intros n r Hl. destruct (Hrec n r Hl) as [H | (e' & Hin & Ht & Hn & ->)];
          [by left|].
        right. exists e'. split; [by apply list_elem_of_further | done].
Qed.

(** C2 at the failing input: on an existing file holding one [<game>]
    element the loader returns no mapping; it raises [NameError]. *)
Theorem NoIntro_loader_one_game_raises :
  audit_load_NoIntro_XML_file rom_audit_globals file_one_game = Raise NameError.
Proof. reflexivity. Qed.


(** A child whose tag is not a key of the record makes the inner loop give
    up, wherever the child stands: assignments to existing keys add no
    key. *)
Lemma LB_read_children_unknown (cs : list Element) (record : gmap string string) :
  (exists c, c ∈ cs /\ record !! tag c = None) ->
  LB_read_children cs record = None.
Proof.
  revert record. induction cs as [|c0 cs IH]; intros record (c & Hin & Hc).
  - inversion Hin.
  - simpl. destruct (record !! tag c0) as [v|] eqn:E0; [|done].
    apply IH. apply elem_of_cons in Hin as [-> | Hin]; [congruence|].
    exists c. split; [done|].
    rewrite lookup_insert_ne; [done|]. intros E. rewrite E in E0. congruence.
Qed.

Lemma LB_element_offending (e : Element) (dics : LB_dics) :
  offending e -> LB_element e dics = Ok (Return dics).
Proof.
  unfold LB_element.
  intros [[Ht Hc] | [[Ht Hc] | [Ht Hc]]]; rewrite Ht; simpl;
    by rewrite (LB_read_children_unknown _ _ Hc).
Qed.

Lemma LB_loop_stops (pre post : list Element) (bad : Element) (dics : LB_dics) :
  offending bad ->
  LB_loop (pre ++ bad :: post) dics = LB_loop pre dics.
Proof.
  intros Hbad. revert dics. induction pre as [|e pre IH]; intros dics; simpl.
  - by rewrite (LB_element_offending _ _ Hbad).
  - destruct (LB_element e dics) as [[dics' | dics'] | ex]; simpl; [apply IH | done | done].
Qed.

(** C4: when the root of a LaunchBox file has, among its children, a
    [<Game>], [<Platform>] or [<GameImage>] element with a child tag outside
    the record template, the loader returns with the dictionaries as the
    elements before that one leave them: the offending record is not stored
    and the result does not depend on the elements that follow it. *)
Theorem LB_loader_stops_at_unknown_child (globals : module_globals)
    (filename_FN : xml_file) (dics : LB_dics) (xml_root : Element)
    (pre post : list Element) (bad : Element) :
  xf_exists filename_FN = true ->
  xf_readXml filename_FN = Ok xml_root ->
  children xml_root = pre ++ bad :: post ->
  offending bad ->
  audit_load_LB_metadata_XML globals filename_FN dics = LB_loop pre dics.
Proof.
  intros He Hr Hc Hbad. unfold audit_load_LB_metadata_XML.
  rewrite He, Hr, Hc. simpl. by apply LB_loop_stops.
Qed.

Lemma LB_bad_game_offending : offending LB_bad_game.
Proof.
  left. split; [reflexivity|]. exists (leaf "Colour" "brown"). split.
  - apply list_elem_of_further, list_elem_of_here.
  - reflexivity.
Defined.

Lemma LB_loader_stops_at_unknown_child_witness :
  audit_load_LB_metadata_XML rom_audit_globals LB_sample_file LB_empty
  = LB_loop [LB_good_game] LB_empty.
Proof.
  apply (LB_loader_stops_at_unknown_child rom_audit_globals LB_sample_file LB_empty
           (mk_Element "LaunchBox" ∅ None [LB_good_game; LB_bad_game; LB_platform])
           [LB_good_game] [LB_platform] LB_bad_game).
  - reflexivity.
  - reflexivity.
  - reflexivity.
  - exact LB_bad_game_offending.
Defined.

End LoaderFacts.

Module TempestFacts.
Import Py Utils RomAudit.

Lemma Tempest_field_raise (field_name field_value : string)
    (game : gmap string string) (e : exn) :
  Tempest_field field_name field_value game = Raise e <->
  e = NameError /\ field_name ∉ Tempest_fields.
Proof.
  unfold Tempest_field, Tempest_fields.
  repeat (case_bool_decide;
          [ subst field_name; split;
            [ discriminate
            | intros [_ Hn]; exfalso; apply Hn;
              rewrite !elem_of_cons; tauto ]
          | ]).
  split.
  - intros [= <-]. split; [done|].
    rewrite !elem_of_cons, elem_of_nil. tauto.
  - by intros [-> _].
Qed.

Lemma Tempest_field_known (field_name field_value : string)
    (game : gmap string string) :
  field_name ∈ Tempest_fields ->
  exists game', Tempest_field field_name field_value game = Ok game'.
Proof.
  intros Hin.
  destruct (Tempest_field field_name field_value game) as [game'|e] eqn:E.
  - by exists game'.
  - apply Tempest_field_raise in E as [_ Hn]. contradiction.
Qed.

(** One line raises exactly when a section is open, the line is read as a
    field and its name is not a known one. *)
Lemma Tempest_line_raise (st : Tempest_state) (file_line : string) (e : exn) :
  Tempest_line st file_line = Raise e <->
  e = NameError /\
  exists games game_key game, st = Reading games game_key game /\
    is_assignment file_line /\ field_name_of file_line ∉ Tempest_fields.
Proof.
  unfold Tempest_line, is_assignment, field_name_of, stripped.
  destruct st as [games | games game_key game].
  - split.
    + destruct (search_section _); discriminate.
    + intros [_ (g & k & r & [=] & _)].
  - case_bool_decide as Hlen.
    + split; [discriminate|]. intros [_ (g & k & r & _ & Hn & _)]. contradiction.
    + destruct (Tempest_field _ _ game) as [game'|e'] eqn:E; simpl.
      * split; [discriminate|].
        intros [_ (g & k & r & _ & _ & Hn)].
        assert (Tempest_field (nth 0 (split "=" (decode_replace (strip is_space_bytes file_line))) "")
                  (nth 1 (split "=" (decode_replace (strip is_space_bytes file_line))) "") game
                = Raise NameError) as E' by (by apply Tempest_field_raise).
        congruence.
      * apply Tempest_field_raise in E as [-> Hn]. split.
        -- intros [= <-]. split; [done|]. by exists games, game_key, game.
        -- by intros [-> _].
Qed.

Lemma Tempest_loop_app (a b : list string) (st : Tempest_state) :
  Tempest_loop (a ++ b) st = st' ← Tempest_loop a st; Tempest_loop b st'.
Proof.
  revert st. induction a as [|l a IH]; intros st; simpl; [done|].
  destruct (Tempest_line st l) as [st'|e]; simpl; [apply IH | done].
Qed.

(** The loop raises exactly when it reaches, with a section open, a field
    line whose name is not a known one; the lines after it play no part. *)
Lemma Tempest_loop_raise (file_lines : list string) (st : Tempest_state) (e : exn) :
  Tempest_loop file_lines st = Raise e <->
  e = NameError /\
  exists pre l post games game_key game,
    file_lines = pre ++ l :: post /\
    Tempest_loop pre st = Ok (Reading games game_key game) /\
    is_assignment l /\ field_name_of l ∉ Tempest_fields.
Proof.
  revert st. induction file_lines as [|l0 rest IH]; intros st; simpl.
  - split; [discriminate|].
    intros [_ (pre & l & post & _ & _ & _ & Heq & _)]. by destruct pre.
  - destruct (Tempest_line st l0) as [st'|e'] eqn:E; simpl.
    + rewrite IH. split.
      * intros [-> (pre & l & post & g & k & r & -> & Hpre & Ha & Hn)].
        split; [done|]. exists (l0 :: pre), l, post, g, k, r.
        split; [done|]. simpl. rewrite E. simpl. done.
      * intros [-> (pre & l & post & g & k & r & Heq & Hpre & Ha & Hn)].
        split; [done|]. destruct pre as [|l1 pre]; simpl in *.
        -- injection Heq as <- <-. injection Hpre as ->.
           assert (Tempest_line (Reading g k r) l0 = Raise NameError) as E'.
           { apply Tempest_line_raise. split; [done|]. by exists g, k, r. }
           congruence.
        -- injection Heq as <- ->. rewrite E in Hpre. simpl in Hpre.
           by exists pre, l, post, g, k, r.
    + apply Tempest_line_raise in E as [-> (g & k & r & -> & Ha & Hn)]. split.
      * intros [= <-]. split; [done|]. by exists [], l0, rest, g, k, r.
      * by intros [-> _].
Qed.

(** C5, as stated, fails: the statement "inside a section, a line
    [Field = Value] whose field name is outside the list is fatal, and one
    whose field name is on the list never is" is false. The field name the
    loop compares is the text before the equals sign as it stands: in
    [Publisher = Acme] it is [Publisher] followed by a blank, which is not
    on the list, and the loader raises [NameError]. *)
Lemma Tempest_listed_field_never_fatal_fails :
  ~ (forall (field value : string) (pre : list string)
       (games : gmap string (gmap string string)) (game_key : string)
       (game : gmap string string),
       Tempest_loop pre (Seeking ∅) = Ok (Reading games game_key game) ->
       let file_line := line (field +:+ " = " +:+ value) in
       (field ∉ Tempest_fields ->
          forall post,
            audit_load_Tempest_INI rom_audit_globals
              (ini_of_lines (pre ++ file_line :: post)) = Raise NameError) /\
       (field ∈ Tempest_fields ->
          audit_load_Tempest_INI rom_audit_globals
            (ini_of_lines (pre ++ [file_line])) <> Raise NameError)).
Proof.
  intros H.
  destruct (H "Publisher" "Acme" [line "[Alpha]"] ∅ "Alpha"
              (<["name" := "Alpha"]> audit_new_rom_GameDB)) as [_ Hlisted].
  - vm_compute. reflexivity.
  - apply Hlisted.
    + unfold Tempest_fields. apply list_elem_of_here.
    + vm_compute. reflexivity.
Qed.

(** C5, amended: for an INI file that exists and opens, the loader raises
    [NameError] exactly when, with a section open, it reads a line holding
    an equals sign whose field name (the text before the first equals sign,
    as it stands, blanks included)
    is none of Publisher, Developer, Released, Systems, Genre, Perspective,
    Score, Controls, Players, Esrb, Url, Description, Goodname, NoIntro and
    Tosec; the error ends the call whatever lines follow, and field lines
    with one of those names never raise. No other exception is raised. *)
Theorem Tempest_unknown_field_fatal (globals : module_globals)
    (file_FN : ini_file) (file_lines : list string) :
  ini_exists file_FN = true ->
  ini_open file_FN = Ok file_lines ->
  (audit_load_Tempest_INI globals file_FN = Raise NameError <->
     exists pre l post games game_key game,
       file_lines = pre ++ l :: post /\
       Tempest_loop pre (Seeking ∅) = Ok (Reading games game_key game) /\
       is_assignment l /\ field_name_of l ∉ Tempest_fields) /\
  (forall e, audit_load_Tempest_INI globals file_FN = Raise e -> e = NameError).
Proof.
  intros He Ho. unfold audit_load_Tempest_INI. rewrite He, Ho. simpl.
  destruct (Tempest_loop file_lines (Seeking ∅)) as [st|e] eqn:E; simpl.
  - split; [|discriminate]. split; [discriminate|].
    intros H.
    assert (Tempest_loop file_lines (Seeking ∅) = Raise NameError) as E'
      by (by apply Tempest_loop_raise).
    congruence.
  - apply Tempest_loop_raise in E as [-> H]. split.
    + split; [by intros _ | done].
    + by intros e [= <-].
Qed.

Lemma Tempest_unknown_field_fatal_witness :
  (audit_load_Tempest_INI rom_audit_globals (ini_of_lines ini_unknown_field)
     = Raise NameError <->
     exists pre l post games game_key game,
       ini_unknown_field = pre ++ l :: post /\
       Tempest_loop pre (Seeking ∅) = Ok (Reading games game_key game) /\
       is_assignment l /\ field_name_of l ∉ Tempest_fields) /\
  (forall e, audit_load_Tempest_INI rom_audit_globals (ini_of_lines ini_unknown_field)
             = Raise e -> e = NameError).
Proof.
  apply (Tempest_unknown_field_fatal rom_audit_globals
           (ini_of_lines ini_unknown_field) ini_unknown_field); reflexivity.
Defined.

Example Tempest_unknown_field_raises :
  audit_load_Tempest_INI rom_audit_globals (ini_of_lines ini_unknown_field)
  = Raise NameError.
Proof. vm_compute. reflexivity. Qed.

(** Field names are compared as they stand: blanks around the equals sign
    belong to the name and to the value. *)
Example Tempest_blank_before_equals :
  field_name_of (line "Publisher = Acme") = "Publisher " /\
  audit_load_Tempest_INI rom_audit_globals
    (ini_of_lines [line "[Alpha]"; line "Publisher = Acme"]) = Raise NameError.
Proof. split; vm_compute; reflexivity. Qed.

(** Field lines with known names keep the section open. *)
Lemma Tempest_loop_fields (fields : list string)
    (games : gmap string (gmap string string)) (game_key : string)
    (game : gmap string string) :
  Forall (fun l => is_assignment l /\ field_name_of l ∈ Tempest_fields) fields ->
  exists game', Tempest_loop fields (Reading games game_key game)
                = Ok (Reading games game_key game').
Proof.
  revert game. induction fields as [|l fields IH]; intros game Hall; simpl.
  - by exists game.
  - apply Forall_cons in Hall as [[Ha Hn] Hall].
    unfold Tempest_line. fold (stripped l).
    unfold is_assignment in Ha. rewrite bool_decide_eq_false_2 by done.
    destruct (Tempest_field_known (field_name_of l)
                (nth 1 (split "=" (stripped l)) "") game Hn) as [game' Hg].
    unfold field_name_of in Hg. rewrite Hg. simpl. apply IH, Hall.
Qed.

(** A line without an equals sign closes the open section and stores its
    record. *)
Lemma Tempest_line_closes (l : string) (games : gmap string (gmap string string))
    (game_key : string) (game : gmap string string) :
  ~ is_assignment l ->
  Tempest_line (Reading games game_key game) l
  = Ok (Seeking (<[game_key := game]> games)).
Proof.
  intros Ha. unfold Tempest_line. fold (stripped l).
  unfold is_assignment in Ha. rewrite bool_decide_eq_true_2; [done|].
  destruct (decide (length (split "=" (stripped l)) = 1%nat)); [done | contradiction].
Qed.

Lemma Tempest_field_ok_known (field_name field_value : string)
    (game game' : gmap string string) :
  Tempest_field field_name field_value game = Ok game' ->
  field_name ∈ Tempest_fields.
Proof.
  intros H. destruct (decide (field_name ∈ Tempest_fields)) as [|Hn]; [done|].
  assert (Tempest_field field_name field_value game = Raise NameError) as E
    by (by apply Tempest_field_raise).
  congruence.
Qed.

(** Every run that ends with a section open either started in that
    section and read only field lines, or reads a header after lines that
    leave no section open, and then only field lines. *)
Lemma Tempest_loop_ends_reading (file_lines : list string) (st0 : Tempest_state)
    (games : gmap string (gmap string string)) (game_key : string)
    (game : gmap string string) :
  Tempest_loop file_lines st0 = Ok (Reading games game_key game) ->
  (exists game0, st0 = Reading games game_key game0 /\
     Forall (fun l => is_assignment l /\ field_name_of l ∈ Tempest_fields) file_lines) \/
  (exists pre header fields,
     file_lines = pre ++ header :: fields /\
     Tempest_loop pre st0 = Ok (Seeking games) /\
     search_section (stripped header) = Some game_key /\
     Forall (fun l => is_assignment l /\ field_name_of l ∈ Tempest_fields) fields).
Proof.
  revert game. induction file_lines as [|x file_lines IH] using rev_ind; intros game.
  - simpl. intros [= ->]. left. by exists game.
  - rewrite Tempest_loop_app.
    destruct (Tempest_loop file_lines st0) as [st'|e] eqn:E; [|done].
    simpl. destruct (Tempest_line st' x) as [st''|e] eqn:Ex; [|done].
    simpl. intros [= ->]. unfold Tempest_line in Ex. fold (stripped x) in Ex.
    destruct st' as [g' | g' k' r'].
    + destruct (search_section (stripped x)) as [name|] eqn:Es; [|done].
      injection Ex as -> -> _. right. exists file_lines, x, [].
      repeat split; try done.
    + case_bool_decide as Hlen; [done|].
      destruct (Tempest_field _ _ r') as [r''|e] eqn:Ef; [|done].
      simpl in Ex. injection Ex as -> -> ->.
      assert (Hx : is_assignment x /\ field_name_of x ∈ Tempest_fields).
      { split; [done|]. by eapply Tempest_field_ok_known. }
      destruct (IH r' eq_refl) as [(game0 & -> & Hall) | (pre & h & fs & -> & Hpre & Hh & Hall)].
      * left. exists game0. split; [done|]. apply Forall_app. split; [done|].
        by constructor.
      * right. exists pre, h, (fs ++ [x]). split; [by rewrite <- app_assoc|].
        split; [done|]. split; [done|]. apply Forall_app. split; [done|].
        by constructor.
Qed.

(** C10: when the lines of the file end inside a section, that is, after
    lines that leave no section open come a section header and then only
    field lines with known names, the loader returns the games stored
    before the header: the record of the last section is not stored. *)
Theorem Tempest_open_section_dropped (globals : module_globals)
    (file_FN : ini_file) (pre fields : list string) (header name : string)
    (games : gmap string (gmap string string)) :
  ini_exists file_FN = true ->
  ini_open file_FN = Ok (pre ++ header :: fields) ->
  Tempest_loop pre (Seeking ∅) = Ok (Seeking games) ->
  search_section (stripped header) = Some name ->
  Forall (fun l => is_assignment l /\ field_name_of l ∈ Tempest_fields) fields ->
  audit_load_Tempest_INI globals file_FN = Ok games.
Proof.
  intros He Ho Hpre Hh Hf. unfold audit_load_Tempest_INI. rewrite He, Ho. simpl.
  rewrite Tempest_loop_app, Hpre. simpl.
  unfold Tempest_line. fold (stripped header). rewrite Hh. simpl.
  destruct (Tempest_loop_fields fields games name
              (<["name" := name]> audit_new_rom_GameDB) Hf) as [game' Hg].
  rewrite Hg. reflexivity.
Qed.

Lemma Tempest_open_section_dropped_witness :
  audit_load_Tempest_INI rom_audit_globals (ini_of_lines ini_open_section) = Ok ∅.
Proof.
  apply (Tempest_open_section_dropped rom_audit_globals
           (ini_of_lines ini_open_section) [] [line "Publisher=Acme"]
           (line "[Alpha]") "Alpha" ∅).
  - reflexivity.
  - reflexivity.
  - reflexivity.
  - reflexivity.
  - apply Forall_cons. split; [|constructor].
    split.
    + unfold is_assignment. vm_compute. discriminate.
    + vm_compute. apply list_elem_of_here.
Defined.

(** The same section followed by a blank line is stored. *)
Example Tempest_closed_section_kept :
  exists games,
    audit_load_Tempest_INI rom_audit_globals
      (ini_of_lines (ini_open_section ++ [line ""])) = Ok games /\
    is_Some (games !! "Alpha").
Proof. eexists. split; [vm_compute; reflexivity | vm_compute; eauto]. Qed.

End TempestFacts.

Module BiosFacts.
Import Py Utils RomAudit.

Lemma BIOS_rows_mednafen_psx :
  filter (fun entry => "mednafen_psx" ∈ bios_cores entry) Libretro_BIOS_list
  = [scph5500; scph5501; scph5502].
Proof. vm_compute. reflexivity. Qed.

Lemma audit_mednafen_psx (listing : list listed_file) :
  audit listing "mednafen_psx"
  = [(scph5500, bios_satisfied listing scph5500);
     (scph5501, bios_satisfied listing scph5501);
     (scph5502, bios_satisfied listing scph5502)].
Proof. unfold audit. rewrite BIOS_rows_mednafen_psx. reflexivity. Qed.

Lemma bios_satisfied_iff (listing : list listed_file) (entry : BIOS_entry) :
  bios_satisfied listing entry = true <->
  exists f, f ∈ listing /\ lf_filename f = bios_filename entry /\
            lf_size f = bios_size entry /\ lf_md5 f = bios_md5 entry.
Proof.
  unfold bios_satisfied, bios_matches. rewrite existsb_exists. split.
  - intros (f & Hin & H). apply andb_true_iff in H as [H H3].
    apply andb_true_iff in H as [H1 H2].
    apply bool_decide_eq_true in H1, H2, H3.
    exists f. split; [by apply list_elem_of_In | done].
  - intros (f & Hin & H1 & H2 & H3). exists f.
    split; [by apply list_elem_of_In|].
    rewrite !andb_true_iff, !bool_decide_eq_true. done.
Qed.

Lemma audit_scph5500_flag (listing : list listed_file) (b : bool) :
  (scph5500, b) ∈ audit listing "mednafen_psx" <-> b = bios_satisfied listing scph5500.
Proof.
  rewrite audit_mednafen_psx, !elem_of_cons, elem_of_nil. split.
  - intros [[= <-] | [[=] | [[=] | []]]]. done.
  - intros ->. by left.
Qed.

(** C9: the BIOS table holds the row [scph5500.bin] (size 524288, MD5
    8dd7d5296a650fac7319bce665a6a53c, mandatory, cores including
    mednafen_psx); the audit for the core [mednafen_psx] reports that row
    for every listing, satisfied exactly when the listing holds a file
    with that name, size and digest, and unsatisfied exactly when it holds
    none. *)
Theorem audit_mednafen_psx_scph5500 (listing : list listed_file) :
  scph5500 ∈ Libretro_BIOS_list /\
  bios_mandatory scph5500 = true /\
  ((scph5500, true) ∈ audit listing "mednafen_psx" <->
     exists f, f ∈ listing /\ lf_filename f = "scph5500.bin" /\
               lf_size f = 524288%Z /\
               lf_md5 f = "8dd7d5296a650fac7319bce665a6a53c") /\
  ((scph5500, false) ∈ audit listing "mednafen_psx" <->
     ~ exists f, f ∈ listing /\ lf_filename f = "scph5500.bin" /\
                 lf_size f = 524288%Z /\
                 lf_md5 f = "8dd7d5296a650fac7319bce665a6a53c").
Proof.
  split; [|split; [reflexivity|split]].
  - assert (H : scph5500 ∈ filter (fun entry => "mednafen_psx" ∈ bios_cores entry)
                             Libretro_BIOS_list).
    { rewrite BIOS_rows_mednafen_psx. apply list_elem_of_here. }
    by apply list_elem_of_filter in H as [_ H].
  - rewrite audit_scph5500_flag. rewrite <- (bios_satisfied_iff listing scph5500).
    split; congruence.
  - rewrite audit_scph5500_flag. rewrite <- (bios_satisfied_iff listing scph5500).
    destruct (bios_satisfied listing scph5500); split; congruence.
Qed.

Example audit_listing_with_scph5500 :
  (scph5500, true) ∈ audit listing_with_scph5500 "mednafen_psx".
Proof. apply audit_scph5500_flag. reflexivity. Qed.

Example audit_listing_without_scph5500 :
  (scph5500, false) ∈ audit listing_without_scph5500 "mednafen_psx".
Proof. apply audit_scph5500_flag. reflexivity. Qed.

End BiosFacts.

Module ChecksumFacts.
Import Py Hash Utils.
Local Open Scope Z_scope.

(** *** Hexadecimal digits *)

Lemma below_16 (f : Z -> bool) :
  forallb f (map Z.of_nat (seq 0 16)) = true ->
  forall d, 0 <= d < 16 -> f d = true.
Proof.
  intros H d Hd. rewrite forallb_forall in H. apply H.
  apply in_map_iff. exists (Z.to_nat d). split; [lia|]. apply in_seq. lia.
Qed.

Lemma hex_digit_upper_ok (d : Z) :
  0 <= d < 16 -> is_upper_hex (hex_digit true d) = true.
Proof. apply (below_16 (fun d => is_upper_hex (hex_digit true d))). reflexivity. Qed.

Lemma upper_hex_digit_lower (d : Z) :
  0 <= d < 16 -> is_upper_hex (upper_char (hex_digit false d)) = true.
Proof.
  apply (below_16 (fun d => is_upper_hex (upper_char (hex_digit false d)))).
  reflexivity.
Qed.

Lemma upper_char_upper_hex (c : ascii) :
  is_upper_hex c = true -> upper_char c = c.
Proof.
  unfold is_upper_hex, upper_char. intros H.
  destruct ((97 <=? nat_of_ascii c)%nat && (nat_of_ascii c <=? 122)%nat) eqn:E; [|done].
  exfalso. apply andb_true_iff in E as [E1 E2].
  apply Nat.leb_le in E1. apply orb_true_iff in H as [H | H];
    apply andb_true_iff in H as [_ H]; apply Nat.leb_le in H; lia.
Qed.

Lemma length_string_of_list (l : list ascii) :
  String.length (string_of_list_ascii l) = length l.
Proof. induction l as [|c l IH]; simpl; congruence. Qed.

Lemma all_chars_string_of_list (P : ascii -> bool) (l : list ascii) :
  all_chars P (string_of_list_ascii l) = forallb P l.
Proof. induction l as [|c l IH]; simpl; congruence. Qed.

Lemma length_upper (s : string) : String.length (upper s) = String.length s.
Proof. induction s as [|c s IH]; simpl; congruence. Qed.

(** The digits of a number below [16^k] are at most [k], all of them
    upper-case hexadecimal digits. *)
Lemma hex_digits_upper_bound (fuel : nat) :
  forall (n : Z) (k : nat), (1 <= k)%nat -> 0 <= n < 16 ^ Z.of_nat k ->
    (length (hex_digits_upper fuel n) <= k)%nat /\
    forallb is_upper_hex (hex_digits_upper fuel n) = true.
Proof.
  induction fuel as [|fuel IH]; intros n k Hk Hn; simpl.
  - split; [lia | done].
  - destruct (n <? 16) eqn:E.
    + apply Z.ltb_lt in E. simpl. split; [lia|].
      rewrite hex_digit_upper_ok by lia. done.
    + apply Z.ltb_ge in E.
      destruct k as [|[|k]]; [lia | simpl in Hn; lia |].
      assert (Hdiv : 0 <= n / 16 < 16 ^ Z.of_nat (S k)).
      { split; [apply Z.div_pos; lia|].
        apply Z.div_lt_upper_bound; [lia|].
        replace (Z.of_nat (S (S k))) with (Z.of_nat (S k) + 1) in Hn by lia.
        rewrite Z.pow_add_r in Hn by lia. lia. }
      destruct (IH (n / 16) (S k) ltac:(lia) Hdiv) as [Hlen Hall].
      rewrite length_app, forallb_app. simpl. split; [lia|].
      rewrite Hall, hex_digit_upper_ok; [done|].
      apply Z.mod_pos_bound. lia.
Qed.

Lemma format_08X_32bit (n : Z) :
  0 <= n < 2 ^ 32 -> upper_hex_of_length 8 (format_08X n).
Proof.
  intros Hn. unfold upper_hex_of_length, format_08X.
  destruct (hex_digits_upper_bound (S (Z.to_nat (Z.log2 n))) n 8 ltac:(lia))
    as [Hlen Hall].
  { change (16 ^ Z.of_nat 8) with (2 ^ 32). lia. }
  rewrite length_string_of_list, all_chars_string_of_list, length_app,
    forallb_app, repeat_length, Hall.
  split; [lia|]. rewrite andb_true_r.
  generalize (8 - length (hex_digits_upper (S (Z.to_nat (Z.log2 n))) n))%nat.
  intros m. induction m as [|m IH]; simpl; [done | exact IH].
Qed.

Lemma upper_of_upper_hex (s : string) :
  all_chars is_upper_hex s = true -> upper s = s.
Proof.
  induction s as [|c s IH]; simpl; [done|].
  intros H. apply andb_true_iff in H as [Hc Hs].
  by rewrite (upper_char_upper_hex c Hc), (IH Hs).
Qed.

(** [hexdigest] then [upper]: two upper-case digits per byte. *)
Lemma upper_hexdigest (digest : list Z) :
  Forall (fun b => 0 <= b < 256) digest ->
  upper_hex_of_length (2 * length digest) (upper (hexdigest digest)).
Proof.
  unfold upper_hex_of_length, hexdigest. intros Hall.
  induction Hall as [|b digest Hb Hall [IHlen IHall]]; [done|].
  cbn [flat_map app string_of_list_ascii upper String.length all_chars length].
  split.
  - rewrite IHlen. lia.
  - rewrite IHall, !upper_hex_digit_lower; [done | |].
    + apply Z.mod_pos_bound. lia.
    + split; [apply Z.div_pos; lia | apply Z.div_lt_upper_bound; lia].
Qed.

Lemma bytes_le_range (n : nat) (w : Z) :
  Forall (fun b => 0 <= b < 256) (bytes_le n w) /\ length (bytes_le n w) = n.
Proof.
  unfold bytes_le. split.
  - apply Forall_map, Forall_forall. intros i _. apply Z.mod_pos_bound. lia.
  - by rewrite length_map, length_seq.
Qed.

Lemma bytes_be_range (n : nat) (w : Z) :
  Forall (fun b => 0 <= b < 256) (bytes_be n w) /\ length (bytes_be n w) = n.
Proof.
  unfold bytes_be. destruct (bytes_le_range n w) as [H1 H2]. split.
  - by apply Forall_rev.
  - by rewrite length_rev.
Qed.

Lemma md5_digest_range (msg : list Z) :
  Forall (fun b => 0 <= b < 256) (md5_digest msg) /\ length (md5_digest msg) = 16%nat.
Proof.
  unfold md5_digest.
  destruct (fold_left md5_block _ md5_init) as [[[a b] c] d].
  split.
  - rewrite !Forall_app. repeat split; apply bytes_le_range.
  - rewrite !length_app. by rewrite !(proj2 (bytes_le_range 4 _)).
Qed.

Lemma sha1_digest_range (msg : list Z) :
  Forall (fun b => 0 <= b < 256) (sha1_digest msg) /\ length (sha1_digest msg) = 20%nat.
Proof.
  unfold sha1_digest.
  destruct (fold_left sha1_block _ sha1_init) as [[[[h0 h1] h2] h3] h4].
  split.
  - rewrite !Forall_app. repeat split; apply bytes_be_range.
  - rewrite !length_app. by rewrite !(proj2 (bytes_be_range 4 _)).
Qed.

(** *** Reading the file *)

Lemma take_drop_chars (n : nat) (s : string) :
  take_chars n s +:+ drop_chars n s = s.
Proof.
  revert s. induction n as [|n IH]; intros [|c s]; try done.
  cbn [take_chars drop_chars]. change (String c (take_chars n s) +:+ drop_chars n s)
    with (String c (take_chars n s +:+ drop_chars n s)). by rewrite IH.
Qed.

Lemma length_drop_chars (n : nat) (s : string) :
  String.length (drop_chars n s) = (String.length s - n)%nat.
Proof. revert s. induction n as [|n IH]; intros [|c s]; simpl; auto. Qed.

Lemma length_take_chars (n : nat) (s : string) :
  (String.length (take_chars n s) <= n)%nat.
Proof.
  revert s. induction n as [|n IH]; intros [|c s]; simpl; try lia.
  specialize (IH s). lia.
Qed.

Lemma chunk_size_pos : (0 < chunk_size)%nat.
Proof. unfold chunk_size. lia. Qed.

(** When no read fails, the generator stops before the fuel is used up,
    and the pieces it yields, none of them empty nor longer than the chunk
    size, make up the content of the file. *)
Lemma read_in_chunks_complete (fuel : nat) :
  forall data : string, (String.length data < fuel)%nat ->
  exists pieces,
    read_in_chunks fuel {| fo_data := data; fo_reads_left := None |} = Ok pieces /\
    concat_tokens pieces = data /\
    Forall (fun piece => piece <> EmptyString /\
                         (String.length piece <= chunk_size)%nat) pieces.
Proof.
  induction fuel as [|fuel IH]; intros data Hlen; [lia|].
  cbn [read_in_chunks file_read fo_reads_left fo_data fmap option_fmap option_map
       mbind result_bind bind].
  destruct (take_chars chunk_size data) as [|c piece] eqn:E.
  - exists []. split; [done|]. split; [|constructor].
    pose proof chunk_size_pos as Hpos.
    destruct chunk_size as [|n]; [lia|]. destruct data; [done | discriminate].
  - assert (Hdata : data <> EmptyString).
    { intros ->. by destruct chunk_size. }
    destruct (IH (drop_chars chunk_size data)) as (pieces & Hr & Hc & Hall).
    { rewrite length_drop_chars. pose proof chunk_size_pos.
      destruct data; [done | simpl in *; lia]. }
    exists (String c piece :: pieces). rewrite Hr. split; [done|]. split.
    + cbn [concat_tokens fold_right]. fold (concat_tokens pieces).
      rewrite Hc, <- E. apply take_drop_chars.
    + constructor; [|done]. split; [done|]. rewrite <- E. apply length_take_chars.
Qed.

Lemma bytes_of_app (a b : string) : bytes_of (a +:+ b) = bytes_of a ++ bytes_of b.
Proof.
  unfold bytes_of. induction a as [|c a IH]; simpl; [done|]. by rewrite IH.
Qed.

(** Feeding the pieces one by one digests the whole content. *)
Lemma hash_update_pieces (pieces : list string) (message : list Z) :
  fold_left hash_update pieces message
  = message ++ bytes_of (concat_tokens pieces).
Proof.
  revert message. induction pieces as [|piece pieces IH]; intros message; simpl.
  - by rewrite app_nil_r.
  - rewrite IH. unfold hash_update. by rewrite bytes_of_app, app_assoc.
Qed.

(** On a readable file the digests are those of the whole content and
    the size is the one the file system reports. *)
Lemma checksums_of_readable_file (fs : file_system) (path content : string) (n : Z) :
  fs_open (fs path) = Ok {| fo_data := content; fo_reads_left := None |} ->
  fs_getsize (fs path) = Ok n ->
  exists c, misc_calculate_checksums fs path = Ok (Some c) /\
    md5 c = upper (hexdigest (md5_digest (bytes_of content))) /\
    sha1 c = upper (hexdigest (sha1_digest (bytes_of content))) /\
    size c = n.
Proof.
  intros Ho Hs. unfold misc_calculate_checksums, checksums_try, misc_read_in_chunks.
  rewrite Ho, Hs. cbn [mbind result_bind bind mret result_ret fo_data].
  destruct (read_in_chunks_complete (S (String.length content)) content ltac:(lia))
    as (pieces & Hr & Hc & _).
  rewrite Hr. eexists. split; [reflexivity|].
  cbn [md5 sha1 size]. rewrite !hash_update_pieces, Hc. done.
Qed.

(** *** The checksum record *)

Lemma checksums_format (fs : file_system) (path : string) (c : checksums) :
  misc_calculate_checksums fs path = Ok (Some c) ->
  upper_hex_of_length 8 (crc c) /\ upper_hex_of_length 32 (md5 c) /\
  upper_hex_of_length 40 (sha1 c) /\ fs_getsize (fs path) = Ok (size c).
Proof.
  unfold misc_calculate_checksums, checksums_try.
  destruct (fs_open (fs path)) as [f|e]; [|discriminate].
  cbn [mbind result_bind bind].
  destruct (misc_read_in_chunks f) as [pieces|e]; [|discriminate].
  destruct (fs_getsize (fs path)) as [n|e]; [|discriminate].
  cbn [mret result_ret]. intros [= <-]. cbn [crc md5 sha1 size].
  split; [|split; [|split; [|done]]].
  - assert (H : upper_hex_of_length 8 (format_08X
      (Z.land (fold_left (fun crc_prev piece => crc32 piece crc_prev) pieces 0)
              0xFFFFFFFF))).
    { apply format_08X_32bit. split.
      - apply Z.land_nonneg. right. lia.
      - change 0xFFFFFFFF with (Z.ones 32). rewrite Z.land_ones by lia.
        apply Z.mod_pos_bound. lia. }
    destruct H as [Hlen Hall]. by rewrite (upper_of_upper_hex _ Hall).
  - destruct (md5_digest_range (fold_left hash_update pieces [])) as [Hr Hl].
    pose proof (upper_hexdigest _ Hr) as H. by rewrite Hl in H.
  - destruct (sha1_digest_range (fold_left hash_update pieces [])) as [Hr Hl].
    pose proof (upper_hexdigest _ Hr) as H. by rewrite Hl in H.
Qed.

(** C8: [misc_calculate_checksums] never raises, and returns [None]
    exactly when opening the file, one of the reads or the size query
    fails; for a file holding the 11 bytes [hello world] it returns
    CRC 0D4A1185, MD5 5EB63BBBE01EEED093CB22BB8F5ACDC3, SHA-1
    2AAE6C35C94FCFB415DBE95F408B9CE91EE846ED and size 11; and every record it
    returns holds 8, 32 and 40 upper-case hexadecimal digits and the size
    the file system reports. *)
Theorem checksums_soft_failure_and_format :
  (forall fs path, exists r,
     misc_calculate_checksums fs path = Ok r /\ (r = None <-> io_failure fs path)) /\
  (forall path,
     misc_calculate_checksums (fs_with_file path "hello world") path
     = Ok (Some hello_world_checksums)) /\
  (forall fs path c, misc_calculate_checksums fs path = Ok (Some c) ->
     upper_hex_of_length 8 (crc c) /\ upper_hex_of_length 32 (md5 c) /\
     upper_hex_of_length 40 (sha1 c) /\ fs_getsize (fs path) = Ok (size c)).
Proof.
  split; [|split].
  - intros fs path. unfold misc_calculate_checksums, checksums_try, io_failure.
    destruct (fs_open (fs path)) as [f|e].
    + cbn [mbind result_bind bind].
      destruct (misc_read_in_chunks f) as [pieces|e] eqn:Er.
      * destruct (fs_getsize (fs path)) as [n|e]; cbn [mret result_ret].
        -- eexists. split; [reflexivity|]. split; [discriminate|].
           intros [[e [=]] | [(f' & e & [= <-] & Hr) | [e [=]]]]. congruence.
        -- exists None. split; [reflexivity|]. split; [|done].
           intros _. right. right. by exists e.
      * exists None. split; [reflexivity|]. split; [|done].
        intros _. right. left. by exists f, e.
    + exists None. split; [reflexivity|]. split; [|done].
      intros _. left. by exists e.
  - intros path. unfold misc_calculate_checksums, checksums_try, fs_with_file.
    rewrite bool_decide_eq_true_2 by done. vm_compute. reflexivity.
  - apply checksums_format.
Qed.

End ChecksumFacts.

Module TextProps1.
Import Py Utils StringFacts TextProps.
#[local] Arguments String.append : simpl nomatch.

Lemma all_chars_append (P : ascii -> bool) (a b : string) :
  all_chars P (a +:+ b) = all_chars P a && all_chars P b.
Proof. induction a as [|c a IH]; simpl; [done|]. by rewrite IH, andb_assoc. Qed.

Lemma escape_char_no_raw (c : ascii) :
  all_chars (fun x => negb (is_raw_xml_char x)) (escape_char c) = true.
Proof. by_char c; reflexivity. Qed.

(** X1: the text [text_escape_XML] returns holds none of the characters
    [<], [>], the two quotes, line feed, carriage return and tab, whatever
    the input. *)
Theorem text_escape_XML_no_raw_char (s : string) :
  all_chars (fun x => negb (is_raw_xml_char x)) (text_escape_XML s) = true.
Proof.
  rewrite TextFacts.text_escape_XML_chars.
  induction s as [|c s IH]; [done|].
  cbn [concat_map]. by rewrite all_chars_append, escape_char_no_raw, IH.
Qed.

(** X2: a text in which none of [&#10;], [&#13;] and [&#9;] occurs as it
    stands is unchanged by [text_escape_XML] followed by
    [text_unescape_XML]. *)
Theorem unescape_escape_identity (s : string) :
  no_numeric_entity s = true ->
  text_unescape_XML (text_escape_XML s) = s.
Proof. apply TextFacts.unescape_escape_roundtrip. Qed.

Lemma unescape_escape_identity_witness :
  no_numeric_entity ("R&D <b>'x'</b> &amp; &#1" +:+ str_quot +:+ str_LF +:+ str_TAB) = true /\
  text_unescape_XML
    (text_escape_XML ("R&D <b>'x'</b> &amp; &#1" +:+ str_quot +:+ str_LF +:+ str_TAB))
  = "R&D <b>'x'</b> &amp; &#1" +:+ str_quot +:+ str_LF +:+ str_TAB.
Proof.
  split; [reflexivity|].
  apply (unescape_escape_identity
           ("R&D <b>'x'</b> &amp; &#1" +:+ str_quot +:+ str_LF +:+ str_TAB)).
  reflexivity.
Defined.

(** *** Stripping *)

Lemma lstrip_head (sp : ascii -> bool) (s : string) : head_kept sp (lstrip sp s).
Proof.
  induction s as [|c s IH]; simpl; [done|].
  destruct (sp c) eqn:E; [done | simpl; done].
Qed.

Lemma lstrip_id (sp : ascii -> bool) (s : string) :
  head_kept sp s -> lstrip sp s = s.
Proof. destruct s as [|c s]; simpl; [done|]. by intros ->. Qed.

Lemma rstrip_head (sp : ascii -> bool) (s : string) :
  head_kept sp s -> head_kept sp (rstrip sp s).
Proof.
  destruct s as [|c s]; simpl; [done|]. intros Hc.
  destruct (rstrip sp s); [by rewrite Hc | done].
Qed.

Lemma rstrip_idem (sp : ascii -> bool) (s : string) :
  rstrip sp (rstrip sp s) = rstrip sp s.
Proof.
  induction s as [|c s IH]; simpl; [done|].
  destruct (rstrip sp s) as [|c' r] eqn:E.
  - destruct (sp c) eqn:Ec; simpl; [done | by rewrite Ec].
  - cbn [rstrip]. cbn [rstrip] in IH. by rewrite IH.
Qed.

Lemma strip_idem (sp : ascii -> bool) (s : string) :
  strip sp (strip sp s) = strip sp s.
Proof.
  unfold strip.
  rewrite (lstrip_id sp (rstrip sp (lstrip sp s))).
  - apply rstrip_idem.
  - apply rstrip_head, lstrip_head.
Qed.

(** X3: no token returned by [text_get_ROM_basename_tokens] is empty or a
    lone hyphen, and every token is stripped of white space at both
    ends. *)
Theorem basename_tokens_clean (basename_str token : string) :
  token ∈ text_get_ROM_basename_tokens basename_str ->
  token <> EmptyString /\ token <> "-" /\ strip is_space_unicode token = token.
Proof.
  unfold text_get_ROM_basename_tokens. intros H.
  apply list_elem_of_filter in H as [Hdash H].
  apply list_elem_of_filter in H as [Hne H].
  split; [done|]. split; [done|].
  apply list_elem_of_In, in_map_iff in H as (raw & <- & _).
  apply strip_idem.
Qed.

Lemma basename_tokens_clean_witness :
  "(USA)" <> EmptyString /\ "(USA)" <> "-" /\ strip is_space_unicode "(USA)" = "(USA)".
Proof.
  apply (basename_tokens_clean "Metal Gear - (USA) (Disc 2)" "(USA)").
  vm_compute. apply list_elem_of_further, list_elem_of_here.
Defined.

(** *** Multi-disc detection *)

Lemma find_disc_token_none (tokens rest : list string) (index : nat) :
  find_disc_token tokens rest index = None <->
  forall token, token ∈ rest -> ~ is_disc_token token.
Proof.
  revert index. induction rest as [|t rest IH]; intros index; simpl.
  - split; [|done]. intros _ token H. inversion H.
  - destruct (match_redump t) as [g|] eqn:E1.
    { split; [done|]. intros H. exfalso. apply (H t); [apply list_elem_of_here|].
      left. rewrite E1. by eexists. }
    destruct (match_tosec t) as [g|] eqn:E2.
    { split; [done|]. intros H. exfalso. apply (H t); [apply list_elem_of_here|].
      right. rewrite E2. by eexists. }
    rewrite IH. split.
    + intros H token Hin. apply elem_of_cons in Hin as [-> | Hin]; [|by apply H].
      intros [[g Hg] | [g Hg]]; congruence.
    + intros H token Hin. apply H. by apply list_elem_of_further.
Qed.

(** X4: [text_get_multidisc_info] raises [AttributeError] exactly when a
    token of the base name is a disc token; otherwise it returns the record
    of a single disc. It never returns a record with [isMultiDisc] set. *)
Theorem multidisc_info_cases (ROM_FN : FileName) :
  (text_get_multidisc_info ROM_FN = Raise AttributeError <->
     exists token,
       token ∈ text_get_ROM_basename_tokens (getBaseNoExt ROM_FN) /\
       is_disc_token token) /\
  (forall info, text_get_multidisc_info ROM_FN = Ok info ->
     info = single_disc_info ROM_FN /\
     forall token, token ∈ text_get_ROM_basename_tokens (getBaseNoExt ROM_FN) ->
                   ~ is_disc_token token).
Proof.
  set (tokens := text_get_ROM_basename_tokens (getBaseNoExt ROM_FN)).
  assert (Heq : text_get_multidisc_info ROM_FN =
                match find_disc_token tokens tokens 0 with
                | Some _ => Raise AttributeError
                | None => Ok (single_disc_info ROM_FN)
                end).
  { unfold text_get_multidisc_info, MultiDiscInfo_init.
    change (call_method ROM_FN "getBase") with (Ok (getBase ROM_FN)).
    change (call_method ROM_FN "getExt") with (Ok (getExt ROM_FN)).
    change (call_method ROM_FN "getBaseNoExt") with (Ok (getBaseNoExt ROM_FN)).
    change (call_method ROM_FN "getBase_noext") with (@Raise string AttributeError).
    unfold mbind, result_bind, mret, result_ret, bind. fold tokens.
    by destruct (find_disc_token tokens tokens 0) as [[? ?]|]. }
  rewrite Heq.
  destruct (find_disc_token tokens tokens 0) as [found|] eqn:E.
  - split; [|done]. split; [intros _ | done].
    destruct (decide (Forall (fun t => match_redump t = None /\ match_tosec t = None)
                             tokens)) as [Hall | Hex].
    + assert (find_disc_token tokens tokens 0 = None) as E'.
      { apply find_disc_token_none. intros token Hin.
        rewrite Forall_forall in Hall. destruct (Hall token Hin) as [H1 H2].
        intros [[g Hg] | [g Hg]]; congruence. }
      congruence.
    + apply not_Forall_Exists in Hex; [|apply _].
      apply Exists_exists in Hex as (token & Hin & Hn). exists token. split; [done|].
      destruct (match_redump token) eqn:E1; [left; by eexists|].
      destruct (match_tosec token) eqn:E2; [right; by eexists|].
      by destruct Hn.
  - pose proof (proj1 (find_disc_token_none tokens tokens 0) E) as E'. split.
    + split; [done|]. intros (token & Hin & Hd). by destruct (E' token Hin).
    + intros info [= <-]. done.
Qed.

End TextProps1.

Module ChecksumProps.
Import Py Hash Utils StringFacts.
Local Open Scope Z_scope.
#[local] Arguments String.append : simpl nomatch.

(** *** The running CRC *)

Lemma lt_pow2_lxor (a b n : Z) :
  0 <= n -> 0 <= a < 2 ^ n -> 0 <= b < 2 ^ n -> 0 <= Z.lxor a b < 2 ^ n.
Proof.
  intros Hn Ha Hb. split; [apply Z.lxor_nonneg; lia|].
  destruct (Z.eq_dec (Z.lxor a b) 0) as [->|Hne]; [apply Z.pow_pos_nonneg; lia|].
  assert (Hpos : 0 < Z.lxor a b) by (pose proof (proj2 (Z.lxor_nonneg a b)); lia).
  assert (Hn0 : 0 < n).
  { destruct (Z.eq_dec n 0) as [->|]; [|lia]. exfalso. apply Hne.
    assert (a = 0) as -> by lia. assert (b = 0) as -> by lia. done. }
  apply Z.log2_lt_pow2; [done|].
  pose proof (Z.log2_lxor a b ltac:(lia) ltac:(lia)) as Hl.
  assert (Z.log2 a < n).
  { destruct (Z.eq_dec a 0) as [->|]; [simpl; lia|]. apply Z.log2_lt_pow2; lia. }
  assert (Z.log2 b < n).
  { destruct (Z.eq_dec b 0) as [->|]; [simpl; lia|]. apply Z.log2_lt_pow2; lia. }
  lia.
Qed.

Lemma crc32_bit_range (c : Z) : 0 <= c < 2 ^ 32 -> 0 <= crc32_bit c < 2 ^ 32.
Proof.
  intros Hc. unfold crc32_bit.
  assert (Hs : 0 <= Z.shiftr c 1 < 2 ^ 32).
  { rewrite Z.shiftr_div_pow2 by lia. split; [apply Z.div_pos; lia|].
    apply Z.div_lt_upper_bound; lia. }
  destruct (Z.testbit c 0); [|done].
  apply lt_pow2_lxor; lia.
Qed.

Lemma crc32_byte_range (c b : Z) :
  0 <= c < 2 ^ 32 -> 0 <= b < 256 -> 0 <= crc32_byte c b < 2 ^ 32.
Proof.
  intros Hc Hb. unfold crc32_byte.
  do 8 apply crc32_bit_range. apply lt_pow2_lxor; lia.
Qed.

Lemma bytes_of_range (s : string) : Forall (fun b => 0 <= b < 256) (bytes_of s).
Proof.
  unfold bytes_of. apply Forall_map, Forall_forall. intros c _.
  pose proof (nat_ascii_bounded c). lia.
Qed.

Lemma crc32_fold_range (bs : list Z) (c : Z) :
  Forall (fun b => 0 <= b < 256) bs -> 0 <= c < 2 ^ 32 ->
  0 <= fold_left crc32_byte bs c < 2 ^ 32.
Proof.
  intros Hbs. revert c. induction Hbs as [|b bs Hb _ IH]; intros c Hc; simpl; [done|].
  apply IH. by apply crc32_byte_range.
Qed.

Lemma wrap32_signed (r : Z) :
  0 <= r < 2 ^ 32 -> wrap32 (if r <? 2 ^ 31 then r else r - 2 ^ 32) = r.
Proof.
  intros Hr. unfold wrap32. destruct (r <? 2 ^ 31) eqn:E.
  - apply Z.mod_small. lia.
  - apply Z.ltb_ge in E. symmetry. apply (Z.mod_unique _ _ (-1)); lia.
Qed.

Lemma lxor_twice (c m : Z) : Z.lxor (Z.lxor c m) m = c.
Proof. by rewrite Z.lxor_assoc, Z.lxor_nilpotent, Z.lxor_0_r. Qed.

(** The checksum of a text from the checksum of its first part: the
    running value carries all that is needed. *)
Lemma crc32_app (a b : string) (value : Z) :
  crc32 b (crc32 a value) = crc32 (a +:+ b) value.
Proof.
  unfold crc32 at 1 3.
  rewrite ChecksumFacts.bytes_of_app, fold_left_app.
  set (ca := fold_left crc32_byte (bytes_of a) (Z.lxor (wrap32 value) 0xFFFFFFFF)).
  assert (Hca : 0 <= ca < 2 ^ 32).
  { apply crc32_fold_range; [apply bytes_of_range|].
    apply lt_pow2_lxor; [lia | | lia].
    unfold wrap32. apply Z.mod_pos_bound. lia. }
  assert (Hr : 0 <= Z.lxor ca 0xFFFFFFFF < 2 ^ 32) by (apply lt_pow2_lxor; lia).
  unfold crc32. fold ca.
  cbv zeta. rewrite (wrap32_signed _ Hr), lxor_twice. done.
Qed.

Lemma append_nil_r (a : string) : a +:+ EmptyString = a.
Proof. induction a as [|c a IH]; simpl; [done | by rewrite IH]. Qed.

Lemma crc32_pieces (pieces : list string) (a : string) :
  fold_left (fun crc_prev piece => crc32 piece crc_prev) pieces (crc32 a 0)
  = crc32 (a +:+ concat_tokens pieces) 0.
Proof.
  revert a. induction pieces as [|piece pieces IH]; intros a; simpl.
  - by rewrite append_nil_r.
  - rewrite crc32_app, IH.
    change (concat_tokens (piece :: pieces)) with (piece +:+ concat_tokens pieces).
    by rewrite append_assoc.
Qed.

Lemma crc32_empty : crc32 EmptyString 0 = 0.
Proof. reflexivity. Qed.

Lemma crc32_pieces_from_zero (pieces : list string) :
  fold_left (fun crc_prev piece => crc32 piece crc_prev) pieces 0
  = crc32 (concat_tokens pieces) 0.
Proof.
  pose proof (crc32_pieces pieces EmptyString) as H.
  rewrite crc32_empty in H. exact H.
Qed.

Lemma bind_ok {A B : Type} (a : A) (k : A -> result B) : (x ← Ok a; k x) = k a.
Proof. reflexivity. Qed.

(** The [try] block on a readable file, in terms of the pieces read. *)
Lemma checksums_try_readable (fs : file_system) (path content : string) (n : Z)
    (pieces : list string) :
  fs_open (fs path) = Ok {| fo_data := content; fo_reads_left := None |} ->
  fs_getsize (fs path) = Ok n ->
  misc_read_in_chunks {| fo_data := content; fo_reads_left := None |} = Ok pieces ->
  checksums_try fs path =
  Ok (format_08X
        (Z.land (fold_left (fun crc_prev piece => crc32 piece crc_prev) pieces 0)
                0xFFFFFFFF),
      hexdigest (md5_digest (fold_left hash_update pieces [])),
      hexdigest (sha1_digest (fold_left hash_update pieces [])), n).
Proof.
  intros Ho Hs Hr. unfold checksums_try.
  rewrite Ho, bind_ok, Hr, bind_ok. cbv zeta. rewrite Hs, bind_ok. reflexivity.
Qed.

(** X5: on a file that opens and reads without failure the three digests
    are those of the whole content, whatever the number of pieces it is read
    in, the CRC being masked to 32 bits and all three written in upper-case
    hexadecimal, and the size is the one the file system reports. *)
Theorem checksums_whole_content (fs : file_system) (path content : string) (n : Z) :
  fs_open (fs path) = Ok {| fo_data := content; fo_reads_left := None |} ->
  fs_getsize (fs path) = Ok n ->
  misc_calculate_checksums fs path =
  Ok (Some {| crc := upper (format_08X (Z.land (crc32 content 0) 0xFFFFFFFF));
              md5 := upper (hexdigest (md5_digest (bytes_of content)));
              sha1 := upper (hexdigest (sha1_digest (bytes_of content)));
              size := n |}).
Proof.
  intros Ho Hs.
  destruct (ChecksumFacts.read_in_chunks_complete
              (S (String.length content)) content ltac:(lia))
    as (pieces & Hr & Hc & _).
  unfold misc_calculate_checksums.
  rewrite (checksums_try_readable fs path content n pieces Ho Hs Hr).
  rewrite !ChecksumFacts.hash_update_pieces, crc32_pieces_from_zero, Hc, !app_nil_l.
  reflexivity.
Qed.

Lemma checksums_whole_content_witness :
  misc_calculate_checksums (fs_with_file "/roms/a.bin" "hello world") "/roms/a.bin" =
  Ok (Some {| crc := upper (format_08X (Z.land (crc32 "hello world" 0) 0xFFFFFFFF));
              md5 := upper (hexdigest (md5_digest (bytes_of "hello world")));
              sha1 := upper (hexdigest (sha1_digest (bytes_of "hello world")));
              size := 11 |}).
Proof.
  apply (checksums_whole_content (fs_with_file "/roms/a.bin" "hello world")
           "/roms/a.bin" "hello world" 11); reflexivity.
Defined.

End ChecksumProps.

Module PCloneProps.
Import Py Utils RomAudit RomAuditMore PCloneFacts.

Lemma parents_step_lookup dic name m n :
  parents_step dic (name, m) !! n =
  if decide (rom_cloneof m <> "" /\ name = n) then Some (rom_cloneof m) else dic !! n.
Proof.
  unfold parents_step; simpl. case_bool_decide as Hc.
  - rewrite lookup_insert. destruct (decide (name = n)) as [->|Hn].
    + by rewrite decide_True.
    + rewrite decide_False; [done|]. by intros [_ ?].
  - rewrite decide_False; [done|]. by intros [? _].
Qed.

(** The clone-to-parent entries after the loop has run over [items]. *)
Lemma parents_loop_lookup (items : list (string * rom_logiqx)) (n p : string) :
  NoDup items.*1 ->
  foldl parents_step ∅ items !! n = Some p <->
  exists m, (n, m) ∈ items /\ rom_cloneof m = p /\ p <> "".
Proof.
  induction items as [|[name m] items IH] using rev_ind; intros Hnd.
  - simpl. rewrite lookup_empty. split; [done|]. intros (m & H & _). inversion H.
  - rewrite fmap_app in Hnd. apply NoDup_app in Hnd as (Hnd & Hfresh & _).
    assert (Hnot : forall m', (name, m') ∉ items).
    { intros m' Hin. apply (Hfresh name).
      - apply list_elem_of_fmap. by exists (name, m').
      - simpl. apply list_elem_of_here. }
    rewrite foldl_app. simpl. rewrite parents_step_lookup.
    setoid_rewrite elem_of_snoc. case_decide as Hd.
    + destruct Hd as [Hc <-]. split.
      * intros [= <-]. exists m. auto.
      * intros (m' & [Hin | [= <-]] & E & _); [by destruct (Hnot m') | by rewrite E].
    + rewrite (IH Hnd). split.
      * intros (m' & Hin & E & Hp). exists m'. auto.
      * intros (m' & [Hin | [= -> ->]] & E & Hp); [by exists m'|].
        destruct Hd. split; [by rewrite E | done].
Qed.

(** X6: the clone-to-parent dictionary has an entry for a name exactly
    when the catalogue has a record of that name with a [cloneof] that is
    not empty, and the entry is that [cloneof]; parents and records without
    parent have no entry. *)
Theorem parents_dic_lookup (cat : gmap string rom_logiqx) (n p : string) :
  audit_make_NoIntro_Parents_dic cat !! n = Some p <->
  exists m, cat !! n = Some m /\ rom_cloneof m = p /\ p <> "".
Proof.
  unfold audit_make_NoIntro_Parents_dic.
  rewrite parents_loop_lookup by apply NoDup_fst_map_to_list.
  by setoid_rewrite elem_of_map_to_list.
Qed.

(** X7: the two dictionaries built from one catalogue agree: a name is in
    the clone list stored under [p] exactly when the clone-to-parent
    dictionary sends it to [p]. *)
Theorem pclone_parents_agree (cat : gmap string rom_logiqx) (n p : string) :
  (exists l, audit_make_NoIntro_PClone_dic cat !! p = Some l /\ n ∈ l) <->
  audit_make_NoIntro_Parents_dic cat !! n = Some p.
Proof.
  unfold audit_make_NoIntro_Parents_dic.
  rewrite parents_loop_lookup by apply NoDup_fst_map_to_list.
  destruct (audit_make_NoIntro_PClone_dic_inv cat) as [Hk Hc _]. split.
  - intros (l & Hl & Hin). by apply (Hc p l n Hl).
  - intros (m & Hin & E & Hp).
    assert (Hs : is_Some (audit_make_NoIntro_PClone_dic cat !! p)).
    { apply Hk. right. by exists n, m. }
    destruct Hs as [l Hl]. exists l. split; [done|].
    apply (Hc p l n Hl). by exists m.
Qed.

(** X8: the order in which the records of the catalogue are visited does
    not matter: two enumerations of the same records give dictionaries
    with the same keys and, under each key, the same clones up to their
    order in the list. *)
Theorem pclone_order_independent (items1 items2 : list (string * rom_logiqx))
    (k : string) :
  NoDup items1.*1 -> items1 ≡ₚ items2 ->
  same_clones (pclone_loop items1) (pclone_loop items2) k.
Proof.
  intros Hnd Hp.
  assert (Hnd2 : NoDup items2.*1) by (by rewrite <- Hp).
  destruct (pclone_loop_inv items1 Hnd) as [Hk1 Hc1 Hn1].
  destruct (pclone_loop_inv items2 Hnd2) as [Hk2 Hc2 Hn2].
  assert (Hkeys : is_Some (pclone_loop items1 !! k) <-> is_Some (pclone_loop items2 !! k)).
  { rewrite Hk1, Hk2. by setoid_rewrite Hp. }
  unfold same_clones.
  destruct (pclone_loop items1 !! k) as [l1|] eqn:E1,
           (pclone_loop items2 !! k) as [l2|] eqn:E2.
  - apply NoDup_Permutation; [by eapply Hn1 | by eapply Hn2 |].
    intros x. rewrite (Hc1 k l1 x E1), (Hc2 k l2 x E2). by setoid_rewrite Hp.
  - destruct (proj1 Hkeys) as [? ?]; [by eexists | done].
  - destruct (proj2 Hkeys) as [? ?]; [by eexists | done].
  - done.
Qed.

Lemma pclone_order_independent_witness :
  same_clones (pclone_loop items_AB) (pclone_loop items_BA) "A".
Proof.
  apply (pclone_order_independent items_AB items_BA "A").
  - apply (bool_decide_unpack _). vm_compute. exact I.
  - apply perm_swap.
Defined.

End PCloneProps.

Module LoaderProps.
Import Py Utils RomAudit RomAuditMore RomAuditSamples.

(** *** The LaunchBox loader *)

Lemma LB_loop_returns (pre post : list Element) (e : Element) (dics : LB_dics) :
  (forall d, LB_element e d = Ok (Return d)) ->
  LB_loop (pre ++ e :: post) dics = LB_loop pre dics.
Proof.
  intros He. revert dics. induction pre as [|x pre IH]; intros dics; simpl.
  - by rewrite He.
  - destruct (LB_element x dics) as [[d | d] | ex]; simpl; [apply IH | done | done].
Qed.

Lemma LB_element_unknown_tag (e : Element) (dics : LB_dics) :
  tag e ∉ LB_known_tags -> LB_element e dics = Ok (Return dics).
Proof.
  unfold LB_known_tags, LB_ignored_tags. simpl. rewrite !not_elem_of_cons.
  intros (H1 & H2 & H3 & H4 & H5 & H6 & H7 & _).
  unfold LB_element. by rewrite !bool_decide_eq_false_2.
Qed.

Lemma LB_element_ignored_tag (e : Element) (dics : LB_dics) :
  tag e ∈ LB_ignored_tags -> LB_element e dics = Ok (Continue dics).
Proof.
  unfold LB_ignored_tags. rewrite !elem_of_cons, elem_of_nil.
  unfold LB_element. intros [H | [H | [H | [H | []]]]]; rewrite H; reflexivity.
Qed.

(** X9: a child of the root whose tag is none of Game, Platform,
    GameImage, PlatformAlternateName, Emulator, EmulatorPlatform and
    GameAlternateName ends the LaunchBox loader as an unknown child tag
    does: the dictionaries are left as the elements before it made them
    and nothing after it is read. *)
Theorem LB_loader_stops_at_unknown_root_tag (globals : module_globals)
    (filename_FN : xml_file) (dics : LB_dics) (xml_root : Element)
    (pre post : list Element) (e : Element) :
  xf_exists filename_FN = true ->
  xf_readXml filename_FN = Ok xml_root ->
  children xml_root = pre ++ e :: post ->
  tag e ∉ LB_known_tags ->
  audit_load_LB_metadata_XML globals filename_FN dics = LB_loop pre dics.
Proof.
  intros He Hr Hc Ht. unfold audit_load_LB_metadata_XML.
  rewrite He, Hr, Hc. simpl. apply LB_loop_returns.
  intros d. by apply LB_element_unknown_tag.
Qed.

Lemma LB_loader_stops_at_unknown_root_tag_witness :
  audit_load_LB_metadata_XML rom_audit_globals LB_unknown_root_file LB_empty
  = LB_loop [LB_good_game] LB_empty.
Proof.
  apply (LB_loader_stops_at_unknown_root_tag rom_audit_globals LB_unknown_root_file
           LB_empty
           (mk_Element "LaunchBox" ∅ None
              [LB_good_game; mk_Element "Mod" ∅ None []; LB_platform])
           [LB_good_game] [LB_platform] (mk_Element "Mod" ∅ None [])).
  - reflexivity.
  - reflexivity.
  - reflexivity.
  - unfold LB_known_tags, LB_ignored_tags. simpl.
    rewrite !not_elem_of_cons. repeat split; try discriminate. apply not_elem_of_nil.
Defined.

Lemma LB_loop_ignored (elements : list Element) (dics : LB_dics) :
  LB_loop (filter (fun e => tag e ∉ LB_ignored_tags) elements) dics
  = LB_loop elements dics.
Proof.
  revert dics. induction elements as [|e elements IH]; intros dics; [done|].
  rewrite filter_cons. case_decide as Ht.
  - simpl. destruct (LB_element e dics) as [[d | d] | ex]; simpl; [apply IH | done | done].
  - assert (Hin : tag e ∈ LB_ignored_tags).
    { destruct (decide (tag e ∈ LB_ignored_tags)); [done | contradiction]. }
    simpl. rewrite (LB_element_ignored_tag e dics Hin). simpl. apply IH.
Qed.

(** X10: the elements PlatformAlternateName, Emulator, EmulatorPlatform
    and GameAlternateName play no part in what the LaunchBox loader
    returns: a file gives the same dictionaries with and without them. *)
Theorem LB_loader_ignores_alternate_names (globals : module_globals)
    (t : string) (a : gmap string string) (x : option string)
    (elements : list Element) (dics : LB_dics) :
  audit_load_LB_metadata_XML globals
    (xml_file_of (mk_Element t a x
                    (filter (fun e => tag e ∉ LB_ignored_tags) elements))) dics
  = audit_load_LB_metadata_XML globals (xml_file_of (mk_Element t a x elements)) dics.
Proof. unfold audit_load_LB_metadata_XML. simpl. apply LB_loop_ignored. Qed.

Lemma LB_read_children_dom (cs : list Element) (record record' : gmap string string) :
  LB_read_children cs record = Some record' -> dom record' = dom record.
Proof.
  revert record. induction cs as [|c cs IH]; intros record; simpl.
  - by intros [= ->].
  - destruct (record !! tag c) as [v|] eqn:E; [|done].
    intros H. rewrite (IH _ H). apply dom_insert_lookup_L. by eexists.
Qed.

Lemma getitem_in_dom (d template : gmap string string) (key : string) :
  dom d = dom template -> is_Some (template !! key) ->
  exists v, getitem d key = Ok v /\ d !! key = Some v.
Proof.
  intros Hd Hk. apply elem_of_dom in Hk. rewrite <- Hd in Hk.
  apply elem_of_dom in Hk as [v Hv]. exists v. unfold getitem. by rewrite Hv.
Qed.

Lemma keyed_by_insert (field k : string) (game : gmap string string)
    (games : gmap string (gmap string string)) :
  keyed_by field games -> game !! field = Some k ->
  keyed_by field (<[k := game]> games).
Proof.
  intros Hg Hk k' game'. rewrite lookup_insert. case_decide as E.
  - intros [= <-]. by subst.
  - apply Hg.
Qed.

Lemma shaped_like_insert (template game : gmap string string) (k : string)
    (games : gmap string (gmap string string)) :
  shaped_like template games -> dom game = dom template ->
  shaped_like template (<[k := game]> games).
Proof.
  intros Hg Hd k' game'. rewrite lookup_insert. case_decide as E.
  - by intros [= <-].
  - apply Hg.
Qed.

Lemma LB_element_well_formed (e : Element) (dics : LB_dics) :
  LB_well_formed dics ->
  exists dics', (LB_element e dics = Ok (Continue dics') \/
                 LB_element e dics = Ok (Return dics')) /\
    LB_well_formed dics' /\
    dom (games_dic dics) ⊆ dom (games_dic dics') /\
    dom (platforms_dic dics) ⊆ dom (platforms_dic dics') /\
    dom (gameimages_dic dics) ⊆ dom (gameimages_dic dics').
Proof.
  intros Hwf. pose proof Hwf as (G1 & G2 & P1 & P2 & I1 & I2).
  unfold LB_element.
  repeat case_bool_decide;
    try (exists dics; split; [by auto|]; split; [done|]; by repeat split).
  - destruct (LB_read_children _ _) as [game|] eqn:E;
      [|exists dics; split; [by auto|]; split; [done|]; by repeat split].
    apply LB_read_children_dom in E.
    destruct (getitem_in_dom game audit_new_LB_game "Name" E ltac:(by eexists))
      as (name & -> & Hn).
    eexists. split; [left; reflexivity|]. simpl. split.
    + repeat split; simpl; try done;
        [by apply keyed_by_insert | by apply shaped_like_insert].
    + repeat split; try done. rewrite dom_insert_L. apply union_subseteq_r.
  - destruct (LB_read_children _ _) as [platform|] eqn:E;
      [|exists dics; split; [by auto|]; split; [done|]; by repeat split].
    apply LB_read_children_dom in E.
    destruct (getitem_in_dom platform audit_new_LB_platform "Name" E ltac:(by eexists))
      as (name & -> & Hn).
    eexists. split; [left; reflexivity|]. simpl. split.
    + repeat split; simpl; try done;
        [by apply keyed_by_insert | by apply shaped_like_insert].
    + repeat split; try done. rewrite dom_insert_L. apply union_subseteq_r.
  - destruct (LB_read_children _ _) as [image|] eqn:E;
      [|exists dics; split; [by auto|]; split; [done|]; by repeat split].
    apply LB_read_children_dom in E.
    destruct (getitem_in_dom image audit_new_LB_gameImage "FileName" E ltac:(by eexists))
      as (name & -> & Hn).
    eexists. split; [left; reflexivity|]. simpl. split.
    + repeat split; simpl; try done;
        [by apply keyed_by_insert | by apply shaped_like_insert].
    + repeat split; try done. rewrite dom_insert_L. apply union_subseteq_r.
Qed.

Lemma LB_loop_well_formed (elements : list Element) (dics : LB_dics) :
  LB_well_formed dics ->
  exists dics', LB_loop elements dics = Ok dics' /\ LB_well_formed dics' /\
    dom (games_dic dics) ⊆ dom (games_dic dics') /\
    dom (platforms_dic dics) ⊆ dom (platforms_dic dics') /\
    dom (gameimages_dic dics) ⊆ dom (gameimages_dic dics').
Proof.
  revert dics. induction elements as [|e elements IH]; intros dics Hwf; simpl.
  - exists dics. split; [done|]. split; [done|]. by repeat split.
  - destruct (LB_element_well_formed e dics Hwf)
      as (d1 & [-> | ->] & Hwf1 & D1 & D2 & D3); simpl.
    + destruct (IH d1 Hwf1) as (d2 & -> & Hwf2 & E1 & E2 & E3).
      exists d2. split; [done|]. split; [done|].
      repeat split; etrans; eassumption.
    + exists d1. split; [done|]. split; [done|]. by repeat split.
Qed.

(** X11: on a file that exists and parses the LaunchBox loader raises
    nothing, and it keeps the dictionaries in order: started on
    dictionaries in which every game and every platform is stored under
    its Name, every image under its FileName, and every record has exactly
    the keys of its template, it returns dictionaries of the same kind,
    and no key is lost. *)
Theorem LB_loader_keeps_dictionaries (globals : module_globals)
    (filename_FN : xml_file) (xml_root : Element) (dics : LB_dics) :
  xf_exists filename_FN = true ->
  xf_readXml filename_FN = Ok xml_root ->
  LB_well_formed dics ->
  exists dics', audit_load_LB_metadata_XML globals filename_FN dics = Ok dics' /\
    LB_well_formed dics' /\
    dom (games_dic dics) ⊆ dom (games_dic dics') /\
    dom (platforms_dic dics) ⊆ dom (platforms_dic dics') /\
    dom (gameimages_dic dics) ⊆ dom (gameimages_dic dics').
Proof.
  intros He Hr Hwf. unfold audit_load_LB_metadata_XML. rewrite He, Hr. simpl.
  by apply LB_loop_well_formed.
Qed.

Lemma LB_empty_well_formed : LB_well_formed LB_empty.
Proof. repeat split; intros k g H; simpl in H; by rewrite lookup_empty in H. Defined.

Lemma LB_loader_keeps_dictionaries_witness :
  exists dics', audit_load_LB_metadata_XML rom_audit_globals LB_sample_file LB_empty
                = Ok dics' /\
    LB_well_formed dics' /\
    dom (games_dic LB_empty) ⊆ dom (games_dic dics') /\
    dom (platforms_dic LB_empty) ⊆ dom (platforms_dic dics') /\
    dom (gameimages_dic LB_empty) ⊆ dom (gameimages_dic dics').
Proof.
  apply (LB_loader_keeps_dictionaries rom_audit_globals LB_sample_file
           (mk_Element "LaunchBox" ∅ None [LB_good_game; LB_bad_game; LB_platform])
           LB_empty).
  - reflexivity.
  - reflexivity.
  - exact LB_empty_well_formed.
Defined.

End LoaderProps.

Module GamesLoaderProps.
Import Py Utils RomAudit RomAuditMore RomAuditSamples.

Lemma getitem_Some (d : gmap string string) (key v : string) :
  d !! key = Some v -> getitem d key = Ok v.
Proof. intros H. unfold getitem. by rewrite H. Qed.

Lemma getitem_None (d : gmap string string) (key : string) :
  d !! key = None -> getitem d key = Raise KeyError.
Proof. intros H. unfold getitem. by rewrite H. Qed.

Lemma game_children_dom (cs : list Element) (game : gmap string string) :
  dom game ⊆ dom (game_children cs game).
Proof.
  revert game. induction cs as [|c cs IH]; intros game; simpl; [done|].
  etrans; [|apply IH]. rewrite dom_insert_L. apply union_subseteq_r.
Qed.

(** What the loop of the three loaders keeps true of the catalogue. *)
Lemma games_loop_keyed (template : gmap string string) (elements : list Element)
    (games games' : gmap string (gmap string string)) :
  keyed_by "name" games -> extends_template template games ->
  games_loop template elements games = Ok games' ->
  keyed_by "name" games' /\ extends_template template games'.
Proof.
  revert games. induction elements as [|e elements IH]; intros games Hk Hx; simpl.
  - by intros [= <-].
  - case_bool_decide as Ht; [|by apply IH].
    destruct (getitem (attrib e) "name") as [name|ex]; [|done]. simpl.
    set (game := game_children (children e) (<["name" := name]> template)).
    unfold getitem at 1. destruct (game !! "name") as [key|] eqn:Ekey; [|done].
    simpl. apply IH.
    + intros k g. rewrite lookup_insert. case_decide as E; [|apply Hk].
      intros [= <-]. by subst.
    + intros k g. rewrite lookup_insert. case_decide as E; [|apply Hx].
      intros [= <-]. etrans; [|apply game_children_dom].
      rewrite dom_insert_L. apply union_subseteq_r.
Qed.

Lemma keyed_by_empty (field : string) : keyed_by field ∅.
Proof. intros k g H. by rewrite lookup_empty in H. Qed.

Lemma extends_template_empty (template : gmap string string) :
  extends_template template ∅.
Proof. intros k g H. by rewrite lookup_empty in H. Qed.

(** X12: whatever [audit_load_HyperList_XML] and
    [audit_load_OfflineScraper_XML] return, every record is stored under
    the value of its own [name] key and has at least the keys of the record
    template of its loader. *)
Theorem games_loaders_keyed_by_name (xml_FN : xml_file) :
  match audit_load_HyperList_XML xml_FN with
  | Ok games => keyed_by "name" games /\ extends_template audit_new_rom_HyperList games
  | Raise _ => True
  end /\
  match audit_load_OfflineScraper_XML xml_FN with
  | Ok games => keyed_by "name" games /\ extends_template audit_new_rom_logiqx_dict games
  | Raise _ => True
  end.
Proof.
  unfold audit_load_HyperList_XML, audit_load_OfflineScraper_XML.
  destruct (xf_exists xml_FN); simpl;
    [|split; split; auto using keyed_by_empty, extends_template_empty].
  destruct (xf_readXml xml_FN) as [root|[]]; simpl;
    try (split; try done; split; auto using keyed_by_empty, extends_template_empty).
  split.
  - destruct (games_loop audit_new_rom_HyperList (children root) ∅) as [g|] eqn:E; [|done].
    eapply games_loop_keyed; eauto using keyed_by_empty, extends_template_empty.
  - destruct (games_loop audit_new_rom_logiqx_dict (children root) ∅) as [g|] eqn:E; [|done].
    eapply games_loop_keyed; eauto using keyed_by_empty, extends_template_empty.
Qed.

Lemma games_loop_named (template : gmap string string) (elements : list Element)
    (games : gmap string (gmap string string)) :
  Forall named_game elements ->
  exists games', games_loop template elements games = Ok games'.
Proof.
  intros Hall. revert games. induction Hall as [|e elements He _ IH]; intros games; simpl.
  - by eexists.
  - case_bool_decide as Ht; [|apply IH].
    destruct (He Ht) as [name Hname]. rewrite (getitem_Some _ _ _ Hname). simpl.
    assert (Hin : "name" ∈ dom (game_children (children e) (<["name" := name]> template))).
    { apply game_children_dom. rewrite dom_insert_L. apply elem_of_union_l.
      by apply elem_of_singleton. }
    apply elem_of_dom in Hin as [key Hkey]. rewrite (getitem_Some _ _ _ Hkey). simpl.
    apply IH.
Qed.

Lemma games_loop_app (template : gmap string string) (a b : list Element)
    (games : gmap string (gmap string string)) :
  games_loop template (a ++ b) games
  = games' ← games_loop template a games; games_loop template b games'.
Proof.
  revert games. induction a as [|e a IH]; intros games; simpl; [done|].
  case_bool_decide; [|apply IH].
  destruct (getitem (attrib e) "name") as [name|]; [|done]. simpl.
  destruct (getitem _ "name") as [key|]; [|done]. simpl. apply IH.
Qed.

(** X13: a [<game>] element without a [name] attribute makes
    [audit_load_HyperList_XML] and [audit_load_OfflineScraper_XML] raise
    [KeyError]: the games read before it are not returned. *)
Theorem games_loaders_unnamed_game (xml_FN : xml_file) (xml_root : Element)
    (pre post : list Element) (e : Element) :
  xf_exists xml_FN = true ->
  xf_readXml xml_FN = Ok xml_root ->
  children xml_root = pre ++ e :: post ->
  Forall named_game pre ->
  tag e = "game" -> attrib e !! "name" = None ->
  audit_load_HyperList_XML xml_FN = Raise KeyError /\
  audit_load_OfflineScraper_XML xml_FN = Raise KeyError.
Proof.
  intros He Hr Hc Hpre Ht Hn.
  assert (H : forall template, games_loop template (pre ++ e :: post) ∅ = Raise KeyError).
  { intros template. rewrite games_loop_app.
    destruct (games_loop_named template pre ∅ Hpre) as [g ->]. simpl.
    rewrite bool_decide_eq_true_2 by done. by rewrite (getitem_None _ _ Hn). }
  unfold audit_load_HyperList_XML, audit_load_OfflineScraper_XML.
  rewrite He, Hr, Hc. simpl. by rewrite !H.
Qed.

Lemma games_loaders_unnamed_game_witness :
  audit_load_HyperList_XML HyperList_sample = Raise KeyError /\
  audit_load_OfflineScraper_XML HyperList_sample = Raise KeyError.
Proof.
  apply (games_loaders_unnamed_game HyperList_sample
           (mk_Element "menu" ∅ None
              [mk_Element "header" ∅ None [];
               mk_Element "game" {["name" := "Doom"]} None [leaf "year" "1993"];
               mk_Element "game" ∅ None [leaf "year" "1996"];
               mk_Element "game" {["name" := "Quake"]} None []])
           [mk_Element "header" ∅ None [];
            mk_Element "game" {["name" := "Doom"]} None [leaf "year" "1993"]]
           [mk_Element "game" {["name" := "Quake"]} None []]
           (mk_Element "game" ∅ None [leaf "year" "1996"])).
  - reflexivity.
  - reflexivity.
  - reflexivity.
  - repeat constructor.
    + intros H. discriminate H.
    + intros _. by eexists.
  - reflexivity.
  - reflexivity.
Defined.

Lemma games_loop_filter (template : gmap string string) (elements : list Element)
    (games : gmap string (gmap string string)) :
  games_loop template (filter (fun e => tag e = "game") elements) games
  = games_loop template elements games.
Proof.
  revert games. induction elements as [|e elements IH]; intros games; [done|].
  rewrite filter_cons. case_decide as Ht; simpl.
  - rewrite bool_decide_eq_true_2 by done.
    destruct (getitem (attrib e) "name") as [name|]; [|done]. simpl.
    destruct (getitem _ "name") as [key|]; [|done]. simpl. apply IH.
  - rewrite bool_decide_eq_false_2 by done. apply IH.
Qed.

(** X14: the children of the root other than [<game>] elements play no
    part in what [audit_load_HyperList_XML] and
    [audit_load_OfflineScraper_XML] return: no tag of the root level stops
    these loaders. *)
Theorem games_loaders_skip_other_tags (t : string) (a : gmap string string)
    (x : option string) (elements : list Element) :
  audit_load_HyperList_XML
    (xml_file_of (mk_Element t a x (filter (fun e => tag e = "game") elements)))
  = audit_load_HyperList_XML (xml_file_of (mk_Element t a x elements)) /\
  audit_load_OfflineScraper_XML
    (xml_file_of (mk_Element t a x (filter (fun e => tag e = "game") elements)))
  = audit_load_OfflineScraper_XML (xml_file_of (mk_Element t a x elements)).
Proof.
  unfold audit_load_HyperList_XML, audit_load_OfflineScraper_XML. simpl.
  by rewrite !games_loop_filter.
Qed.

(** X15: while the name [xml_tree] is not bound, [audit_load_GameDB_XML]
    loads nothing: whenever it returns, the mapping is empty, and on every
    file that exists and parses it raises [NameError]. *)
Theorem GameDB_loader_loads_nothing (globals : module_globals) (xml_FN : xml_file) :
  globals !! "xml_tree" = None ->
  (forall games, audit_load_GameDB_XML globals xml_FN = Ok games -> games = ∅) /\
  (forall xml_root, xf_exists xml_FN = true -> xf_readXml xml_FN = Ok xml_root ->
     audit_load_GameDB_XML globals xml_FN = Raise NameError).
Proof.
  intros HG. unfold audit_load_GameDB_XML, global_name. rewrite HG. split.
  - intros games. destruct (xf_exists xml_FN); simpl; [|by intros [= <-]].
    destruct (xf_readXml xml_FN) as [root|[]]; simpl; try done. by intros [= <-].
  - intros root -> ->. done.
Qed.

Lemma GameDB_loader_loads_nothing_witness :
  (forall games, audit_load_GameDB_XML rom_audit_globals file_one_game = Ok games ->
                 games = ∅) /\
  (forall xml_root, xf_exists file_one_game = true ->
     xf_readXml file_one_game = Ok xml_root ->
     audit_load_GameDB_XML rom_audit_globals file_one_game = Raise NameError).
Proof. apply (GameDB_loader_loads_nothing rom_audit_globals file_one_game). reflexivity. Defined.

End GamesLoaderProps.

Module TempestProps.
Import Py Utils RomAudit RomAuditMore TempestInv TempestFacts GamesLoaderProps.

Lemma search_section_nonempty (s name : string) :
  search_section s = Some name -> name <> EmptyString.
Proof.
  induction s as [|c s IH]; simpl; [done|].
  destruct (Ascii.eqb c "[").
  - destruct (span_not_close s) as [[|n run] [|x after]]; try apply IH.
    by intros [= <-].
  - apply IH.
Qed.

Lemma Tempest_field_keeps (field_name field_value : string)
    (game game' : gmap string string) :
  Tempest_field field_name field_value game = Ok game' ->
  game' !! "name" = game !! "name" /\ dom game ⊆ dom game'.
Proof.
  unfold Tempest_field.
  repeat (case_bool_decide;
          [ intros [= <-]; rewrite ?lookup_insert_ne by done;
            rewrite ?dom_insert_L; split; [done | set_solver] | ]).
  done.
Qed.

Lemma Tempest_line_inv (st st' : Tempest_state) (file_line : string) :
  Tempest_inv st -> Tempest_line st file_line = Ok st' -> Tempest_inv st'.
Proof.
  intros (Hk & Hx & Hne & Hst). unfold Tempest_line.
  destruct st as [games | games game_key game]; simpl in *.
  - destruct (search_section _) as [name|] eqn:E; intros [= <-]; [|by repeat split].
    repeat split; try done. by eapply search_section_nonempty.
  - destruct Hst as (Hname & Hkey & Hdom). case_bool_decide.
    + intros [= <-]. repeat split; try done; cbn [games_of].
      * intros k g. rewrite lookup_insert. case_decide as E; [|apply Hk].
        intros [= <-]. by subst.
      * intros k g. rewrite lookup_insert. case_decide as E; [|apply Hx].
        by intros [= <-].
      * intros k. rewrite lookup_insert. case_decide as E; [by subst | apply Hne].
    + destruct (Tempest_field _ _ game) as [game'|] eqn:E; [|done].
      simpl. intros [= <-]. apply Tempest_field_keeps in E as [E1 E2].
      repeat split; try done; [by rewrite E1 | by etrans].
Qed.

Lemma Tempest_loop_inv (file_lines : list string) (st st' : Tempest_state) :
  Tempest_inv st -> Tempest_loop file_lines st = Ok st' -> Tempest_inv st'.
Proof.
  revert st. induction file_lines as [|l file_lines IH]; intros st Hst; simpl.
  - by intros [= <-].
  - destruct (Tempest_line st l) as [st1|] eqn:E; [|done]. simpl.
    apply IH. by eapply Tempest_line_inv.
Qed.

Lemma section_of_app_l (a b : list string) (k : string) :
  section_of a k -> section_of (a ++ b) k.
Proof.
  intros (l & Hl & Hs). exists l. split; [|done]. apply elem_of_app. by left.
Qed.

Lemma Tempest_line_keys (seen : list string) (st st' : Tempest_state)
    (file_line : string) :
  Tempest_keys_inv seen st -> Tempest_line st file_line = Ok st' ->
  Tempest_keys_inv (seen ++ [file_line]) st'.
Proof.
  intros [Hg Hst]. unfold Tempest_line. fold (stripped file_line).
  destruct st as [games | games game_key game]; cbn [games_of] in *.
  - destruct (search_section (stripped file_line)) as [name|] eqn:E; intros [= <-];
      (split; [intros k Hk; by apply section_of_app_l, Hg|]); [|done].
    exists file_line. split; [|done]. apply elem_of_app. right. by apply list_elem_of_singleton.
  - case_bool_decide.
    + intros [= <-]. split; [|done]. cbn [games_of]. intros k.
      rewrite lookup_insert. case_decide as E.
      * intros _. subst k. by apply section_of_app_l.
      * intros Hk. by apply section_of_app_l, Hg.
    + destruct (Tempest_field _ _ game) as [game'|]; [|done].
      intros [= <-]. split; [|by apply section_of_app_l].
      intros k Hk. by apply section_of_app_l, Hg.
Qed.

Lemma Tempest_loop_keys (file_lines seen : list string) (st st' : Tempest_state) :
  Tempest_keys_inv seen st -> Tempest_loop file_lines st = Ok st' ->
  Tempest_keys_inv (seen ++ file_lines) st'.
Proof.
  revert seen st. induction file_lines as [|l file_lines IH]; intros seen st Hst.
  - cbn [Tempest_loop]. intros [= <-]. by rewrite app_nil_r.
  - cbn [Tempest_loop]. destruct (Tempest_line st l) as [st1|] eqn:E; [|done].
    intros H. replace (seen ++ l :: file_lines) with ((seen ++ [l]) ++ file_lines)
      by (by rewrite <- app_assoc).
    eapply IH; [|exact H]. by eapply Tempest_line_keys.
Qed.

(** X16: whatever [audit_load_Tempest_INI] returns, every record is stored
    under the value of its own [name] key; that key is not empty and is the
    section name of a line of the file, that is the name [re.search] finds
    between brackets in the line; and the record has at least the keys of
    the GameDB template. *)
Theorem Tempest_loader_keyed_by_name (globals : module_globals) (file_FN : ini_file) :
  match audit_load_Tempest_INI globals file_FN with
  | Ok games =>
      keyed_by "name" games /\ extends_template audit_new_rom_GameDB games /\
      forall k, is_Some (games !! k) ->
        k <> EmptyString /\
        exists file_lines, ini_open file_FN = Ok file_lines /\ section_of file_lines k
  | Raise _ => True
  end.
Proof.
  assert (Hempty : forall k, is_Some ((∅ : gmap string (gmap string string)) !! k) ->
                             False).
  { intros k [g Hg]. by rewrite lookup_empty in Hg. }
  unfold audit_load_Tempest_INI.
  destruct (ini_exists file_FN); cbn [negb].
  2: { split; [apply keyed_by_empty|]. split; [apply extends_template_empty|].
       intros k Hk. by destruct (Hempty k Hk). }
  destruct (ini_open file_FN) as [file_lines|[]] eqn:Eo; try done.
  - destruct (Tempest_loop file_lines (Seeking ∅)) as [st|] eqn:E; [|done].
    cbn [mbind result_bind bind mret result_ret].
    assert (Hinv : Tempest_inv st).
    { eapply Tempest_loop_inv; [|exact E].
      split; [apply keyed_by_empty|]. split; [apply extends_template_empty|].
      split; [|done]. intros k Hk. by destruct (Hempty k Hk). }
    assert (Hkeys : Tempest_keys_inv ([] ++ file_lines) st).
    { eapply Tempest_loop_keys; [|exact E]. split; [|done].
      intros k Hk. by destruct (Hempty k Hk). }
    destruct Hinv as (H1 & H2 & H3 & _). destruct Hkeys as [H4 _].
    split; [done|]. split; [done|]. intros k Hk. split; [by apply H3|].
    exists file_lines. split; [done|]. by apply H4.
  - destruct (global_name globals "filename"); [|done].
    cbn [mbind result_bind bind mret result_ret].
    split; [apply keyed_by_empty|]. split; [apply extends_template_empty|].
    intros k Hk. by destruct (Hempty k Hk).
Qed.

End TempestProps.

Module UtilsTextProps.
Import Py Utils UtilsText StringFacts TextFacts.
#[local] Arguments String.append : simpl nomatch.

Lemma len_append (a b : string) : len (a +:+ b) = (len a + len b)%Z.
Proof. unfold len. rewrite length_append. lia. Qed.

Lemma len_times (c : ascii) (n : Z) : len (times c n) = Z.max 0 n.
Proof.
  unfold len, times. rewrite ChecksumFacts.length_string_of_list, repeat_length. lia.
Qed.

Lemma length_take_chars_min (n : nat) (s : string) :
  String.length (take_chars n s) = Nat.min n (String.length s).
Proof. revert s. induction n as [|n IH]; intros [|c s]; simpl; auto. Qed.

Lemma len_slice_to (stop : Z) (s : string) :
  (0 <= stop <= len s)%Z -> len (slice_to stop s) = stop.
Proof.
  intros H. unfold slice_to. destruct (Z.ltb_spec stop 0); [lia|].
  unfold len in *. rewrite length_take_chars_min. lia.
Qed.

Lemma text_limit_string_cut (s : string) (max_length : Z) :
  (5 < max_length)%Z -> (max_length < len s)%Z ->
  text_limit_string s max_length = slice_to (max_length - 3) s +:+ "...".
Proof.
  intros H1 H2. unfold text_limit_string.
  destruct (Z.ltb_spec 5 max_length); [|lia].
  destruct (Z.ltb_spec max_length (len s)); [done | lia].
Qed.

Lemma text_limit_string_keep (s : string) (max_length : Z) :
  (max_length <= 5 \/ len s <= max_length)%Z -> text_limit_string s max_length = s.
Proof.
  intros H. unfold text_limit_string.
  destruct (Z.ltb_spec 5 max_length); [|done].
  destruct (Z.ltb_spec max_length (len s)); [lia | done].
Qed.

Lemma len_cut (s : string) (max_length : Z) :
  (5 < max_length)%Z -> (max_length < len s)%Z ->
  len (slice_to (max_length - 3) s +:+ "...") = max_length.
Proof.
  intros H1 H2. rewrite len_append, len_slice_to by lia. unfold len. simpl. lia.
Qed.

(** X17: for a limit above 5 the text returned by [text_limit_string] has
    the length of the text or the limit, whichever is smaller; for a limit
    of 5 or less, not only for -1, the text is returned as it is however
    long; and limiting a limited text changes nothing. *)
Theorem text_limit_string_width (s : string) (max_length : Z) :
  ((5 < max_length)%Z ->
     len (text_limit_string s max_length) = Z.min (len s) max_length) /\
  ((max_length <= 5)%Z -> text_limit_string s max_length = s) /\
  text_limit_string (text_limit_string s max_length) max_length
  = text_limit_string s max_length.
Proof.
  destruct (Z.ltb_spec 5 max_length) as [H5|H5];
    [destruct (Z.ltb_spec max_length (len s)) as [Hl|Hl]|].
  - rewrite (text_limit_string_cut s max_length H5 Hl).
    pose proof (len_cut s max_length H5 Hl) as Hc.
    split; [lia|]. split; [lia|]. apply text_limit_string_keep. lia.
  - rewrite !(text_limit_string_keep s max_length) by lia.
    split; [lia|]. done.
  - rewrite !(text_limit_string_keep s max_length) by lia.
    split; [lia|]. done.
Qed.

Lemma len_candidate_cell (value : string) (L : Z) :
  (5 < L)%Z -> len (candidate_cell value L) = L.
Proof.
  intros HL. unfold candidate_cell, ljust. rewrite len_append, len_times.
  destruct (Z.ltb_spec L (len value)) as [Hl|Hl].
  - rewrite (text_limit_string_cut value L HL Hl), (len_cut value L HL Hl). lia.
  - rewrite (text_limit_string_keep value L) by lia. lia.
Qed.

(** X18: in a row of [print_candidate_list] the cells of the columns
    Display name, Id, Platform and SPlatform have exactly the width of
    their column, whatever the value; the Score cell, whose width 5 is not
    above the threshold of [text_limit_string], is never cut: it is as
    wide as the value when the value has more than 5 characters. *)
Theorem candidate_cells_width (value : string) :
  len (candidate_cell value NAME_L) = NAME_L /\
  len (candidate_cell value ID_L) = ID_L /\
  len (candidate_cell value PLATFORM_L) = PLATFORM_L /\
  len (candidate_cell value SPLATFORM_L) = SPLATFORM_L /\
  candidate_cell value SCORE_L = ljust value SCORE_L /\
  len (candidate_cell value SCORE_L) = Z.max (len value) SCORE_L.
Proof.
  assert (Hs : text_limit_string value SCORE_L = value)
    by (apply text_limit_string_keep; left; done).
  do 4 (split; [by apply len_candidate_cell|]).
  unfold candidate_cell. rewrite Hs. split; [done|].
  unfold ljust. rewrite len_append, len_times. lia.
Qed.

Lemma text_str_list_size_fold (str_list : list string) (start : Z) :
  let size := fold_left (fun max_str_size str_item =>
               let str_size := len str_item in
               if (max_str_size <? str_size)%Z then str_size else max_str_size)
            str_list start in
  (start <= size)%Z /\ (forall s, In s str_list -> (len s <= size)%Z) /\
  (size = start \/ exists s, In s str_list /\ size = len s).
Proof.
  cbv zeta. revert start. induction str_list as [|x l IH]; intros start; simpl.
  - repeat split; [lia | done | by left].
  - destruct (IH (if (start <? len x)%Z then len x else start)) as (H1 & H2 & H3).
    destruct (Z.ltb_spec start (len x)) as [Hlt|Hge].
    + repeat split; [lia | |].
      * intros s [<- | Hs]; [lia | by apply H2].
      * right. destruct H3 as [-> | (s & Hs & ->)]; [by exists x; auto|].
        exists s. auto.
    + repeat split; [lia | |].
      * intros s [<- | Hs]; [lia | by apply H2].
      * destruct H3 as [-> | (s & Hs & ->)]; [by left|]. right. exists s. auto.
Qed.

(** X19: padded to [text_str_list_size] of a list, every text of the list
    has the same length, on the left as on the right: that size, which is
    the length of a longest text of the list. *)
Theorem padded_texts_line_up (str_list : list string) (s : string) :
  In s str_list ->
  len (text_print_padded_left s (text_str_list_size str_list))
    = text_str_list_size str_list /\
  len (text_print_padded_right s (text_str_list_size str_list))
    = text_str_list_size str_list /\
  exists longest, In longest str_list /\ text_str_list_size str_list = len longest.
Proof.
  intros Hs. pose proof (text_str_list_size_fold str_list 0) as H.
  cbv zeta in H. fold (text_str_list_size str_list) in H.
  destruct H as (H1 & H2 & H3).
  unfold text_print_padded_left, text_print_padded_right.
  rewrite !len_append, len_times. specialize (H2 s Hs).
  repeat split; try lia.
  destruct H3 as [H0 | H3]; [|done].
  exists s. split; [done|]. unfold len in *. lia.
Qed.

Lemma padded_texts_line_up_witness :
  len (text_print_padded_left "ab" (text_str_list_size ["a"; "ab"; "abcd"]))
    = text_str_list_size ["a"; "ab"; "abcd"] /\
  len (text_print_padded_right "ab" (text_str_list_size ["a"; "ab"; "abcd"]))
    = text_str_list_size ["a"; "ab"; "abcd"] /\
  exists longest, In longest ["a"; "ab"; "abcd"] /\
    text_str_list_size ["a"; "ab"; "abcd"] = len longest.
Proof.
  apply (padded_texts_line_up ["a"; "ab"; "abcd"] "ab"). simpl. auto.
Defined.

(** *** Names of files *)

Lemma title_char (c : ascii) :
  replace " " "_" (if char_in c string_printable then String c "" else "_")
  = String (if char_in c string_printable && negb (Ascii.eqb c " ") then c else "_"%char) "".
Proof. by_char c; reflexivity. Qed.

Lemma text_title_to_filename_str_chars (s : string) :
  text_title_to_filename_str s
  = concat_map
      (fun c => String (if char_in c string_printable && negb (Ascii.eqb c " ")
                        then c else "_"%char) "") s.
Proof.
  unfold text_title_to_filename_str. induction s as [|c s IH]; [done|].
  cbn [concat_map]. by rewrite replace_char_app, title_char, IH.
Qed.

(** X20: [text_title_to_filename_str] keeps the length of the title; its
    result holds printable characters only and no blank; and a title made
    of printable characters other than the blank is returned as it is, the
    slash, the tab and the line feed included. *)
Theorem text_title_to_filename_str_range (title_str : string) :
  String.length (text_title_to_filename_str title_str) = String.length title_str /\
  all_chars (fun c => char_in c string_printable && negb (Ascii.eqb c " "))
            (text_title_to_filename_str title_str) = true /\
  (all_chars (fun c => char_in c string_printable && negb (Ascii.eqb c " "))
             title_str = true ->
   text_title_to_filename_str title_str = title_str).
Proof.
  rewrite text_title_to_filename_str_chars.
  induction title_str as [|c s (IH1 & IH2 & IH3)]; [done|].
  cbn [concat_map all_chars String.append String.length].
  split; [by rewrite IH1|]. split.
  - rewrite IH2, andb_true_r. by_char c; reflexivity.
  - intros H. apply andb_true_iff in H as [Hc Hs]. by rewrite Hc, (IH3 Hs).
Qed.

(** *** JSON *)

Lemma text_escape_JSON_app (a b : string) :
  text_escape_JSON (a +:+ b) = text_escape_JSON a +:+ text_escape_JSON b.
Proof. unfold text_escape_JSON, str_quot. by rewrite !replace_char_app. Qed.

Lemma text_escape_JSON_chars (s : string) :
  text_escape_JSON s = concat_map escape_JSON_char s.
Proof.
  induction s as [|c s IH]; [done|].
  change (String c s) with (String c "" +:+ s).
  by rewrite text_escape_JSON_app, IH.
Qed.

Lemma escape_JSON_char_cases (c : ascii) :
  (c = "\"%char /\ escape_JSON_char c = "\\") \/
  (c = ascii_of_nat 34 /\ escape_JSON_char c = String "\" (String (ascii_of_nat 34) "")) \/
  (c <> "\"%char /\ c <> ascii_of_nat 34 /\ escape_JSON_char c = String c "").
Proof.
  by_char c;
    first [ left; split; reflexivity
          | right; left; split; reflexivity
          | right; right; split; [discriminate | split; [discriminate | reflexivity]] ].
Qed.

Lemma escape_JSON_inj (a b : string) :
  concat_map escape_JSON_char a = concat_map escape_JSON_char b -> a = b.
Proof.
  revert b. induction a as [|x a IH]; intros [|y b]; cbn [concat_map].
  - done.
  - destruct (escape_JSON_char_cases y) as [[_ ->] | [[_ ->] | (_ & _ & ->)]]; done.
  - destruct (escape_JSON_char_cases x) as [[_ ->] | [[_ ->] | (_ & _ & ->)]]; done.
  - destruct (escape_JSON_char_cases x) as [[-> ->] | [[-> ->] | (Hx1 & Hx2 & ->)]];
    destruct (escape_JSON_char_cases y) as [[-> ->] | [[-> ->] | (Hy1 & Hy2 & ->)]];
      cbn [String.append]; intros H; injection H; clear H; intros; subst;
      try congruence; try discriminate; f_equal; by apply IH.
Qed.

(** X21: [text_escape_JSON] loses nothing, two different texts never have
    the same escaped form; and a text without backslash and without double
    quote is returned as it is, control characters such as the line feed
    and the tab included. *)
Theorem text_escape_JSON_injective (s1 s2 : string) :
  (text_escape_JSON s1 = text_escape_JSON s2 -> s1 = s2) /\
  (all_chars (fun c => negb (Ascii.eqb c "\") && negb (Ascii.eqb c (ascii_of_nat 34))) s1
     = true -> text_escape_JSON s1 = s1).
Proof.
  rewrite !text_escape_JSON_chars. split; [apply escape_JSON_inj|].
  induction s1 as [|c s IH]; [done|]. cbn [all_chars concat_map].
  intros H. apply andb_true_iff in H as [Hc Hs]. rewrite (IH Hs).
  destruct (escape_JSON_char_cases c) as [[-> _] | [[-> _] | (_ & _ & ->)]];
    [discriminate Hc | discriminate Hc | done].
Qed.

(** *** Version strings *)

Lemma split_not_nil (sep : ascii) (s : string) : split sep s <> [].
Proof.
  induction s as [|c s IH]; simpl; [done|].
  destruct (Ascii.eqb c sep); [done|]. by destruct (split sep s).
Qed.

(** X22: [getFullString] gives back the string a [VersionNumber] was made
    from, whatever the string: joining what [split] gave restores every
    dot, also leading, trailing and doubled ones. *)
Theorem VersionNumber_full_string (versionString : string) :
  getFullString (VersionNumber_init versionString) = versionString.
Proof.
  unfold getFullString, VersionNumber_init. cbn [versionNumber].
  induction versionString as [|c s IH]; [done|]. cbn [split].
  pose proof (split_not_nil "." s) as Hne.
  destruct (Ascii.eqb_spec c ".") as [->|Hc].
  - destruct (split "." s) as [|part parts] eqn:E; [done|].
    cbn [join]. cbn [join] in IH. by rewrite IH.
  - destruct (split "." s) as [|part parts] eqn:E; [done|].
    destruct parts as [|part' parts]; cbn [join] in *; by rewrite <- IH.
Qed.

End UtilsTextProps.

Module UtilsPathsProps.
Import Py Utils UtilsPaths StringFacts.
#[local] Arguments String.append : simpl nomatch.

Lemma existsb_no_char (d : ascii) (s : string) :
  existsb (Ascii.eqb d) (list_ascii_of_string s) = negb (no_char d s).
Proof.
  unfold no_char. induction s as [|c s IH]; simpl; [done|].
  rewrite IH, (Ascii.eqb_sym d c). by destruct (Ascii.eqb c d).
Qed.

(** The base name is the end of the path, and holds no slash. *)
Lemma basename_suffix (p : string) :
  exists dir, p = dir +:+ basename p /\ no_char "/" (basename p) = true.
Proof.
  induction p as [|c p (dir & Hd & Hn)]; [by exists ""|].
  cbn [basename]. rewrite existsb_no_char.
  destruct (no_char "/" p) eqn:E; cbn [negb].
  - destruct (Ascii.eqb_spec c "/") as [->|Hc].
    + exists "/". split; [done|]. done.
    + exists "". split; [done|]. unfold no_char in *. cbn [all_chars].
      rewrite E. by destruct (Ascii.eqb_spec c "/").
  - exists (String c dir). split; [|done]. cbn [String.append]. by rewrite <- Hd.
Qed.


(** The extension is the end of the name; it is empty or a dot followed
    by characters other than the dot. *)
Lemma ext_of_name_suffix (seen : bool) (name : string) :
  exists root, name = root +:+ ext_of_name seen name /\
    (ext_of_name seen name = "" \/
     exists e, ext_of_name seen name = String "." e /\ no_char "." e = true).
Proof.
  revert seen. induction name as [|c name IH]; intros seen; [exists ""; auto|].
  cbn [ext_of_name]. destruct (Ascii.eqb_spec c ".") as [->|Hc].
  - destruct (IH seen) as (root & Hr & He).
    destruct (ext_of_name seen name) as [|x e] eqn:E.
    + rewrite existsb_no_char.
      destruct (seen && negb (negb (no_char "." name))) eqn:E2.
      * exists "". split; [done|]. right. exists name. split; [done|].
        apply andb_true_iff in E2 as [_ E2]. by destruct (no_char "." name).
      * exists (String "." name). split; [|by left]. cbn [String.append].
        by rewrite ChecksumProps.append_nil_r.
    + exists (String "." root). split; [|done]. cbn [String.append]. by rewrite <- Hr.
  - destruct (IH true) as (root & Hr & He).
    exists (String c root). split; [|done]. cbn [String.append]. by rewrite <- Hr.
Qed.

Lemma substring_0_append (a b : string) :
  substring 0 (String.length a) (a +:+ b) = a.
Proof.
  induction a as [|c a IH]; cbn [String.length String.append substring].
  - by destruct b.
  - by rewrite IH.
Qed.

(** [posixpath.splitext] cuts the path in two. *)
Lemma splitext_parts (p : string) :
  (splitext p).1 +:+ (splitext p).2 = p /\
  (splitext p).2 = ext_of_name false (basename p).
Proof.
  unfold splitext. cbn [fst snd]. split; [|done].
  destruct (basename_suffix p) as (dir & Hd & _).
  destruct (ext_of_name_suffix false (basename p)) as (root & Hr & _).
  set (ext := ext_of_name false (basename p)) in *.
  assert (Hp : p = (dir +:+ root) +:+ ext) by (by rewrite append_assoc, <- Hr).
  rewrite Hp at 1 2. rewrite length_append, Nat.add_sub, substring_0_append. done.
Qed.


Lemma ext_of_name_no_dot (seen : bool) (name : string) :
  no_char "." name = true -> ext_of_name seen name = "".
Proof.
  unfold no_char. revert seen. induction name as [|c name IH]; intros seen; [done|].
  cbn [all_chars ext_of_name]. intros H. apply andb_true_iff in H as [Hc Hn].
  destruct (Ascii.eqb c "."); [done|]. by apply IH.
Qed.

Lemma no_char_basename (d : ascii) (p : string) :
  no_char d p = true -> no_char d (basename p) = true.
Proof.
  intros H. destruct (basename_suffix p) as (dir & Hd & _). rewrite Hd in H.
  unfold no_char in *. rewrite TextProps1.all_chars_append in H.
  by apply andb_true_iff in H as [_ H].
Qed.

(** *** Changing the extension *)

Lemma prefix_before_dot (e a rest : string) :
  no_char "." e = true ->
  String.prefix e (a +:+ String "." rest) = String.prefix e a.
Proof.
  unfold no_char. revert a. induction e as [|y e IH]; intros a H.
  - by rewrite !prefix_empty.
  - cbn [all_chars] in H. apply andb_true_iff in H as [Hy He].
    destruct a as [|z a]; cbn [String.append].
    + rewrite prefix_cons. destruct (ascii_dec y ".") as [->|]; [done|]. done.
    + rewrite !prefix_cons. destruct (ascii_dec y z); [by apply IH | done].
Qed.

Lemma prefix_length (p s : string) :
  String.prefix p s = true -> (String.length p <= String.length s)%nat.
Proof.
  revert s. induction p as [|y p IH]; intros s; [simpl; lia|].
  destruct s as [|z s]; [done|]. rewrite prefix_cons.
  destruct (ascii_dec y z); [|done]. intros H. apply IH in H. simpl. lia.
Qed.

Lemma replace_from_skip_all (old new s : string) (k : nat) :
  (String.length s <= k)%nat -> replace_from old new k s = "".
Proof.
  revert k. induction s as [|c s IH]; intros k H; [done|].
  destruct k as [|k]; simpl in H; [lia|]. cbn [replace_from]. apply IH. lia.
Qed.

(** An occurrence of the extension cannot reach across the dot of the
    extension that ends the path: the last one is always replaced. *)
Lemma replace_before_ext (e new a : string) (k : nat) :
  no_char "." e = true -> (k <= String.length a)%nat ->
  replace_from (String "." e) new k (a +:+ String "." e)
  = replace_from (String "." e) new k a +:+ new.
Proof.
  intros He. revert k. induction a as [|x a IH]; intros k Hk.
  - assert (k = 0%nat) as -> by (simpl in Hk; lia).
    cbn [String.append replace_from]. rewrite prefix_cons.
    destruct (ascii_dec "." "."); [|done].
    assert (Hp : String.prefix e e = true).
    { clear. induction e as [|y e IH]; [done|]. rewrite prefix_cons.
      by destruct (ascii_dec y y). }
    rewrite Hp. cbn [String.length Nat.sub]. rewrite Nat.sub_0_r.
    by rewrite replace_from_skip_all, ChecksumProps.append_nil_r.
  - cbn [String.append]. destruct k as [|k]; cbn [replace_from].
    + rewrite !prefix_cons. destruct (ascii_dec "." x) as [<-|Hx].
      * rewrite (prefix_before_dot e a e He). cbn [String.length Nat.sub].
        rewrite Nat.sub_0_r.
        destruct (String.prefix e a) eqn:Hp.
        -- rewrite IH by (by apply prefix_length). by rewrite append_assoc.
        -- rewrite IH by lia. done.
      * rewrite IH by lia. done.
    + apply IH. simpl in Hk. lia.
Qed.

Lemma length_replace_char (o n : ascii) (s : string) :
  String.length (replace (String o "") (String n "") s) = String.length s.
Proof.
  unfold replace. induction s as [|c s IH]; [done|].
  cbn [replace_from]. rewrite prefix_cons, prefix_empty.
  destruct (ascii_dec o c); cbn [String.length Nat.sub String.append]; by rewrite IH.
Qed.

Lemma length_interleave (new s : string) :
  String.length (concat_map (fun c => String c new) s)
  = (String.length s * S (String.length new))%nat.
Proof.
  induction s as [|c s IH]; [done|].
  cbn [concat_map String.append String.length]. rewrite length_append, IH. lia.
Qed.

(** X24: what [changeExtension] makes of a path. When the path has an
    extension, the extension that ends the path is replaced by the target
    extension, and so is every other occurrence of the same text in the
    rest of the path. When the path has no dot, nothing is appended: the
    target extension is put before every character of the path and at its
    end. *)
Theorem changeExtension_cases (self : FileName) (targetExt : string) :
  let target := if String.prefix "." targetExt then targetExt else "." +:+ targetExt in
  (getExt self <> "" ->
     getPath (changeExtension self targetExt)
     = replace "\" "/" (replace (getExt self) target (getPathNoExt self) +:+ target)) /\
  (no_char "." (getPath self) = true ->
     getPath (changeExtension self targetExt)
     = replace "\" "/" (target +:+ concat_map (fun c => String c target) (getPath self)) /\
     String.length (getPath (changeExtension self targetExt))
     = (String.length (getPath self)
        + (String.length (getPath self) + 1) * String.length target)%nat).
Proof.
  intros target. unfold changeExtension, NewFileName, getPath. cbn [path_str].
  fold target. split.
  - intros Hne. destruct (splitext_parts (path_str self)) as [Hp Hx].
    unfold getExt, getPathNoExt in *.
    destruct (ext_of_name_suffix false (basename (path_str self)))
      as (_ & _ & [He | (e & He & Hdot)]); [congruence|].
    rewrite <- Hx in He. clear Hx.
    destruct (splitext (path_str self)) as [root ext]. cbn [fst snd] in *.
    subst ext. rewrite <- Hp. cbn [str_replace]. unfold replace at 2 3.
    rewrite replace_before_ext by (done || lia). done.
  - intros Hnd. unfold getExt. destruct (splitext_parts (path_str self)) as [_ ->].
    rewrite (ext_of_name_no_dot _ _ (no_char_basename _ _ Hnd)).
    cbn [str_replace]. split; [done|].
    rewrite length_replace_char, length_append, length_interleave. lia.
Qed.

Section URLs.
Variable urlparse_path : string -> string.

(** X25: when the path of the URL has no dot, [text_get_URL_extension]
    and [text_get_image_URL_extension] raise [IndexError]: neither the
    empty string nor the default [jpg] is returned. What
    [text_get_URL_extension] returns is the extension of the path without
    its dot, and [text_get_image_URL_extension] never returns the empty
    string. *)
Theorem URL_extension_cases (url : string) :
  (no_char "." (urlparse_path url) = true ->
     text_get_URL_extension urlparse_path url = IndexError /\
     text_get_image_URL_extension urlparse_path url = IndexError) /\
  (forall ext, text_get_URL_extension urlparse_path url = Value ext ->
     (splitext (urlparse_path url)).2 = String "." ext) /\
  (forall ext, text_get_image_URL_extension urlparse_path url = Value ext ->
     ext <> "").
Proof.
  unfold text_get_URL_extension, text_get_image_URL_extension.
  set (path := urlparse_path url).
  destruct (splitext_parts path) as [_ ->].
  split; [|split].
  - intros H. by rewrite (ext_of_name_no_dot _ _ (no_char_basename _ _ H)).
  - intros ext.
    destruct (ext_of_name_suffix false (basename path)) as (_ & _ & [-> | (e & -> & _)]);
      cbn [first_char]; [done|].
    cbn [Ascii.eqb Bool.eqb drop_chars]. by intros [= <-].
  - intros ext.
    destruct (ext_of_name_suffix false (basename path)) as (_ & _ & [-> | (e & -> & _)]);
      cbn [first_char]; [done|].
    cbn [Ascii.eqb Bool.eqb drop_chars]. case_bool_decide as E; intros [= <-]; done.
Qed.

End URLs.

End UtilsPathsProps.

Module ScrapingNameProps.
Import Py Utils UtilsPaths UtilsTitles StringFacts.
#[local] Arguments String.append : simpl nomatch.

Lemma closes_cons (close x : ascii) (s : string) :
  is_Some (lazy_until close (String x s)) <->
  x = close \/ (x <> LF /\ is_Some (lazy_until close s)).
Proof.
  cbn [lazy_until]. destruct (Ascii.eqb_spec x close) as [->|Hx].
  - split; [by left | by eexists].
  - destruct (Ascii.eqb_spec x LF) as [->|Hl].
    + split; [by intros [? ?] | by intros [? | [? _]]].
    + rewrite fmap_is_Some. split; [by right | by intros [? | [_ ?]]].
Qed.

Lemma thinned_refl (s : string) : thinned s s.
Proof. induction s; by constructor. Qed.

(** Taking such characters out brings no closing bracket nearer than a
    line feed, and makes no tag. *)
Lemma thinned_closes (close : ascii) (s' s : string) :
  thinned s' s -> is_Some (lazy_until close s') -> is_Some (lazy_until close s).
Proof.
  induction 1 as [|x s' s _ IH|x s' s Hx _ IH]; [done| |].
  - rewrite !closes_cons. intros [-> | [Hl Hs]]; [by left | right; auto].
  - intros Hs. rewrite closes_cons. destruct (decide (x = close)); [by left|].
    right. auto.
Qed.

Lemma thinned_has_group (o close : ascii) (s' s : string) :
  thinned s' s -> has_group o close s = false -> has_group o close s' = false.
Proof.
  induction 1 as [|x s' s Ht IH|x s' s Hx _ IH]; [done| |]; cbn [has_group];
    intros H; apply orb_false_iff in H as [H1 H2].
  - apply orb_false_iff. split; [|by apply IH].
    destruct (Ascii.eqb x o); [|done]. cbn [andb] in *.
    apply bool_decide_eq_false in H1. apply bool_decide_eq_false.
    intros Hs. apply H1. by eapply thinned_closes.
  - by apply IH.
Qed.

Lemma thinned_all_chars (P : ascii -> bool) (s' s : string) :
  thinned s' s -> all_chars P s = true -> all_chars P s' = true.
Proof.
  induction 1 as [|x s' s _ IH|x s' s Hx _ IH]; [done| |]; cbn [all_chars];
    intros H; apply andb_true_iff in H as [H1 H2]; [|by apply IH].
  by rewrite H1, IH.
Qed.

Lemma take_chars_append (a b : string) : take_chars (String.length a) (a +:+ b) = a.
Proof. induction a as [|c a IH]; [by destruct b|]. simpl. by rewrite IH. Qed.

(** What [re.sub] leaves is the text with the tags taken out. *)
Lemma sub_group_from_thinned (o close : ascii) (s : string) :
  o <> LF -> close <> LF ->
  forall k, all_chars (fun c => negb (Ascii.eqb c LF)) (take_chars k s) = true ->
    thinned (sub_group_from o close k s) s.
Proof.
  intros Ho Hc. induction s as [|x s IH]; intros k Hk; [constructor|].
  destruct k as [|k]; cbn [sub_group_from].
  - unfold match_group0. destruct (Ascii.eqb_spec x o) as [->|Hx].
    + destruct (lazy_until close s) as [body|] eqn:E; cbn [fmap option_fmap option_map].
      * cbn [String.length Nat.sub]. rewrite Nat.sub_0_r.
        apply thinned_drop; [done|]. apply IH.
        destruct (MultiDiscFacts.lazy_until_some _ _ _ E) as (b & rest & Hb & -> & ->).
        replace (b +:+ String close rest) with ((b +:+ String close "") +:+ rest)
          by (by rewrite append_assoc).
        rewrite take_chars_append, TextProps1.all_chars_append.
        cbn [all_chars]. apply Ascii.eqb_neq in Hc. rewrite Hc. cbn [negb andb].
        rewrite andb_true_r. unfold group_body in Hb.
        clear -Hb. induction b as [|y b IHb]; [done|]. cbn [all_chars] in *.
        apply andb_true_iff in Hb as [Hy Hb]. apply andb_true_iff in Hy as [_ Hy].
        by rewrite Hy, IHb.
      * apply thinned_keep. by apply IH.
    + apply thinned_keep. by apply IH.
  - cbn [take_chars all_chars] in Hk. apply andb_true_iff in Hk as [Hx Hk].
    apply thinned_drop; [|by apply IH].
    apply negb_true_iff in Hx. by apply Ascii.eqb_neq.
Qed.

Lemma sub_group_thinned (o close : ascii) (s : string) :
  o <> LF -> close <> LF -> thinned (sub_group o close s) s.
Proof. intros Ho Hc. by apply sub_group_from_thinned. Qed.

(** After [re.sub] no tag of the kind taken out is left. *)
Lemma sub_group_from_no_group (o close : ascii) (s : string) :
  o <> LF -> close <> LF ->
  forall k, has_group o close (sub_group_from o close k s) = false.
Proof.
  intros Ho Hc. induction s as [|x s IH]; intros k; [done|].
  destruct k as [|k]; cbn [sub_group_from]; [|apply IH].
  unfold match_group0. destruct (Ascii.eqb_spec x o) as [->|Hx].
  - destruct (lazy_until close s) as [body|] eqn:E; cbn [fmap option_fmap option_map];
      [apply IH|].
    cbn [has_group]. rewrite IH, orb_false_r. apply andb_false_iff. right.
    apply bool_decide_eq_false. intros Hs.
    apply (thinned_closes close _ s) in Hs; [|by apply sub_group_thinned].
    rewrite E in Hs. by destruct Hs.
  - cbn [has_group]. rewrite IH, orb_false_r.
    apply Ascii.eqb_neq in Hx. by rewrite Hx.
Qed.

Lemma replace_char_thinned (d : ascii) (s : string) :
  d <> LF -> thinned (replace (String d "") "" s) s.
Proof.
  intros Hd. unfold replace. induction s as [|x s IH]; [constructor|].
  cbn [replace_from]. rewrite prefix_cons, prefix_empty.
  destruct (ascii_dec d x) as [<-|Hx].
  - cbn [String.length Nat.sub String.append]. by apply thinned_drop.
  - by apply thinned_keep.
Qed.

Lemma replace_char_gone (d : ascii) (s : string) :
  no_char d (replace (String d "") "" s) = true.
Proof.
  unfold replace, no_char. induction s as [|x s IH]; [done|].
  cbn [replace_from]. rewrite prefix_cons, prefix_empty.
  destruct (ascii_dec d x) as [<-|Hx]; [done|].
  cbn [all_chars]. rewrite IH, andb_true_r. apply negb_true_iff.
  apply Ascii.eqb_neq. congruence.
Qed.

(** [strip] keeps a piece of the text. *)
Lemma lstrip_suffix (sp : ascii -> bool) (s : string) :
  exists a, s = a +:+ lstrip sp s.
Proof.
  induction s as [|c s [a Ha]]; [by exists ""|]. cbn [lstrip].
  destruct (sp c); [|by exists ""]. exists (String c a). cbn [String.append]. by rewrite <- Ha.
Qed.

Lemma rstrip_prefix (sp : ascii -> bool) (s : string) :
  exists b, s = rstrip sp s +:+ b.
Proof.
  induction s as [|c s [b Hb]]; [by exists ""|]. cbn [rstrip].
  destruct (rstrip sp s) as [|y r] eqn:E.
  - destruct (sp c); [by exists (String c s)|]. exists s. done.
  - exists b. cbn [String.append] in *. by rewrite <- Hb.
Qed.

Lemma strip_piece (sp : ascii -> bool) (s : string) :
  exists a b, s = a +:+ strip sp s +:+ b.
Proof.
  unfold strip. destruct (lstrip_suffix sp s) as [a Ha].
  destruct (rstrip_prefix sp (lstrip sp s)) as [b Hb].
  exists a, b. by rewrite <- Hb.
Qed.

Lemma closes_append (close : ascii) (a b : string) :
  is_Some (lazy_until close a) -> is_Some (lazy_until close (a +:+ b)).
Proof.
  induction a as [|x a IH]; [by intros [? ?]|]. cbn [String.append].
  rewrite !closes_cons. intros [-> | [Hl Hs]]; [by left | right; auto].
Qed.

Lemma has_group_piece (o close : ascii) (a s b : string) :
  has_group o close (a +:+ s +:+ b) = false -> has_group o close s = false.
Proof.
  induction a as [|x a IH]; cbn [String.append has_group].
  - induction s as [|y s IHs]; [done|]. cbn [String.append has_group].
    intros H. apply orb_false_iff in H as [H1 H2]. rewrite (IHs H2), orb_false_r.
    destruct (Ascii.eqb y o); [|done]. cbn [andb] in *.
    apply bool_decide_eq_false in H1. apply bool_decide_eq_false.
    intros Hs. apply H1. by apply closes_append.
  - intros H. apply orb_false_iff in H as [_ H]. by apply IH.
Qed.

Lemma all_chars_piece (P : ascii -> bool) (a s b : string) :
  all_chars P (a +:+ s +:+ b) = true -> all_chars P s = true.
Proof.
  rewrite !TextProps1.all_chars_append. intros H.
  apply andb_true_iff in H as [_ H]. by apply andb_true_iff in H as [H _].
Qed.

(** X26: the name [text_format_ROM_name_for_scraping] returns holds no
    tag: no opening square bracket, parenthesis or brace is followed by its
    closing bracket on the same line; it holds none of the characters
    underscore, hyphen, colon and dot; and it has no white space at either
    end. *)
Theorem scraping_name_clean (title : string) :
  let name := text_format_ROM_name_for_scraping title in
  has_group "[" "]" name = false /\ has_group "(" ")" name = false /\
  has_group "{" "}" name = false /\
  all_chars (fun c => negb (is_scraping_separator c)) name = true /\
  strip is_space_unicode name = name.
Proof.
  unfold text_format_ROM_name_for_scraping. cbv zeta.
  set (t1 := sub_group "[" "]" title).
  set (t2 := sub_group "(" ")" t1).
  set (t3 := sub_group "{" "}" t2).
  set (t4 := replace "_" "" t3).
  set (t5 := replace "-" "" t4).
  set (t6 := replace ":" "" t5).
  set (t7 := replace "." "" t6).
  assert (H21 : thinned t2 t1) by (by apply sub_group_thinned).
  assert (H32 : thinned t3 t2) by (by apply sub_group_thinned).
  assert (H43 : thinned t4 t3) by (by apply replace_char_thinned).
  assert (H54 : thinned t5 t4) by (by apply replace_char_thinned).
  assert (H65 : thinned t6 t5) by (by apply replace_char_thinned).
  assert (H76 : thinned t7 t6) by (by apply replace_char_thinned).
  destruct (strip_piece is_space_unicode t7) as (a & b & Hab).
  assert (G1 : has_group "[" "]" t7 = false).
  { do 6 (eapply thinned_has_group; [eassumption|]).
    by apply sub_group_from_no_group. }
  assert (G2 : has_group "(" ")" t7 = false).
  { do 5 (eapply thinned_has_group; [eassumption|]).
    by apply sub_group_from_no_group. }
  assert (G3 : has_group "{" "}" t7 = false).
  { do 4 (eapply thinned_has_group; [eassumption|]).
    by apply sub_group_from_no_group. }
  assert (S7 : all_chars (fun c => negb (is_scraping_separator c)) t7 = true).
  { assert (N1 : no_char "_" t7 = true).
    { do 3 (eapply thinned_all_chars; [eassumption|]). apply replace_char_gone. }
    assert (N2 : no_char "-" t7 = true).
    { do 2 (eapply thinned_all_chars; [eassumption|]). apply replace_char_gone. }
    assert (N3 : no_char ":" t7 = true).
    { eapply thinned_all_chars; [eassumption|]. apply replace_char_gone. }
    assert (N4 : no_char "." t7 = true) by apply replace_char_gone.
    unfold no_char in *. clear -N1 N2 N3 N4.
    induction t7 as [|c s IH]; [done|]. cbn [all_chars] in *.
    apply andb_true_iff in N1 as [A1 N1]. apply andb_true_iff in N2 as [A2 N2].
    apply andb_true_iff in N3 as [A3 N3]. apply andb_true_iff in N4 as [A4 N4].
    rewrite (IH N1 N2 N3 N4), andb_true_r. unfold is_scraping_separator.
    apply negb_true_iff in A1, A2, A3, A4. by rewrite A1, A2, A3, A4. }
  rewrite Hab in G1, G2, G3, S7.
  split; [by eapply has_group_piece|].
  split; [by eapply has_group_piece|].
  split; [by eapply has_group_piece|].
  split; [by eapply all_chars_piece|].
  apply TextProps1.strip_idem.
Qed.

Lemma sub_group_from_id (o close : ascii) (s : string) :
  has_group o close s = false -> sub_group_from o close 0 s = s.
Proof.
  induction s as [|x s IH]; [done|]. cbn [has_group sub_group_from]. intros H.
  apply orb_false_iff in H as [H1 H2]. rewrite (IH H2).
  unfold match_group0. destruct (Ascii.eqb x o); [|done]. cbn [andb] in H1.
  apply bool_decide_eq_false in H1.
  destruct (lazy_until close s) as [body|]; [|done]. exfalso. apply H1. by eexists.
Qed.

(** X27: [text_remove_HTML_tags] leaves no tag that fits in one line, and
    a text in which no [<] is followed by a [>] on the same line is
    returned as it is: a tag cut by a line feed stays. *)
Theorem text_remove_HTML_tags_clean (s : string) :
  has_group "<" ">" (text_remove_HTML_tags s) = false /\
  (has_group "<" ">" s = false -> text_remove_HTML_tags s = s).
Proof.
  unfold text_remove_HTML_tags, sub_group. cbv zeta. split.
  - by apply sub_group_from_no_group.
  - apply sub_group_from_id.
Qed.

End ScrapingNameProps.

Module RomTitleProps.
Import Py Utils UtilsPaths UtilsTitles StringFacts ScrapingNameProps.
#[local] Arguments String.append : simpl nomatch.

Lemma match_group_space_kind (o close : ascii) (s tok : string) :
  is_opening o = true -> match_group_space o close s = Some tok -> token_kind tok.
Proof.
  intros Ho. unfold match_group_space.
  destruct (match_group o close s) as [tok0|] eqn:E; [|done].
  destruct (MultiDiscFacts.match_group_some _ _ _ _ E)
    as (c1 & body & rest & _ & _ & -> & _).
  intros H. left. exists o.
  destruct (drop_chars _ s) as [|c r]; [injection H as <-; by eexists|].
  destruct (is_space_bytes c); injection H as <-; by eexists.
Qed.

Lemma match_title_token_kind (s tok : string) :
  match_title_token s = Some tok -> token_kind tok.
Proof.
  unfold match_title_token.
  destruct (match_group_space "[" "]" s) as [t|] eqn:E1;
    [intros [= <-]; eapply match_group_space_kind; [|eassumption]; done|].
  destruct (match_group_space "(" ")" s) as [t|] eqn:E2;
    [intros [= <-]; eapply match_group_space_kind; [|eassumption]; done|].
  destruct (match_group "{" "}" s) as [t|] eqn:E3.
  - intros [= <-].
    destruct (MultiDiscFacts.match_group_some _ _ _ _ E3)
      as (c1 & body & rest & _ & _ & -> & _).
    left. exists "{"%char. eexists. split; [done | reflexivity].
  - unfold match_run. destruct (MultiDiscFacts.run_outside_spec s) as (rest & _ & Hall).
    destruct (run_outside s) as [|c r]; [done|]. intros [= <-]. by right.
Qed.

Lemma findall_with_Forall (P : string -> Prop) (pattern : string -> option string) :
  (forall s tok, pattern s = Some tok -> P tok) ->
  forall s k, Forall P (findall_with pattern k s).
Proof.
  intros HP. induction s as [|c s IH]; intros k; [constructor|].
  destruct k as [|k]; cbn [findall_with]; [|apply IH].
  destruct (pattern (String c s)) as [tok|] eqn:E; [|apply IH].
  constructor; [by eapply HP | apply IH].
Qed.

(** The loop raises [IndexError] at the first token that is white space
    only. *)
Lemma title_loop_error (tokens str_list : list string) :
  title_loop tokens str_list = IndexError <->
  Exists (fun token => strip is_space_unicode token = "") tokens.
Proof.
  revert str_list. induction tokens as [|token tokens IH]; intros str_list.
  - cbn [title_loop]. rewrite Exists_nil. done.
  - cbn [title_loop]. rewrite Exists_cons.
    destruct (strip is_space_unicode token) as [|c r] eqn:E; cbn [first_char].
    + split; [by left | done].
    + destruct (_ && _); rewrite IH; (split; [by right | by intros [? | ?]]).
Qed.

Lemma strip_opening (o : ascii) (rest : string) :
  is_opening o = true ->
  exists r, strip is_space_unicode (String o rest) = String o r.
Proof.
  intros Ho. unfold strip.
  assert (Hs : is_space_unicode o = false) by (revert Ho; by_char o; done).
  cbn [lstrip]. rewrite Hs. cbn [rstrip]. rewrite Hs.
  destruct (rstrip is_space_unicode rest); by eexists.
Qed.

Lemma title_loop_parts (tokens str_list cleaned : list string) :
  Forall token_kind tokens -> Forall title_part str_list ->
  title_loop tokens str_list = Value cleaned -> Forall title_part cleaned.
Proof.
  intros Ht. revert str_list. induction Ht as [|token tokens Hk _ IH]; intros str_list Hl.
  - cbn [title_loop]. by intros [= <-].
  - cbn [title_loop].
    destruct (strip is_space_unicode token) as [|c r] eqn:E; cbn [first_char]; [done|].
    destruct ((Ascii.eqb c "[" || Ascii.eqb c "(" || Ascii.eqb c "{")
              && negb (bool_decide (String c r = "[BIOS]"))) eqn:Ec; [by apply IH|].
    apply IH. apply Forall_app. split; [done|]. constructor; [|constructor].
    split; [done|].
    apply andb_false_iff in Ec as [Ec | Ec].
    + right. destruct Hk as [(o & rest & Ho & ->) | Hall].
      * destruct (strip_opening o rest Ho) as [r' Hr']. rewrite Hr' in E.
        injection E as -> ->. unfold is_opening in Ho. congruence.
      * destruct (strip_piece is_space_unicode token) as (a & b & Hab).
        rewrite Hab, E in Hall. by eapply all_chars_piece.
    + left. apply negb_false_iff in Ec. by apply bool_decide_eq_true in Ec.
Qed.

Lemma lstrip_all_space (sp : ascii -> bool) (s : string) :
  all_chars sp s = true -> lstrip sp s = "".
Proof.
  induction s as [|c s IH]; [done|]. cbn [all_chars lstrip].
  intros H. apply andb_true_iff in H as [-> Hs]. by apply IH.
Qed.

(** X28: with [clean_tags] set, [text_format_ROM_title] raises
    [IndexError] exactly when one of the tokens of the title is white space
    only, which is the case of every non-empty title made of white space.
    What it returns otherwise is made of texts without opening bracket and
    of [[BIOS]] tags, none of them empty, joined by single blanks. *)
Theorem text_format_ROM_title_cases (title : string) :
  (text_format_ROM_title title true = IndexError <->
   Exists (fun token => strip is_space_unicode token = "")
          (findall_with match_title_token 0 title)) /\
  (title <> "" -> all_chars is_space_unicode title = true ->
   text_format_ROM_title title true = IndexError) /\
  (forall cleaned_title, text_format_ROM_title title true = Value cleaned_title ->
   exists str_list, cleaned_title = join " " str_list /\ Forall title_part str_list).
Proof.
  assert (H1 : text_format_ROM_title title true = IndexError <->
    Exists (fun token => strip is_space_unicode token = "")
           (findall_with match_title_token 0 title)).
  { rewrite <- (title_loop_error _ []). unfold text_format_ROM_title.
    destruct (title_loop _ _); done. }
  split; [done|]. split.
  - intros Hne Hsp. apply H1. destruct title as [|c s]; [done|].
    cbn [all_chars] in Hsp. apply andb_true_iff in Hsp as [Hc Hs].
    assert (Ho : is_opening c = false) by (revert Hc; by_char c; done).
    destruct (MultiDiscFacts.is_opening_false c Ho) as (O1 & O2 & O3).
    cbn [findall_with]. unfold match_title_token, match_group_space.
    rewrite !MultiDiscFacts.match_group_other by done.
    unfold match_run. cbn [run_outside]. rewrite Ho.
    apply Exists_cons. left.
    destruct (MultiDiscFacts.run_outside_spec s) as (rest & Hr & _).
    rewrite Hr, TextProps1.all_chars_append in Hs. apply andb_true_iff in Hs as [Hs _].
    unfold strip. rewrite lstrip_all_space; [done|]. cbn [all_chars]. by rewrite Hc, Hs.
  - intros cleaned_title. unfold text_format_ROM_title.
    destruct (title_loop _ _) as [str_list|] eqn:E; [|done]. intros [= <-].
    exists str_list. split; [done|].
    eapply title_loop_parts; [|constructor|exact E].
    apply findall_with_Forall. apply match_title_token_kind.
Qed.

End RomTitleProps.

Module DecodeHTMLProps.
Import Py Utils UtilsPaths UtilsTitles StringFacts.
#[local] Arguments String.append : simpl nomatch.

(** A text in which the first character of [old] does not occur is passed
    over by [replace]. *)
Lemma replace_app_no_head (o : ascii) (old' new s u : string) :
  no_char o s = true ->
  replace (String o old') new (s +:+ u) = s +:+ replace (String o old') new u.
Proof.
  unfold replace, no_char. induction s as [|c s IH]; [done|].
  cbn [all_chars String.append replace_from]. intros H.
  apply andb_true_iff in H as [Hc Hs]. apply negb_true_iff, Ascii.eqb_neq in Hc.
  rewrite prefix_cons. destruct (ascii_dec o c) as [->|_]; [done|].
  by rewrite (IH Hs).
Qed.

Lemma replace_no_head (o : ascii) (old' new s : string) :
  no_char o s = true -> replace (String o old') new s = s.
Proof.
  intros H. rewrite <- (ChecksumProps.append_nil_r s) at 1.
  rewrite (replace_app_no_head o old' new s "" H).
  by rewrite ChecksumProps.append_nil_r.
Qed.

Lemma no_char_append (d : ascii) (a b : string) :
  no_char d (a +:+ b) = no_char d a && no_char d b.
Proof. apply TextProps1.all_chars_append. Qed.

Lemma text_decode_HTML_no_percent (s : string) :
  no_char "%" s = true -> text_decode_HTML s = s.
Proof.
  intros H. unfold text_decode_HTML. cbv zeta.
  by rewrite !(replace_no_head "%" _ _ s H).
Qed.

(** X29: [text_decode_HTML] leaves a text without percent sign as it is;
    and, the code %25 being replaced first, a percent sign that was
    encoded is decoded again with the two characters that follow it: a
    text holding %2520 between parts without percent sign gives a blank
    there, not %20. *)
Theorem text_decode_HTML_twice (s t : string) :
  no_char "%" s = true -> no_char "%" t = true ->
  text_decode_HTML s = s /\
  text_decode_HTML (s +:+ "%2520" +:+ t) = s +:+ " " +:+ t.
Proof.
  intros Hs Ht. split; [by apply text_decode_HTML_no_percent|].
  assert (H1 : replace "%25" "%" (s +:+ "%2520" +:+ t) = s +:+ "%20" +:+ t).
  { rewrite (replace_app_no_head "%" "25" "%" s _ Hs). f_equal.
    unfold replace. cbn [String.append replace_from String.length Nat.sub].
    rewrite !prefix_cons, prefix_empty. cbn.
    fold (replace "%25" "%" t). by rewrite (replace_no_head "%" "25" "%" t Ht). }
  assert (H2 : replace "%20" " " (s +:+ "%20" +:+ t) = s +:+ " " +:+ t).
  { rewrite (replace_app_no_head "%" "20" " " s _ Hs). f_equal.
    unfold replace. cbn [String.append replace_from String.length Nat.sub].
    rewrite !prefix_cons, prefix_empty. cbn.
    fold (replace "%20" " " t). by rewrite (replace_no_head "%" "20" " " t Ht). }
  assert (H3 : no_char "%" (s +:+ " " +:+ t) = true).
  { rewrite !no_char_append, Hs, Ht. done. }
  unfold text_decode_HTML. cbv zeta. rewrite H1, H2.
  by rewrite !(replace_no_head "%" _ _ _ H3).
Qed.

Lemma text_decode_HTML_twice_witness :
  text_decode_HTML "a/b" = "a/b" /\
  text_decode_HTML ("a/b" +:+ "%2520" +:+ "c") = "a/b" +:+ " " +:+ "c".
Proof. apply (text_decode_HTML_twice "a/b" "c"); reflexivity. Defined.

End DecodeHTMLProps.
